(** * ChessCoachPro: the rules-and-feedback engine

    A shallow embedding of the engine functions of the [ChessCoachPro]
    component: board model, legality checker, move generator, position
    evaluator, move classifier, hint engine and post-game aggregator, and of
    the handlers that drive them: the click handler, the reply of the engine
    and the clock.

    JavaScript numbers that hold evaluations and percentages are IEEE
    binary64 values and are modelled by primitive floats; row and column
    indices and counters are integers and are modelled by [Z].  The functions
    of the component are closures over the state of one render; they are
    defined inside a section whose variable is that state. *)

From Stdlib Require Import String DecimalString.
From Stdlib Require Import ZArith List Bool Lia Floats Sorted.
Import ListNotations.

Set Warnings "-inexact-float".

Local Open Scope Z_scope.

(** ** Completions

    A call either returns, raises a [TypeError] (a property read or written on
    [undefined]), or is still looping when the iteration budget of the model
    is used up. *)

Inductive completion (A : Type) : Type :=
| Normal (a : A)
| TypeError
| Running.

Arguments Normal {A} a.
Arguments TypeError {A}.
Arguments Running {A}.

Definition cbind {A B : Type} (m : completion A) (k : A -> completion B)
  : completion B :=
  match m with
  | Normal a => k a
  | TypeError => TypeError
  | Running => Running
  end.

Notation "x <- m ;; k" := (cbind m (fun x => k))
  (at level 61, m at next level, right associativity).

(** ** Data model

    [piece.color] and [piece.type] are strings in the source; only the two
    colors and the six kinds below are ever stored, so the [default] branch
    of the [switch] in [isValidMove] has no counterpart here. *)

Inductive Color : Set := white | black.

Inductive Kind : Set := pawn | knight | bishop | rook | queen | king.

Record Piece : Set := mkPiece { type : Kind; color : Color; moved : bool }.

Definition Row : Set := list (option Piece).
Definition Board : Set := list Row.

Definition color_eqb (a b : Color) : bool :=
  match a, b with
  | white, white | black, black => true
  | _, _ => false
  end.

Definition kind_eqb (a b : Kind) : bool :=
  match a, b with
  | pawn, pawn | knight, knight | bishop, bishop
  | rook, rook | queen, queen | king, king => true
  | _, _ => false
  end.

(** [if (x)] on a square: a piece object is truthy, [null] and [undefined]
    are not. *)
Definition truthy (x : option Piece) : bool :=
  match x with Some _ => true | None => false end.

(** [arr[i]]: [None] stands for [undefined]. *)
Definition index {A : Type} (l : list A) (i : Z) : option A :=
  if i <? 0 then None else nth_error l (Z.to_nat i).

(** [board[r][c]]: reading a column of a missing row raises; a missing
    column of an existing row reads as [undefined]. *)
Definition cell (b : Board) (r c : Z) : completion (option Piece) :=
  match index b r with
  | None => TypeError
  | Some row =>
      Normal (match index row c with Some x => x | None => None end)
  end.

Definition wf_board (b : Board) : Prop :=
  length b = 8%nat /\ Forall (fun row : Row => length row = 8%nat) b.

Definition on_board (r c : Z) : Prop := 0 <= r <= 7 /\ 0 <= c <= 7.

(** [initializeBoard] *)
Definition setup0 : list Kind :=
  [rook; knight; bishop; queen; king; bishop; knight; rook].
Definition setup1 : list Kind :=
  [pawn; pawn; pawn; pawn; pawn; pawn; pawn; pawn].

Definition initializeBoard : Board :=
  let rank (col : Color) (ks : list Kind) : Row :=
    map (fun k => Some (mkPiece k col false)) ks in
  let empty : Row := repeat None 8 in
  [ rank black setup0; rank black setup1;
    empty; empty; empty; empty;
    rank white setup1; rank white setup0 ].

Definition pieceValues (k : Kind) : Z :=
  match k with
  | pawn => 1 | knight => 3 | bishop => 3 | rook => 5 | queen => 9 | king => 0
  end.

(** ** Numbers

    [num] is the binary64 value of an integer (round to nearest even, exact
    below 2^53); [floorZ] is [Math.floor] read back as an integer, with
    [None] for NaN and the infinities. *)

Definition num (z : Z) : float :=
  SF2Prim (binary_normalize prec emax z 0 false).

Definition floorZ (x : float) : option Z :=
  match Prim2SF x with
  | S754_zero _ => Some 0
  | S754_finite s m e =>
      Some (Z.shiftl (if s then Z.neg m else Z.pos m) e)
  | S754_infinity _ => None
  | S754_nan => None
  end.

(** [String(n)] for an integer. *)
Definition showZ (z : Z) : string := NilZero.string_of_int (Z.to_int z).

(** ** Records of the session *)

Record Square : Set := mkSquare { sq_row : Z; sq_col : Z }.

(** Entries of [generateAllPossibleMoves]: [{from: {r, c}, to: {r, c}, notation}]. *)
Record Candidate : Set := mkCandidate {
  from : Square;
  to : Square;
  notation : string
}.

Inductive Tier : Set :=
| brilliant | best | good | inaccuracy | mistake | blunder.

Definition tier_eqb (a b : Tier) : bool :=
  match a, b with
  | brilliant, brilliant | best, best | good, good
  | inaccuracy, inaccuracy | mistake, mistake | blunder, blunder => true
  | _, _ => false
  end.

(** A slot of [feedback] is a string, or [undefined] ([None]) when a pool
    is read outside its bounds. *)
Record Classification : Set := mkClassification {
  ctype : Tier;
  symbol : string;
  description : string;
  feedback : list (option string)
}.

(** [moveData]; the [timestamp] field ([Date.now()]) is read by no function
    of the engine and is left out. *)
Record MoveData : Set := mkMoveData {
  md_piece : Kind;
  md_from : Square;
  md_to : Square;
  captured : option Piece;
  md_notation : string;
  player : Color;
  classification : option Classification;
  evaluation : option float
}.

Record Hint : Set := mkHint { hint_type : string; message : string }.

Record Weakness : Set := mkWeakness {
  w_area : string; w_description : string; severity : string
}.
Record Strength : Set := mkStrength { s_area : string; s_description : string }.
Record Recommendation : Set := mkRecommendation {
  title : string; r_description : string; priority : string
}.

Record PerformanceStats : Set := mkPerformanceStats {
  tacticalAccuracy : float;
  positionalAwareness : float;
  endgameSkill : float;
  openingKnowledge : float;
  timeManagement : float
}.

Record TimeControl : Set := mkTimeControl { tc_white : Z; tc_black : Z }.

Inductive GameMode : Set := ai | local.

(** The state of one render, as far as the engine functions read it. *)
Record Session : Set := mkSession {
  board : Board;
  currentPlayer : Color;
  moves : list MoveData;
  gameMode : GameMode;
  timeControl : TimeControl;
  engineEvaluation : float;
  bestMove : option Candidate
}.

(** State setters do not change the state a running handler sees: each call
    queues an update for the next render.  [ScheduleAIMove b] is the
    [setTimeout(() => makeAIMove(b), 500)] of [makeMove]. *)
Inductive Update : Set :=
| SetBoard (b : Board)
| SetCurrentPlayer (c : Color)
| SetMoves (l : list MoveData)
| SetGameOver (g : bool)
| SetIsTimerActive (a : bool)
| SetEngineEvaluation (e : float)
| SetBestMove (m : option Candidate)
| SetMoveClassification (c : Classification)
| SetLiveHints (h : list Hint)
| AppendNotation (s : string)
| SetWeaknesses (l : list Weakness)
| SetStrengths (l : list Strength)
| SetRecommendations (l : list Recommendation)
| SetPerformanceStats (p : PerformanceStats)
| SetShowPostGameAnalysis (s : bool)
| ScheduleAIMove (b : Board).

(** The state of the next render: the queued updates applied in order. *)
Definition apply_update (s : Session) (u : Update) : Session :=
  match u with
  | SetBoard b =>
      mkSession b (currentPlayer s) (moves s) (gameMode s) (timeControl s)
                (engineEvaluation s) (bestMove s)
  | SetCurrentPlayer c =>
      mkSession (board s) c (moves s) (gameMode s) (timeControl s)
                (engineEvaluation s) (bestMove s)
  | SetMoves l =>
      mkSession (board s) (currentPlayer s) l (gameMode s) (timeControl s)
                (engineEvaluation s) (bestMove s)
  | SetEngineEvaluation e =>
      mkSession (board s) (currentPlayer s) (moves s) (gameMode s)
                (timeControl s) e (bestMove s)
  | SetBestMove m =>
      mkSession (board s) (currentPlayer s) (moves s) (gameMode s)
                (timeControl s) (engineEvaluation s) m
  | _ => s
  end.

Definition commit (s : Session) (queue : list Update) : Session :=
  fold_left apply_update queue s.

(** ** Effects of a handler

    The world a handler acts on: the queue of updates it has issued so far
    (oldest first) and the number of [Math.random()] draws it has made.  The
    draws themselves come from an oracle [nat -> float]. *)

Record World : Set := mkWorld { queue : list Update; draws : nat }.

Definition M (A : Type) : Type := World -> completion A * World.

Definition mret {A : Type} (a : A) : M A := fun w => (Normal a, w).

Definition mbind {A B : Type} (m : M A) (k : A -> M B) : M B :=
  fun w =>
    match m w with
    | (Normal a, w') => k a w'
    | (TypeError, w') => (TypeError, w')
    | (Running, w') => (Running, w')
    end.

Definition lift {A : Type} (m : completion A) : M A := fun w => (m, w).

Definition emit (u : Update) : M unit :=
  fun w => (Normal tt, mkWorld (queue w ++ [u]) (draws w)).

Notation "x <~ m ;; k" := (mbind m (fun x => k))
  (at level 61, m at next level, right associativity).
Notation "m ;;; k" := (mbind m (fun _ => k))
  (at level 61, right associativity).

(** ** Loops over arrays *)

(** [arr.forEach((x, i) => ...)] visits the elements with their indices. *)
Definition indexed {A : Type} (l : list A) : list (Z * A) :=
  combine (map Z.of_nat (seq 0 (length l))) l.

(** A loop whose body pushes onto a result array: the pushes of each
    iteration in order; a raise in the body ends the loop. *)
Fixpoint collect {A B : Type} (body : A -> completion (list B)) (l : list A)
  : completion (list B) :=
  match l with
  | [] => Normal []
  | x :: xs =>
      ys <- body x ;;
      zs <- collect body xs ;;
      Normal (ys ++ zs)
  end.

(** A loop whose body updates an accumulator. *)
Fixpoint foldC {A S : Type} (body : S -> A -> completion S) (l : list A) (s : S)
  : completion S :=
  match l with
  | [] => Normal s
  | x :: xs => s' <- body s x ;; foldC body xs s'
  end.

(** [for (let i = 0; i < 8; i++)] *)
Definition upto8 : list Z := [0; 1; 2; 3; 4; 5; 6; 7].

(** ** Notation of a move *)

Definition files : list string := ["a"; "b"; "c"; "d"; "e"; "f"; "g"; "h"]%string.

Definition file_of (c : Z) : string :=
  match index files c with Some f => f | None => "undefined"%string end.

Definition pieceNotation (k : Kind) : string :=
  match k with
  | pawn => "" | knight => "K" | bishop => "B"
  | rook => "R" | queen => "Q" | king => "K"
  end%string.

Definition toAlgebraic (fromRow fromCol toRow toCol : Z) (piece : Piece) : string :=
  (pieceNotation (type piece) ++ file_of fromCol ++ showZ (8 - fromRow)
   ++ "-" ++ file_of toCol ++ showZ (8 - toRow))%string.

(** ** Position evaluator *)

Definition calculateMaterialBalance (board : Board) : Z :=
  fold_left
    (fun balance row =>
       fold_left
         (fun balance x =>
            match x with
            | Some piece =>
                let value := pieceValues (type piece) in
                balance + (if color_eqb (color piece) white then value else - value)
            | None => balance
            end)
         row balance)
    board 0.

Definition centerSquares : list (Z * Z) := [(3, 3); (3, 4); (4, 3); (4, 4)].

Definition unmoved_knight (x : option Piece) : bool :=
  match x with
  | Some p => kind_eqb (type p) knight && negb (moved p)
  | None => false
  end.

Definition evaluatePosition (board : Board) : completion float :=
  s1 <- foldC (fun score '(r, c) =>
                 x <- cell board r c ;;
                 Normal (match x with
                         | Some p =>
                             (score + (if color_eqb (color p) white
                                       then 0.3 else -0.3))%float
                         | None => score
                         end))
              centerSquares 0%float ;;
  s2 <- foldC (fun score '(r, c) =>
                 x <- cell board r c ;;
                 Normal (if unmoved_knight x then (score - 0.2)%float else score))
              [(7, 1); (7, 6)] s1 ;;
  foldC (fun score '(r, c) =>
           x <- cell board r c ;;
           Normal (if unmoved_knight x then (score + 0.2)%float else score))
        [(0, 1); (0, 6)] s2.

Definition countUndevelopedPieces (board : Board) (color : Color) : completion Z :=
  let startRow := match color with white => 7 | black => 0 end in
  foldC (fun count col =>
           x <- cell board startRow col ;;
           Normal (match x with
                   | Some p => if negb (moved p) then count + 1 else count
                   | None => count
                   end))
        [1; 2; 5; 6] 0.

Record Threat : Set := mkThreat { t_piece : Piece; position : Square }.

(** ** [toFixed(1)]

    The string [x.toFixed(1)] is kept as the number it denotes: NaN, an
    infinity, or a signed count of tenths, the integer [n] nearest to [10 x]
    (the larger one on a tie). *)

Inductive Numeral : Set :=
| NumNaN
| NumInfinity (negative : bool)
| NumTenths (negative : bool) (n : Z).

Definition toFixed1 (x : float) : Numeral :=
  match Prim2SF x with
  | S754_nan => NumNaN
  | S754_infinity s => NumInfinity s
  | S754_zero s => NumTenths s 0
  | S754_finite s m e =>
      NumTenths s
        (if 0 <=? e then 10 * Z.pos m * 2 ^ e
         else (20 * Z.pos m + 2 ^ (- e)) / (2 * 2 ^ (- e)))
  end.

(** [s > k] for a numeral [s] and an integer [k >= 0]: the string is
    converted to the number it denotes. *)
Definition numeral_gt (s : Numeral) (k : Z) : bool :=
  match s with
  | NumNaN => false
  | NumInfinity negative => negb negative
  | NumTenths negative n => negb negative && (n >? 10 * k)
  end.

(** ** Writing a square

    [arr[i] = v] replaces an element, or extends the array with holes up to
    [i]; a negative [i] names a property outside the elements. *)

Fixpoint put {A : Type} (hole : A) (l : list A) (i : nat) (v : A) : list A :=
  match i, l with
  | O, [] => [v]
  | O, _ :: xs => v :: xs
  | S k, [] => hole :: put hole [] k v
  | S k, x :: xs => x :: put hole xs k v
  end.

(** [board[r][c] = v]: raises when the row is missing. *)
Definition store (b : Board) (r c : Z) (v : option Piece) : completion Board :=
  match index b r with
  | None => TypeError
  | Some row =>
      Normal (if c <? 0 then b
              else put [] b (Z.to_nat r) (put None row (Z.to_nat c) v))
  end.

(** ** The closures of one render *)

Section Render.

(** The state the render was given, and the oracle of [Math.random()]. *)
Variable st : Session.
Variable rand : nat -> float.

(** *** Legality checker *)

(** The [while] loop of [isPathClear]; [budget] bounds the number of times
    its condition is tested. *)
Fixpoint isPathClear_scan (budget : nat)
         (toRow toCol rowStep colStep currentRow currentCol : Z)
  : completion bool :=
  match budget with
  | O => Running
  | S budget' =>
      if negb (currentRow =? toRow) || negb (currentCol =? toCol) then
        x <- cell (board st) currentRow currentCol ;;
        if truthy x then Normal false
        else isPathClear_scan budget' toRow toCol rowStep colStep
                              (currentRow + rowStep) (currentCol + colStep)
      else Normal true
  end.

Definition step_toward (a b : Z) : Z :=
  if b >? a then 1 else if b <? a then -1 else 0.

Definition scan_budget : nat := 8.

Definition isPathClear (fromRow fromCol toRow toCol : Z) : completion bool :=
  let rowStep := step_toward fromRow toRow in
  let colStep := step_toward fromCol toCol in
  isPathClear_scan scan_budget toRow toCol rowStep colStep
                   (fromRow + rowStep) (fromCol + colStep).

Definition isValidMove (fromRow fromCol toRow toCol : Z) (piece : Piece)
  : completion bool :=
  if (toRow <? 0) || (toRow >? 7) || (toCol <? 0) || (toCol >? 7)
  then Normal false
  else if (fromRow =? toRow) && (fromCol =? toCol) then Normal false
  else
    target <- cell (board st) toRow toCol ;;
    if match target with
       | Some t => color_eqb (color t) (color piece)
       | None => false
       end
    then Normal false
    else
      let rowDiff := Z.abs (toRow - fromRow) in
      let colDiff := Z.abs (toCol - fromCol) in
      match type piece with
      | pawn =>
          let direction := if color_eqb (color piece) white then -1 else 1 in
          let startRow := if color_eqb (color piece) white then 6 else 1 in
          let capture :=
            Normal ((Z.abs (toCol - fromCol) =? 1)
                    && (toRow =? fromRow + direction) && truthy target) in
          if (toCol =? fromCol) && negb (truthy target) then
            if toRow =? fromRow + direction then Normal true
            else if (fromRow =? startRow) && (toRow =? fromRow + 2 * direction)
            then
              mid <- cell (board st) (fromRow + direction) fromCol ;;
              if negb (truthy mid) then Normal true else capture
            else capture
          else capture
      | knight =>
          Normal (((rowDiff =? 2) && (colDiff =? 1))
                  || ((rowDiff =? 1) && (colDiff =? 2)))
      | bishop =>
          if negb (rowDiff =? colDiff) then Normal false
          else isPathClear fromRow fromCol toRow toCol
      | rook =>
          if negb (fromRow =? toRow) && negb (fromCol =? toCol) then Normal false
          else isPathClear fromRow fromCol toRow toCol
      | queen =>
          if negb (fromRow =? toRow) && negb (fromCol =? toCol)
             && negb (rowDiff =? colDiff)
          then Normal false
          else isPathClear fromRow fromCol toRow toCol
      | king => Normal ((rowDiff <=? 1) && (colDiff <=? 1))
      end.

(** *** Move generator

    The pieces come from the [board] argument; [isValidMove] reads the
    board of the render. *)
Definition generateAllPossibleMoves (board : Board) (color0 : Color)
  : completion (list Candidate) :=
  collect
    (fun '(r, row) =>
       collect
         (fun '(c, x) =>
            match x with
            | Some piece =>
                if color_eqb (color piece) color0 then
                  collect
                    (fun tr =>
                       collect
                         (fun tc =>
                            ok <- isValidMove r c tr tc piece ;;
                            Normal
                              (if ok : bool then
                                 [mkCandidate (mkSquare r c) (mkSquare tr tc)
                                              (toAlgebraic r c tr tc piece)]
                               else []))
                         upto8)
                    upto8
                else Normal []
            | None => Normal []
            end)
         (indexed row))
    (indexed board).

(** *** Hint engine *)

Definition detectThreats (board : Board) (color0 : Color)
  : completion (list Threat) :=
  collect
    (fun '(r, row) =>
       collect
         (fun '(c, x) =>
            match x with
            | Some piece =>
                if color_eqb (color piece) color0 then
                  collect
                    (fun ar =>
                       collect
                         (fun ac =>
                            y <- cell board ar ac ;;
                            match y with
                            | Some attacker =>
                                if negb (color_eqb (color attacker) color0) then
                                  ok <- isValidMove ar ac r c attacker ;;
                                  Normal
                                    (if ok : bool
                                     then [mkThreat piece (mkSquare r c)]
                                     else [])
                                else Normal []
                            | None => Normal []
                            end)
                         upto8)
                    upto8
                else Normal []
            | None => Normal []
            end)
         (indexed row))
    (indexed board).

Definition evaluateCenterControl (board : Board) : completion Z :=
  foldC (fun score '(r, c) =>
           x <- cell board r c ;;
           Normal (match x with
                   | Some piece =>
                       score + (if color_eqb (color piece) (currentPlayer st)
                                then 1 else -1)
                   | None => score
                   end))
        centerSquares 0.

(** *** Randomness *)

Definition Math_random : M float :=
  fun w => (Normal (rand (draws w)), mkWorld (queue w) (S (draws w))).

(** [pool[Math.floor(x)]] *)
Definition pick {A : Type} (pool : list A) (x : float) : option A :=
  match floorZ x with
  | Some i => index pool i
  | None => None
  end.

(** *** Engine evaluation *)

Definition simulateStockfishAnalysis (board : Board) (lastMove : MoveData)
  : M float :=
  let materialBalance := calculateMaterialBalance board in
  positionScore <~ lift (evaluatePosition board) ;;
  let evaluation := ((num materialBalance + positionScore) / 10)%float in
  emit (SetEngineEvaluation evaluation) ;;;
  allMoves <~ lift (generateAllPossibleMoves board (currentPlayer st)) ;;
  let n := Z.of_nat (length allMoves) in
  (if n >? 0 then
     x <~ Math_random ;;
     emit (SetBestMove (pick allMoves (x * num (Z.min 3 n))%float))
   else mret tt) ;;;
  mret evaluation.

(** *** Move classifier *)

Definition tacticalFeedbackOptions : list string :=
  [ "This move allows your opponent to gain material.";
    "Your piece is now vulnerable to capture.";
    "This weakens your pawn structure.";
    "This move reduces your piece activity.";
    "Consider piece safety before moving." ]%string.

Definition blunderFeedbackOptions : list string :=
  [ "This move hangs a piece - always check if your pieces are protected!";
    "You missed a tactical threat. Look for checks, captures, and attacks.";
    "This severely weakens your king safety.";
    "You are giving away material for nothing in return.";
    "Always calculate forcing moves before committing." ]%string.

Definition generateTacticalFeedback (moveData : MoveData) : M (option string) :=
  x <~ Math_random ;;
  mret (pick tacticalFeedbackOptions
             (x * num (Z.of_nat (length tacticalFeedbackOptions)))%float).

Definition generateBlunderFeedback (moveData : MoveData) : M (option string) :=
  x <~ Math_random ;;
  mret (pick blunderFeedbackOptions
             (x * num (Z.of_nat (length blunderFeedbackOptions)))%float).

(** The evaluation delta [classifyMove] computes. *)
Definition diff_of (previousEval newEval : float) : float :=
  if color_eqb (currentPlayer st) white
  then (previousEval - newEval)%float
  else (newEval - previousEval)%float.

Definition classifyMove (previousEval newEval : float) (moveData : MoveData)
  : M Classification :=
  let diff := diff_of previousEval newEval in
  if (diff <? -2)%float then
    mret (mkClassification brilliant "!!" "Brilliant move!"
            [ Some "Outstanding! This move significantly improves your position.";
              Some "This is exactly what the engine recommends." ]%string)
  else if (diff <? -0.5)%float then
    mret (mkClassification best "!" "Excellent move"
            [ Some "Great choice! This maintains your advantage." ]%string)
  else if (0.5 <? diff)%float && (diff <? 1.5)%float then
    mret (mkClassification inaccuracy "?" "Inaccuracy"
            [ Some "This move is okay but not optimal.";
              Some ("Consider "
                    ++ match bestMove st with
                       | Some m => notation m
                       | None => "developing pieces"
                       end
                    ++ " instead.") ]%string)
  else if (1.5 <? diff)%float && (diff <? 3)%float then
    fb <~ generateTacticalFeedback moveData ;;
    mret (mkClassification mistake "??" "Mistake"
            [ Some "This significantly weakens your position."%string; fb ])
  else if (3 <? diff)%float then
    fb <~ generateBlunderFeedback moveData ;;
    mret (mkClassification blunder "???" "Blunder!"
            [ Some "Critical error! This move loses material or position."%string;
              fb ])
  else
    mret (mkClassification good "" "Solid move" []).

(** *** Live hints *)

Definition updateLiveHints (board : Board) (lastMove : MoveData)
           (classification0 : Classification) : M unit :=
  h1 <~ (if Z.of_nat (length (moves st)) <? 10 then
           undevelopedPieces <~
             lift (countUndevelopedPieces board (currentPlayer st)) ;;
           mret (if undevelopedPieces >? 2 then
                   [ mkHint "opening"
                       "Focus on developing your knights and bishops before moving your queen." ]
                 else [])
         else mret []) ;;
  threats <~ lift (detectThreats board (currentPlayer st)) ;;
  let n := Z.of_nat (length threats) in
  let h2 :=
    if n >? 0 then
      [ mkHint "tactical"
          ("Alert: " ++ showZ n
           ++ " pieces under attack! Defend or counter-attack.")%string ]
    else [] in
  centerControl <~ lift (evaluateCenterControl board) ;;
  let h3 :=
    if centerControl <? -1 then
      [ mkHint "positional"
          "Your opponent controls the center. Consider challenging with pawns or pieces." ]
    else [] in
  emit (SetLiveHints (firstn 3 (h1 ++ h2 ++ h3))).

(** *** Post-game aggregator *)

Definition count_tier (t : Tier) (l : list MoveData) : Z :=
  Z.of_nat
    (length
       (filter (fun m =>
                  match classification m with
                  | Some c => tier_eqb (ctype c) t
                  | None => false
                  end)
               l)).

Definition totalMoves : Z := Z.of_nat (length (moves st)).
Definition brilliantCount : Z := count_tier brilliant (moves st).
Definition blunderCount : Z := count_tier blunder (moves st).
Definition mistakeCount : Z := count_tier mistake (moves st).

(** The quotient whose [toFixed(1)] is [accuracy]. *)
Definition accuracy_ratio : float :=
  (num (totalMoves - blunderCount - mistakeCount) / num totalMoves * 100)%float.

Definition accuracy : Numeral := toFixed1 accuracy_ratio.

Definition generatePostGameAnalysis : M unit :=
  let tactical :=
    if blunderCount >? 2 then
      ([ mkWeakness "Tactical Awareness"
           (showZ blunderCount
            ++ " blunders detected. Missing tactical opportunities.")
           "high" ],
       [ mkRecommendation "Tactical Training"
           "Practice 20 tactical puzzles focusing on forks, pins, and skewers."
           "high" ])%string
    else ([], []) in
  opening <~ (if Z.of_nat (length (moves st)) >? 10 then
                undeveloped <~ lift (countUndevelopedPieces (board st) white) ;;
                mret (if undeveloped >? 1 then
                        ([ mkWeakness "Opening Development"
                             "Slow piece development in the opening phase."
                             "medium" ],
                         [ mkRecommendation "Opening Principles"
                             "Study the 3 opening principles: Control center, develop pieces, castle early."
                             "medium" ])%string
                      else ([], []))
              else mret ([], [])) ;;
  let newWeaknesses := fst tactical ++ fst opening in
  let newRecommendations := snd tactical ++ snd opening in
  let newStrengths :=
    (if brilliantCount >? 1 then
       [ mkStrength "Strategic Vision"
           "Excellent move selection with multiple brilliant moves." ]
     else [])
    ++ (if numeral_gt accuracy 80 then
          [ mkStrength "Consistency" "High accuracy throughout the game." ]
        else []) in
  emit (SetWeaknesses newWeaknesses) ;;;
  emit (SetStrengths newStrengths) ;;;
  emit (SetRecommendations newRecommendations) ;;;
  let tacticalAccuracy0 := num (Z.max 0 (100 - blunderCount * 20)) in
  x <~ Math_random ;;
  let positionalAwareness0 := (x * 30 + 60)%float in
  endgameSkill0 <~ (if Z.of_nat (length (moves st)) >? 40 then
                      y <~ Math_random ;; mret (y * 30 + 50)%float
                    else mret 0%float) ;;
  undeveloped <~ lift (countUndevelopedPieces (board st) white) ;;
  let openingKnowledge0 := num (100 - undeveloped * 15) in
  let timeManagement0 := (num (tc_white (timeControl st)) / 600 * 100)%float in
  emit (SetPerformanceStats
          (mkPerformanceStats tacticalAccuracy0 positionalAwareness0
             endgameSkill0 openingKnowledge0 timeManagement0)) ;;;
  emit (SetShowPostGameAnalysis true).

(** *** Applying a move *)

Definition opposite (c : Color) : Color :=
  match c with white => black | black => white end.

Definition makeMove (fromRow fromCol toRow toCol : Z) : M unit :=
  let previousEval := engineEvaluation st in
  (* a copy of the board, piece by piece *)
  let newBoard := board st in
  x <~ lift (cell newBoard fromRow fromCol) ;;
  captured0 <~ lift (cell newBoard toRow toCol) ;;
  match x with
  | None => lift TypeError
  | Some p =>
      let piece := mkPiece (type p) (color p) true in
      (* when the two squares are one, [captured] is the object [piece],
         whose flag has just been set *)
      let captured0 :=
        if (fromRow =? toRow) && (fromCol =? toCol) then Some piece
        else captured0 in
      newBoard <~ lift (store newBoard toRow toCol (Some piece)) ;;
      newBoard <~ lift (store newBoard fromRow fromCol None) ;;
      let moveData :=
        mkMoveData (type piece) (mkSquare fromRow fromCol)
                   (mkSquare toRow toCol) captured0
                   (toAlgebraic fromRow fromCol toRow toCol piece)
                   (currentPlayer st) None None in
      emit (SetBoard newBoard) ;;;
      newEval <~ simulateStockfishAnalysis newBoard moveData ;;
      classification0 <~ classifyMove previousEval newEval moveData ;;
      let moveData :=
        mkMoveData (md_piece moveData) (md_from moveData) (md_to moveData)
                   (captured moveData) (md_notation moveData)
                   (player moveData) (Some classification0) (Some newEval) in
      emit (SetMoves (moves st ++ [moveData])) ;;;
      emit (SetMoveClassification classification0) ;;;
      emit (AppendNotation
              (" " ++ md_notation moveData ++ symbol classification0)%string) ;;;
      updateLiveHints newBoard moveData classification0 ;;;
      let hasKing :=
        existsb (fun y =>
                   match y with
                   | Some q => kind_eqb (type q) king
                               && negb (color_eqb (color q) (currentPlayer st))
                   | None => false
                   end)
                (concat newBoard) in
      if negb hasKing then
        emit (SetGameOver true) ;;;
        emit (SetIsTimerActive false) ;;;
        generatePostGameAnalysis
      else
        emit (SetCurrentPlayer (opposite (currentPlayer st))) ;;;
        match gameMode st, currentPlayer st with
        | ai, white => emit (ScheduleAIMove newBoard)
        | _, _ => mret tt
        end
  end.

End Render.

(** ** The engine's reply

    [aiDifficulty] is a state variable of the component that only
    [makeAIMove] reads; it is a parameter here. *)

Inductive Difficulty : Set := beginner | intermediate | advanced.

(** The entry of [allMoves] the reply plays; [None] is [undefined]. *)
Definition selectedMove (rand : nat -> float) (aiDifficulty : Difficulty)
           (allMoves : list Candidate) : M (option Candidate) :=
  let n := Z.of_nat (length allMoves) in
  match aiDifficulty with
  | beginner =>
      x <~ Math_random rand ;; mret (pick allMoves (x * num n)%float)
  | intermediate =>
      x <~ Math_random rand ;;
      mret (pick allMoves (x * num (Z.min 5 n))%float)
  | advanced => mret (index allMoves 0)
  end.

(** [makeAIMove] runs in the render whose [makeMove] scheduled it: [st] is
    that render, [currentBoard] the board the timer was armed with.
    Destructuring an [undefined] selection raises. *)
Definition makeAIMove (st : Session) (rand : nat -> float)
           (aiDifficulty : Difficulty) (currentBoard : Board) : M unit :=
  allMoves <~ lift (generateAllPossibleMoves st currentBoard black) ;;
  if Z.of_nat (length allMoves) =? 0 then
    emit (SetGameOver true) ;;;
    generatePostGameAnalysis st rand
  else
    selected <~ selectedMove rand aiDifficulty allMoves ;;
    match selected with
    | None => lift TypeError
    | Some m =>
        makeMove st rand (sq_row (from m)) (sq_col (from m))
                 (sq_row (to m)) (sq_col (to m))
    end.

(** ** Clicks

    The state variables only the click handler reads.  [setSelected] is
    called at most once on every path of the handler, and nothing in the
    handler reads its effect: the handler returns the selection of the next
    render. *)

Record Controls : Set := mkControls {
  selected : option (Z * Z);
  gameOver : bool;
  isTimerActive : bool
}.

Definition handleSquareClick (st : Session) (ui : Controls)
           (rand : nat -> float) (row col : Z) : M (option (Z * Z)) :=
  if gameOver ui then mret (selected ui)
  else if match gameMode st, currentPlayer st with
          | ai, black => true
          | _, _ => false
          end
  then mret (selected ui)
  else
    (if negb (isTimerActive ui) && (Z.of_nat (length (moves st)) =? 0)
     then emit (SetIsTimerActive true)
     else mret tt) ;;;
    match selected ui with
    | Some (selectedRow, selectedCol) =>
        piece <~ lift (cell (board st) selectedRow selectedCol) ;;
        ok <~ lift (match piece with
                    | Some piece =>
                        isValidMove st selectedRow selectedCol row col piece
                    | None =>
                        (* [piece] is [null]: past the two early returns,
                           [isValidMove] reads a property of it *)
                        if (row <? 0) || (row >? 7) || (col <? 0) || (col >? 7)
                        then Normal false
                        else if (selectedRow =? row) && (selectedCol =? col)
                        then Normal false
                        else TypeError
                    end) ;;
        (if ok : bool
         then makeMove st rand selectedRow selectedCol row col
         else mret tt) ;;;
        mret None
    | None =>
        piece <~ lift (cell (board st) row col) ;;
        mret (match piece with
              | Some p =>
                  if color_eqb (color p) (currentPlayer st)
                  then Some (row, col)
                  else selected ui
              | None => selected ui
              end)
    end.

(** ** The clock

    The updater the timer passes to [setTimeControl] once a second, in the
    render [st] that armed the timer; it returns the clocks of the next
    render. *)

Definition clock (tc : TimeControl) (c : Color) : Z :=
  match c with white => tc_white tc | black => tc_black tc end.

Definition tick (st : Session) (rand : nat -> float) (prev : TimeControl)
  : M TimeControl :=
  let t := Z.max 0 (clock prev (currentPlayer st) - 1) in
  let newTime :=
    match currentPlayer st with
    | white => mkTimeControl t (tc_black prev)
    | black => mkTimeControl (tc_white prev) t
    end in
  (if clock newTime (currentPlayer st) =? 0 then
     emit (SetGameOver true) ;;;
     emit (SetIsTimerActive false) ;;;
     generatePostGameAnalysis st rand
   else mret tt) ;;;
  mret newTime.

(** [n] seconds of one render. *)
Fixpoint ticks (st : Session) (rand : nat -> float) (n : nat)
         (prev : TimeControl) : M TimeControl :=
  match n with
  | O => mret prev
  | S n' => t <~ tick st rand prev ;; ticks st rand n' t
  end.

(** ** Running a handler

    A handler starts from the empty queue; the render that follows it is the
    state with the queue committed. *)

Definition idle : World := mkWorld [] 0.

(** The render that follows a move handled in the render [st]. *)
Definition play (st : Session) (rand : nat -> float)
           (fromRow fromCol toRow toCol : Z) : Session :=
  commit st (queue (snd (makeMove st rand fromRow fromCol toRow toCol idle))).

(** An oracle whose draws are all 0. *)
Definition zeros : nat -> float := fun _ => 0%float.

(** ** Playing a game

    [click_move] is what two clicks of [handleSquareClick] do in a running
    game: the first selects a piece of the player to move, the second calls
    [makeMove] when [isValidMove] accepts the destination. *)

Definition click_move (st : Session) (rand : nat -> float)
           (fromRow fromCol toRow toCol : Z) : option Session :=
  match cell (board st) fromRow fromCol with
  | Normal (Some piece) =>
      if color_eqb (color piece) (currentPlayer st) then
        match isValidMove st fromRow fromCol toRow toCol piece with
        | Normal true => Some (play st rand fromRow fromCol toRow toCol)
        | _ => None
        end
      else None
  | _ => None
  end.

Fixpoint replay (st : Session) (rand : nat -> float)
         (game : list (Z * Z * Z * Z)) : option Session :=
  match game with
  | [] => Some st
  | (fromRow, fromCol, toRow, toCol) :: rest =>
      match click_move st rand fromRow fromCol toRow toCol with
      | Some st' => replay st' rand rest
      | None => None
      end
  end.

(** A game between two players at the board, [allotted] seconds each. *)
Definition twoPlayers (allotted : Z) : Session :=
  mkSession initializeBoard white [] local (mkTimeControl allotted allotted)
            0%float None.

(** The clocks are driven by the timer, not by the moves. *)
Definition at_clock (st : Session) (tc : TimeControl) : Session :=
  mkSession (board st) (currentPlayer st) (moves st) (gameMode st) tc
            (engineEvaluation st) (bestMove st).

Definition queued_stats (q : list Update) : option PerformanceStats :=
  fold_left (fun acc u =>
               match u with SetPerformanceStats p => Some p | _ => acc end)
            q None.

Definition queued_hints (q : list Update) : option (list Hint) :=
  fold_left (fun acc u =>
               match u with SetLiveHints h => Some h | _ => acc end)
            q None.

Definition queued_weaknesses (q : list Update) : option (list Weakness) :=
  fold_left (fun acc u => match u with SetWeaknesses l => Some l | _ => acc end)
            q None.

Definition queued_strengths (q : list Update) : option (list Strength) :=
  fold_left (fun acc u => match u with SetStrengths l => Some l | _ => acc end)
            q None.

(** ** Sessions and games the properties are checked on *)

(** A session on the standard initial board, white to move. *)
Definition initialSession : Session :=
  mkSession initializeBoard white [] ai (mkTimeControl 600 600) 0%float None.

(** The same board under a different player to move, move list, clock,
    evaluation and suggested move. *)
Definition otherSession : Session :=
  mkSession initializeBoard black [] local (mkTimeControl 12 1800) 1.5%float
            (Some (mkCandidate (mkSquare 1 0) (mkSquare 2 0) "a7-a6")).

Definition e2e4 : MoveData :=
  mkMoveData pawn (mkSquare 6 4) (mkSquare 4 4) None "e2-e4" white None None.

(** 1. e4 a6 2. Qh5 a5 3. Qxf7 a4, after which 4. Qxe8 takes the king. *)
Definition kingHunt : list (Z * Z * Z * Z) :=
  [ (6, 4, 4, 4); (1, 0, 2, 0); (7, 3, 3, 7);
    (2, 0, 3, 0); (3, 7, 1, 5); (3, 0, 4, 0) ].

(** 1. e4 d5 2. a3 f5, after which white plays 3. h3. *)
Definition twoPawnsOnE4 : list (Z * Z * Z * Z) :=
  [ (6, 4, 4, 4); (1, 3, 3, 3); (6, 0, 5, 0); (1, 5, 3, 5) ].

(** The white moves generated on the initial board. *)
Definition openingMoves : list Candidate :=
  match generateAllPossibleMoves initialSession initializeBoard white with
  | Normal candidates => candidates
  | _ => []
  end.

(** A history of 20 rated moves: 3 blunders, 1 mistake, 16 good moves. *)
Definition rated (t : Tier) : MoveData :=
  mkMoveData pawn (mkSquare 6 4) (mkSquare 4 4) None "e2-e4" white
             (Some (mkClassification t "" "" [])) None.

Definition twentyMoves : list MoveData :=
  repeat (rated blunder) 3 ++ [rated mistake] ++ repeat (rated good) 16.

Definition ratedSession : Session :=
  mkSession initializeBoard white twentyMoves local (mkTimeControl 600 600)
            0%float None.

(** ** Vocabulary of the properties *)

Definition aligned (fromRow fromCol toRow toCol : Z) : Prop :=
  fromRow = toRow \/ fromCol = toCol
  \/ Z.abs (toRow - fromRow) = Z.abs (toCol - fromCol).

(** Number of king steps between two squares. *)
Definition distance (fromRow fromCol toRow toCol : Z) : Z :=
  Z.max (Z.abs (toRow - fromRow)) (Z.abs (toCol - fromCol)).

(** Row-major index of a square, and the order of two candidates by source
    square first and destination square second. *)
Definition square_index (s : Square) : Z := 8 * sq_row s + sq_col s.

Definition rank (m : Candidate) : Z :=
  64 * square_index (from m) + square_index (to m).

Definition row_major_before (m1 m2 : Candidate) : Prop :=
  square_index (from m1) < square_index (from m2)
  \/ (square_index (from m1) = square_index (from m2)
      /\ square_index (to m1) < square_index (to m2)).

Definition sliding (k : Kind) : Prop := k = bishop \/ k = rook \/ k = queen.

(** The specification's reading of a threat (section 4.6): some opposing piece of [board] has a
    legal move onto the square. *)
Definition threatened (st : Session) (board : Board) (color0 : Color) (r c : Z)
  : completion bool :=
  attackers <-
    collect
      (fun ar =>
         collect
           (fun ac =>
              y <- cell board ar ac ;;
              match y with
              | Some attacker =>
                  if negb (color_eqb (color attacker) color0) then
                    ok <- isValidMove st ar ac r c attacker ;;
                    Normal (if ok : bool then [attacker] else [])
                  else Normal []
              | None => Normal []
              end)
           upto8)
      upto8 ;;
  Normal (negb (Nat.eqb (length attackers) 0)).

(** The specification's count: the pieces of [color0] that are threatened, each
    counted once. *)
Definition threatenedPieces (st : Session) (board : Board) (color0 : Color)
  : completion Z :=
  hit <-
    collect
      (fun '(r, row) =>
         collect
           (fun '(c, x) =>
              match x with
              | Some piece =>
                  if color_eqb (color piece) color0 then
                    t <- threatened st board color0 r c ;;
                    Normal (if t : bool then [piece] else [])
                  else Normal []
              | None => Normal []
              end)
           (indexed row))
      (indexed board) ;;
  Normal (Z.of_nat (length hit)).

Definition leaves_board (u : Update) : bool :=
  match u with SetBoard _ => false | _ => true end.

(** [quiet m]: from any world, [m] returns, only adds to the queue, and adds
    no [SetBoard]. *)
Definition quiet {A : Type} (m : M A) : Prop :=
  forall w, exists a q d,
    m w = (Normal a, mkWorld (queue w ++ q) d)
    /\ forallb leaves_board q = true.

(** Kinds of update. *)

Definition engine_update (u : Update) : bool :=
  match u with
  | SetEngineEvaluation _ | SetBestMove _ => true
  | _ => false
  end.

Definition analysis_update (u : Update) : bool :=
  match u with
  | SetWeaknesses _ | SetStrengths _ | SetRecommendations _
  | SetPerformanceStats _ | SetShowPostGameAnalysis _ => true
  | _ => false
  end.

(** [emits P m]: from any world, [m] returns and adds to the queue only
    updates that satisfy [P]. *)
Definition emits {A : Type} (P : Update -> bool) (m : M A) : Prop :=
  forall w, exists a q d,
    m w = (Normal a, mkWorld (queue w ++ q) d)
    /\ forallb P q = true.

(** The test [makeMove] ends with: some king on [b] is not the mover's. *)
Definition hasKing (st : Session) (b : Board) : bool :=
  existsb (fun y =>
             match y with
             | Some q => kind_eqb (type q) king
                         && negb (color_eqb (color q) (currentPlayer st))
             | None => false
             end)
          (concat b).

(** The controls of the next render: the selection the handler returned and
    the queued updates of the two flags. *)
Definition next_controls (ui : Controls) (sel : option (Z * Z))
           (q : list Update) : Controls :=
  fold_left
    (fun u x =>
       match x with
       | SetGameOver g => mkControls (selected u) g (isTimerActive u)
       | SetIsTimerActive a => mkControls (selected u) (gameOver u) a
       | _ => u
       end)
    q (mkControls sel (gameOver ui) (isTimerActive ui)).

(** A selection names a square that holds a piece of the player to move. *)
Definition click_inv (st : Session) (ui : Controls) : Prop :=
  wf_board (board st)
  /\ forall r c,
      selected ui = Some (r, c) ->
      exists piece,
        cell (board st) r c = Normal (Some piece)
        /\ color piece = currentPlayer st.

(** The lines a sliding piece moves along. *)
Definition line_of (k : Kind) (fromRow fromCol toRow toCol : Z) : Prop :=
  match k with
  | bishop => Z.abs (toRow - fromRow) = Z.abs (toCol - fromCol)
  | rook => fromRow = toRow \/ fromCol = toCol
  | queen => aligned fromRow fromCol toRow toCol
  | _ => False
  end.

(** The destination holds no piece of the color of [piece]. *)
Definition free_for (piece : Piece) (target : option Piece) : Prop :=
  forall t, target = Some t -> color t <> color piece.

(** The steps of a knight and of a king. *)
Definition leap_of (k : Kind) (fromRow fromCol toRow toCol : Z) : Prop :=
  let rowDiff := Z.abs (toRow - fromRow) in
  let colDiff := Z.abs (toCol - fromCol) in
  match k with
  | knight => (rowDiff = 2 /\ colDiff = 1) \/ (rowDiff = 1 /\ colDiff = 2)
  | king => rowDiff <= 1 /\ colDiff <= 1 /\ (rowDiff <> 0 \/ colDiff <> 0)
  | _ => False
  end.

(** What a square adds to the material balance. *)
Definition value_of (x : option Piece) : Z :=
  match x with
  | Some piece =>
      if color_eqb (color piece) white then pieceValues (type piece)
      else - pieceValues (type piece)
  | None => 0
  end.

Definition row_value (row : Row) : Z :=
  fold_right (fun x acc => value_of x + acc) 0 row.

Definition board_value (b : Board) : Z :=
  fold_right (fun row acc => row_value row + acc) 0 b.

(** * Properties *)

(** ** Reading a well-formed board *)

Lemma index_in_range {A : Type} (l : list A) (i : Z) :
  0 <= i < Z.of_nat (length l) -> exists x, index l i = Some x.
Proof.
  intros Hi. unfold index.
  destruct (Z.ltb_spec i 0) as [Hneg | _]; [lia |].
  destruct (nth_error l (Z.to_nat i)) as [x |] eqn:E.
  - now exists x.
  - apply nth_error_None in E. lia.
Qed.

Lemma wf_board_row (b : Board) (r : Z) :
  wf_board b -> 0 <= r <= 7 ->
  exists row, index b r = Some row /\ length row = 8%nat.
Proof.
  intros [Hlen Hrows] Hr.
  destruct (index_in_range b r) as [row Hrow]; [lia |].
  exists row. split; [assumption |].
  unfold index in Hrow.
  destruct (r <? 0); [discriminate |].
  apply nth_error_In in Hrow.
  rewrite Forall_forall in Hrows. now apply Hrows.
Qed.

Lemma cell_on_board (b : Board) (r c : Z) :
  wf_board b -> on_board r c -> exists x, cell b r c = Normal x.
Proof.
  intros Hwf [Hr Hc]. unfold cell.
  destruct (wf_board_row b r Hwf Hr) as [row [-> _]].
  eexists. reflexivity.
Qed.

(** ** The sliding-path scan *)

Section Scan.

Variable st : Session.
Hypothesis Hwf : wf_board (board st).

Variables toRow toCol rowStep colStep : Z.
Hypothesis Hto : on_board toRow toCol.
Hypothesis Hrs : -1 <= rowStep <= 1.
Hypothesis Hcs : -1 <= colStep <= 1.
Hypothesis Hmoving : rowStep <> 0 \/ colStep <> 0.

(** From a square [k] steps before the destination the loop returns after
    testing its condition [k + 1] times. *)
Lemma scan_returns (k : nat) :
  forall r c,
    on_board r c ->
    r + Z.of_nat k * rowStep = toRow ->
    c + Z.of_nat k * colStep = toCol ->
    exists b,
      isPathClear_scan st (S k) toRow toCol rowStep colStep r c = Normal b.
Proof.
  induction k as [| k IH]; intros r c Hrc Hr Hc.
  - exists true. cbn [isPathClear_scan].
    replace (r =? toRow) with true by (symmetry; apply Z.eqb_eq; lia).
    replace (c =? toCol) with true by (symmetry; apply Z.eqb_eq; lia).
    reflexivity.
  - change (isPathClear_scan st (S (S k)) toRow toCol rowStep colStep r c)
      with (if negb (r =? toRow) || negb (c =? toCol) then
              x <- cell (board st) r c ;;
              if truthy x then Normal false
              else isPathClear_scan st (S k) toRow toCol rowStep colStep
                                    (r + rowStep) (c + colStep)
            else Normal true).
    destruct (negb (r =? toRow) || negb (c =? toCol)).
    + destruct (cell_on_board (board st) r c Hwf Hrc) as [x ->].
      cbn [cbind]. destruct (truthy x).
      * now exists false.
      * apply IH.
        -- destruct Hrc as [Hr0 Hc0], Hto as [Htr Htc]. split; nia.
        -- lia.
        -- lia.
    + now exists true.
Qed.

(** A larger budget does not change a result. *)
Lemma scan_budget_mono (n : nat) :
  forall m r c b,
    (n <= m)%nat ->
    isPathClear_scan st n toRow toCol rowStep colStep r c = Normal b ->
    isPathClear_scan st m toRow toCol rowStep colStep r c = Normal b.
Proof.
  induction n as [| n IH]; intros m r c b Hle H.
  - discriminate.
  - destruct m as [| m]; [lia |].
    cbn [isPathClear_scan] in *.
    destruct (negb (r =? toRow) || negb (c =? toCol)); [| assumption].
    destruct (cell (board st) r c) as [x | |]; cbn [cbind] in *;
      try discriminate.
    destruct (truthy x); [assumption |].
    apply IH; [lia | assumption].
Qed.

End Scan.

Lemma step_toward_range (a b : Z) : -1 <= step_toward a b <= 1.
Proof.
  unfold step_toward.
  destruct (b >? a); [lia |]. destruct (b <? a); lia.
Qed.

Lemma step_toward_spec (a b : Z) :
  (a < b /\ step_toward a b = 1) \/ (b < a /\ step_toward a b = -1)
  \/ (a = b /\ step_toward a b = 0).
Proof.
  unfold step_toward.
  destruct (Z.gtb_spec b a); [lia |].
  destruct (Z.ltb_spec b a); lia.
Qed.

(** On aligned, distinct squares of the board the scan lands on the
    destination after [distance] steps. *)
Lemma aligned_steps (fromRow fromCol toRow toCol : Z) :
  fromRow <> toRow \/ fromCol <> toCol ->
  aligned fromRow fromCol toRow toCol ->
  let d := distance fromRow fromCol toRow toCol in
  1 <= d
  /\ fromRow + d * step_toward fromRow toRow = toRow
  /\ fromCol + d * step_toward fromCol toCol = toCol.
Proof.
  intros Hne Hal. unfold distance, aligned in *.
  destruct (step_toward_spec fromRow toRow) as [[? ->] | [[? ->] | [? ->]]];
    destruct (step_toward_spec fromCol toCol) as [[? ->] | [[? ->] | [? ->]]];
    lia.
Qed.

Lemma initializeBoard_wf : wf_board initializeBoard.
Proof. split; [reflexivity | repeat constructor]. Qed.

(** C10. For two distinct squares of the 8x8 board that share a row, a
    column or a diagonal, the sliding-path scan terminates: after [d] steps
    of one square each, [d] being the distance between the two squares and at
    most 7, the scanned square is the destination, and a budget of [d] tests
    of the loop condition is enough for the loop, and so for [isPathClear],
    to return a boolean. *)
Theorem isPathClear_terminates
        (st : Session) (fromRow fromCol toRow toCol : Z) :
  wf_board (board st) ->
  on_board fromRow fromCol ->
  on_board toRow toCol ->
  fromRow <> toRow \/ fromCol <> toCol ->
  aligned fromRow fromCol toRow toCol ->
  let rowStep := step_toward fromRow toRow in
  let colStep := step_toward fromCol toCol in
  let d := distance fromRow fromCol toRow toCol in
  1 <= d <= 7
  /\ fromRow + d * rowStep = toRow
  /\ fromCol + d * colStep = toCol
  /\ exists b,
      isPathClear_scan st (Z.to_nat d) toRow toCol rowStep colStep
                       (fromRow + rowStep) (fromCol + colStep) = Normal b
      /\ isPathClear st fromRow fromCol toRow toCol = Normal b.
Proof.
  intros Hwf Hfrom Hto Hne Hal rowStep colStep d.
  destruct (aligned_steps fromRow fromCol toRow toCol Hne Hal)
    as [Hd [Hrow Hcol]].
  fold d rowStep in Hd, Hrow. fold d colStep in Hcol.
  assert (Hd7 : d <= 7).
  { unfold d, distance. destruct Hfrom as [? ?], Hto as [? ?]. lia. }
  assert (Hrs : -1 <= rowStep <= 1) by apply step_toward_range.
  assert (Hcs : -1 <= colStep <= 1) by apply step_toward_range.
  assert (Hmoving : rowStep <> 0 \/ colStep <> 0).
  { unfold rowStep, colStep.
    destruct (step_toward_spec fromRow toRow) as [[? ->] | [[? ->] | [? ->]]];
      destruct (step_toward_spec fromCol toCol) as [[? ->] | [[? ->] | [? ->]]];
      lia. }
  repeat split; try assumption.
  destruct (scan_returns st Hwf toRow toCol rowStep colStep Hto Hrs Hcs Hmoving
              (Z.to_nat (d - 1)) (fromRow + rowStep) (fromCol + colStep))
    as [b Hb].
  - destruct Hfrom as [? ?], Hto as [? ?]. split; nia.
  - rewrite Z2Nat.id by lia. lia.
  - rewrite Z2Nat.id by lia. lia.
  - exists b.
    replace (S (Z.to_nat (d - 1))) with (Z.to_nat d) in Hb by lia.
    split; [exact Hb |].
    unfold isPathClear. fold rowStep colStep.
    apply scan_budget_mono with (n := Z.to_nat d); [unfold scan_budget; lia |].
    exact Hb.
Qed.

Lemma isPathClear_terminates_witness :
  exists b, isPathClear initialSession 7 0 0 0 = Normal b.
Proof.
  destruct (isPathClear_terminates initialSession 7 0 0 0)
    as [_ [_ [_ [b [_ Hb]]]]].
  - exact initializeBoard_wf.
  - unfold on_board. lia.
  - unfold on_board. lia.
  - left. lia.
  - unfold aligned. right. left. reflexivity.
  - exists b. exact Hb.
Defined.

(** ** The legality checker returns *)

Lemma isValidMove_returns
      (st : Session) (fromRow fromCol toRow toCol : Z) (piece : Piece) :
  wf_board (board st) ->
  on_board fromRow fromCol ->
  exists b, isValidMove st fromRow fromCol toRow toCol piece = Normal b.
Proof.
  intros Hwf Hfrom. unfold isValidMove.
  destruct (Z.ltb_spec toRow 0); cbn [orb]; [now eexists |].
  destruct (Z.gtb_spec toRow 7); cbn [orb]; [now eexists |].
  destruct (Z.ltb_spec toCol 0); cbn [orb]; [now eexists |].
  destruct (Z.gtb_spec toCol 7); cbn [orb]; [now eexists |].
  assert (Hto : on_board toRow toCol) by (unfold on_board; lia).
  destruct ((fromRow =? toRow) && (fromCol =? toCol)) eqn:Esame; [now eexists |].
  assert (Hne : fromRow <> toRow \/ fromCol <> toCol).
  { apply andb_false_iff in Esame as [E | E]; apply Z.eqb_neq in E; tauto. }
  destruct (cell_on_board (board st) toRow toCol Hwf Hto) as [target ->].
  cbn [cbind].
  match goal with |- context [if ?c then Normal false else _] =>
    destruct c; [now eexists |] end.
  assert (Hslide : aligned fromRow fromCol toRow toCol ->
                   exists b, isPathClear st fromRow fromCol toRow toCol = Normal b).
  { intros Hal.
    destruct (isPathClear_terminates st fromRow fromCol toRow toCol
                Hwf Hfrom Hto Hne Hal) as [_ [_ [_ [b [_ Hb]]]]].
    now exists b. }
  destruct (type piece).
  - (* pawn *)
    destruct ((toCol =? fromCol) && negb (truthy target)); [| now eexists].
    destruct (toRow =? _); [now eexists |].
    destruct ((fromRow =? _) && (toRow =? _)) eqn:Estart; [| now eexists].
    apply andb_true_iff in Estart as [E1 _]. apply Z.eqb_eq in E1.
    destruct (cell_on_board (board st)
                (fromRow + (if color_eqb (color piece) white then -1 else 1))
                fromCol Hwf) as [mid ->].
    { destruct Hfrom as [? ?]. unfold on_board.
      destruct (color_eqb (color piece) white); lia. }
    cbn [cbind]. destruct (negb (truthy mid)); now eexists.
  - now eexists.
  - (* bishop *)
    destruct (Z.eqb_spec (Z.abs (toRow - fromRow)) (Z.abs (toCol - fromCol)));
      cbn [negb]; [| now eexists].
    apply Hslide. unfold aligned. tauto.
  - (* rook *)
    destruct (Z.eqb_spec fromRow toRow); cbn [negb andb].
    + apply Hslide. unfold aligned. tauto.
    + destruct (Z.eqb_spec fromCol toCol); cbn [negb]; [| now eexists].
      apply Hslide. unfold aligned. tauto.
  - (* queen *)
    destruct (Z.eqb_spec fromRow toRow); cbn [negb andb].
    + apply Hslide. unfold aligned. tauto.
    + destruct (Z.eqb_spec fromCol toCol); cbn [negb andb].
      * apply Hslide. unfold aligned. tauto.
      * destruct (Z.eqb_spec (Z.abs (toRow - fromRow)) (Z.abs (toCol - fromCol)));
          cbn [negb]; [| now eexists].
        apply Hslide. unfold aligned. tauto.
  - now eexists.
Qed.

(** C6. The legality checker is a function of the board, the two squares and
    the piece only: in two sessions with the same board it gives the same
    completion for the same squares and piece, whatever the rest of the
    session state; on a well-formed board and a source square of the board
    that completion is a boolean; and, run as a step of a handler, it queues
    no update and makes no random draw. *)
Theorem isValidMove_pure
        (st1 st2 : Session) (fromRow fromCol toRow toCol : Z) (piece : Piece) :
  board st1 = board st2 ->
  isValidMove st1 fromRow fromCol toRow toCol piece
  = isValidMove st2 fromRow fromCol toRow toCol piece
  /\ (wf_board (board st1) -> on_board fromRow fromCol ->
      exists b,
        isValidMove st1 fromRow fromCol toRow toCol piece = Normal b
        /\ isValidMove st2 fromRow fromCol toRow toCol piece = Normal b)
  /\ (forall w : World,
        lift (isValidMove st1 fromRow fromCol toRow toCol piece) w
        = (isValidMove st2 fromRow fromCol toRow toCol piece, w)).
Proof.
  intros Hboard.
  assert (Heq : isValidMove st1 fromRow fromCol toRow toCol piece
                = isValidMove st2 fromRow fromCol toRow toCol piece).
  { destruct st1 as [b1 ? ? ? ? ? ?], st2 as [b2 ? ? ? ? ? ?].
    cbn [board] in Hboard. subst b2. reflexivity. }
  split; [exact Heq |]. split.
  - intros Hwf Hfrom.
    destruct (isValidMove_returns st1 fromRow fromCol toRow toCol piece Hwf Hfrom)
      as [b Hb].
    exists b. split; [exact Hb |]. now rewrite <- Heq.
  - intros w. unfold lift. now rewrite Heq.
Qed.

Lemma isValidMove_pure_witness :
  isValidMove initialSession 6 4 4 4 (mkPiece pawn white false)
  = isValidMove otherSession 6 4 4 4 (mkPiece pawn white false).
Proof.
  apply (isValidMove_pure initialSession otherSession 6 4 4 4
                          (mkPiece pawn white false)).
  reflexivity.
Defined.

(** Evaluation by computation that leaves the random picks alone. *)
Ltac run := lazy -[floorZ pick]; try reflexivity.

(** ** Move classifier *)

(** C1 (as amended). With white to move, a previous evaluation of 0.0 and a
    new evaluation of -2.5, the classifier computes a delta of 2.5 and returns
    the tier mistake, symbol "??", whatever the random draw of its second
    feedback line. *)
Theorem classifyMove_example_is_mistake
        (st : Session) (rand : nat -> float) (moveData : MoveData) (w : World) :
  currentPlayer st = white ->
  diff_of st 0 (-2.5) = 2.5%float
  /\ exists fb w',
      classifyMove st rand 0 (-2.5) moveData w
      = (Normal (mkClassification mistake "??" "Mistake"
                   [ Some "This significantly weakens your position."%string;
                     fb ]),
         w').
Proof.
  intros Hwhite. unfold classifyMove, diff_of. rewrite Hwhite.
  split; [reflexivity |].
  eexists. eexists. run.
Qed.

Lemma classifyMove_example_is_mistake_witness :
  diff_of initialSession 0 (-2.5) = 2.5%float.
Proof.
  apply (classifyMove_example_is_mistake initialSession zeros e2e4 idle).
  reflexivity.
Defined.

(** C1 (as stated) fails: at the example's input the returned tier is not
    blunder and the symbol is not "???". *)
Lemma classifyMove_example_not_blunder :
  exists c w',
    classifyMove initialSession zeros 0 (-2.5) e2e4 idle = (Normal c, w')
    /\ tier_eqb (ctype c) blunder = false
    /\ String.eqb (symbol c) "???" = false.
Proof.
  eexists. eexists. split; [vm_compute; reflexivity |].
  split; reflexivity.
Qed.


(** ** Post-game aggregator *)

(** C3 on an empty move history: the accuracy quotient is 0/0, a NaN;
    [toFixed(1)] of it denotes no number, and the test [accuracy > 80] is
    false. *)
Theorem accuracy_of_empty_history (st : Session) :
  moves st = [] ->
  totalMoves st = 0
  /\ PrimFloat.is_nan (accuracy_ratio st) = true
  /\ accuracy st = NumNaN
  /\ numeral_gt (accuracy st) 80 = false.
Proof.
  intros Hempty.
  unfold accuracy, accuracy_ratio, totalMoves, blunderCount, mistakeCount.
  rewrite Hempty. repeat split.
Qed.

Lemma accuracy_of_empty_history_witness : accuracy initialSession = NumNaN.
Proof.
  apply (accuracy_of_empty_history initialSession). reflexivity.
Defined.

(** C4 in a game allotted 1800 seconds a side that white ends by taking the
    king with 1500 seconds left: the time-management score queued by the
    aggregator is 1500 / 600 * 100 = 250, above 100 and different from
    1500 / 1800 * 100. *)
Theorem timeManagement_of_half_hour_game (rand : nat -> float) :
  exists st stats,
    replay (twoPlayers 1800) zeros kingHunt = Some st
    /\ let final := at_clock st (mkTimeControl 1500 1620) in
       let q := queue (snd (makeMove final rand 1 5 0 4 idle)) in
       cell (board final) 1 5 = Normal (Some (mkPiece queen white true))
       /\ isValidMove final 1 5 0 4 (mkPiece queen white true) = Normal true
       /\ queued_stats q = Some stats
       /\ timeManagement stats = 250%float
       /\ (timeManagement stats <=? 100)%float = false
       /\ (timeManagement stats =? num 1500 / num 1800 * 100)%float = false.
Proof.
  eexists. eexists. split; [vm_compute; reflexivity |].
  cbv zeta. split; [vm_compute; reflexivity |].
  split; [vm_compute; reflexivity |].
  split; [run |].
  split; [reflexivity |].
  split; reflexivity.
Qed.

(** ** Position evaluator *)

(** C5. On the standard initial board the white pawn move from row 6,
    column 4 to row 4, column 4 is accepted by the legality checker; on the
    board [makeMove] installs, the material balance is 0, the positional
    score is the double nearest to 0.3, and the evaluation queued for the
    engine, their sum divided by 10, is within 1e-15 of 0.03. *)
Theorem e2e4_is_legal_and_evaluates_near_0_03 (rand : nat -> float) :
  cell (board initialSession) 6 4 = Normal (Some (mkPiece pawn white false))
  /\ isValidMove initialSession 6 4 4 4 (mkPiece pawn white false) = Normal true
  /\ exists newBoard evaluation0 rest,
      queue (snd (makeMove initialSession rand 6 4 4 4 idle))
      = SetBoard newBoard :: SetEngineEvaluation evaluation0 :: rest
      /\ calculateMaterialBalance newBoard = 0
      /\ evaluatePosition newBoard = Normal 0.3%float
      /\ evaluation0 = ((num 0 + 0.3) / 10)%float
      /\ (abs (evaluation0 - 0.03) <? 1e-15)%float = true.
Proof.
  split; [reflexivity |]. split; [reflexivity |].
  eexists. eexists. eexists. split; [run |].
  split; [vm_compute; reflexivity |].
  split; [vm_compute; reflexivity |].
  split; vm_compute; reflexivity.
Qed.

(** ** Move generator *)

(** C7 in the first call a game can make: after 1. Nc3 from the initial
    position, [makeMove] hands the new board to the generator, whose legality
    tests still read the board of the render.  The pawn move c2-c3 is in the
    output although c3 (row 5, column 2) holds the white knight on the board
    that was passed. *)
Theorem generateAllPossibleMoves_reads_render_board (rand : nat -> float) :
  cell (board initialSession) 7 1 = Normal (Some (mkPiece knight white false))
  /\ isValidMove initialSession 7 1 5 2 (mkPiece knight white false) = Normal true
  /\ exists newBoard candidates,
      board (play initialSession rand 7 1 5 2) = newBoard
      /\ generateAllPossibleMoves initialSession newBoard white = Normal candidates
      /\ cell newBoard 5 2 = Normal (Some (mkPiece knight white true))
      /\ cell newBoard 6 2 = Normal (Some (mkPiece pawn white false))
      /\ existsb (fun m =>
                    (sq_row (from m) =? 6) && (sq_col (from m) =? 2)
                    && (sq_row (to m) =? 5) && (sq_col (to m) =? 2)
                    && String.eqb (notation m) "c2-c3")
                 candidates = true.
Proof.
  split; [reflexivity |]. split; [reflexivity |].
  eexists. eexists. split; [unfold play; run |].
  split; [vm_compute; reflexivity |].
  repeat split.
Qed.

(** ** Hint engine *)

(** C8 after 1. e4 d5 2. a3 f5 3. h3: the white pawn on e4 is attacked by
    the two black pawns and is the only white piece attacked; [detectThreats]
    lists it twice, and the tactical hint announces 2 pieces. *)
Theorem tactical_hint_counts_attackers (rand : nat -> float) :
  exists st newBoard threats,
    replay (twoPlayers 600) zeros twoPawnsOnE4 = Some st
    /\ cell (board st) 6 7 = Normal (Some (mkPiece pawn white false))
    /\ isValidMove st 6 7 5 7 (mkPiece pawn white false) = Normal true
    /\ board (play st rand 6 7 5 7) = newBoard
    /\ detectThreats st newBoard white = Normal threats
    /\ map position threats = [mkSquare 4 4; mkSquare 4 4]
    /\ threatenedPieces st newBoard white = Normal 1
    /\ option_map (map message)
                  (queued_hints (queue (snd (makeMove st rand 6 7 5 7 idle))))
       = Some [ "Focus on developing your knights and bishops before moving your queen.";
                "Alert: 2 pieces under attack! Defend or counter-attack." ]%string.
Proof.
  eexists. eexists. eexists.
  split; [vm_compute; reflexivity |].
  split; [vm_compute; reflexivity |].
  split; [vm_compute; reflexivity |].
  split; [unfold play; run |].
  split; [vm_compute; reflexivity |].
  split; [reflexivity |].
  split; [vm_compute; reflexivity |].
  run.
Qed.

(** ** Writing a square of a well-formed board *)

Lemma put_length {A : Type} (hole : A) (l : list A) (v : A) :
  forall i, (i < length l)%nat -> length (put hole l i v) = length l.
Proof.
  induction l as [| x xs IH]; intros i Hi; cbn in Hi; [lia |].
  destruct i as [| i]; cbn; [reflexivity |].
  rewrite IH by lia. reflexivity.
Qed.

Lemma put_same {A : Type} (hole : A) (l : list A) (v : A) :
  forall i, (i < length l)%nat -> nth_error (put hole l i v) i = Some v.
Proof.
  induction l as [| x xs IH]; intros i Hi; cbn in Hi; [lia |].
  destruct i as [| i]; cbn; [reflexivity |].
  apply IH. lia.
Qed.

Lemma put_other {A : Type} (hole : A) (l : list A) (v : A) :
  forall i j, (i < length l)%nat -> i <> j ->
              nth_error (put hole l i v) j = nth_error l j.
Proof.
  induction l as [| x xs IH]; intros i j Hi Hij; cbn in Hi; [lia |].
  destruct i as [| i], j as [| j]; cbn; try reflexivity; try lia.
  apply IH; lia.
Qed.

Lemma put_In {A : Type} (hole : A) (l : list A) (v : A) :
  forall i x, (i < length l)%nat -> In x (put hole l i v) -> x = v \/ In x l.
Proof.
  induction l as [| y ys IH]; intros i x Hi Hin; cbn in Hi; [lia |].
  destruct i as [| i]; cbn in Hin.
  - destruct Hin as [-> | Hin]; [now left | right; now right].
  - destruct Hin as [-> | Hin]; [right; now left |].
    destruct (IH i x ltac:(lia) Hin) as [-> | H]; [now left | right; now right].
Qed.

Lemma index_put_same {A : Type} (hole : A) (l : list A) (v : A) (i : Z) :
  0 <= i < Z.of_nat (length l) ->
  index (put hole l (Z.to_nat i) v) i = Some v.
Proof.
  intros Hi. unfold index.
  destruct (Z.ltb_spec i 0); [lia |]. apply put_same. lia.
Qed.

Lemma index_put_other {A : Type} (hole : A) (l : list A) (v : A) (i j : Z) :
  0 <= i < Z.of_nat (length l) -> j <> i ->
  index (put hole l (Z.to_nat i) v) j = index l j.
Proof.
  intros Hi Hij. unfold index.
  destruct (Z.ltb_spec j 0); [reflexivity |].
  apply put_other; lia.
Qed.

Lemma store_spec (b : Board) (r c : Z) (v : option Piece) :
  wf_board b -> on_board r c ->
  exists b',
    store b r c v = Normal b'
    /\ wf_board b'
    /\ cell b' r c = Normal v
    /\ forall r' c', r' <> r \/ c' <> c -> cell b' r' c' = cell b r' c'.
Proof.
  intros Hwf [Hr Hc].
  destruct (wf_board_row b r Hwf Hr) as [row [Hrow Hlen]].
  pose proof Hwf as [Hrows Hall].
  unfold store. rewrite Hrow.
  destruct (Z.ltb_spec c 0); [lia |].
  eexists. split; [reflexivity |].
  assert (Hri : 0 <= r < Z.of_nat (length b)) by lia.
  assert (Hci : 0 <= c < Z.of_nat (length row)) by lia.
  split; [| split].
  - split.
    + rewrite put_length by lia. exact Hrows.
    + apply Forall_forall. intros x Hx.
      apply put_In in Hx; [| lia].
      destruct Hx as [-> | Hx].
      * rewrite put_length by lia. exact Hlen.
      * rewrite Forall_forall in Hall. now apply Hall.
  - unfold cell. rewrite index_put_same by exact Hri.
    rewrite index_put_same by exact Hci. reflexivity.
  - intros r' c' Hne. unfold cell.
    destruct (Z.eq_dec r' r) as [-> | Hrr].
    + rewrite index_put_same by exact Hri. rewrite Hrow.
      rewrite index_put_other by (try exact Hci; destruct Hne; congruence).
      reflexivity.
    + rewrite index_put_other by (try exact Hri; exact Hrr). reflexivity.
Qed.

(** ** Loops return when their bodies do *)

Lemma collect_returns {A B : Type} (body : A -> completion (list B)) (l : list A) :
  (forall x, In x l -> exists ys, body x = Normal ys) ->
  exists zs, collect body l = Normal zs.
Proof.
  induction l as [| x xs IH]; intros Hbody; cbn [collect].
  - now eexists.
  - destruct (Hbody x (or_introl eq_refl)) as [ys ->].
    destruct IH as [zs ->].
    + intros y Hy. apply Hbody. now right.
    + cbn [cbind]. now eexists.
Qed.

Lemma foldC_returns {A S : Type} (body : S -> A -> completion S) (l : list A) :
  (forall s x, In x l -> exists s', body s x = Normal s') ->
  forall s, exists s', foldC body l s = Normal s'.
Proof.
  induction l as [| x xs IH]; intros Hbody s; cbn [foldC].
  - now eexists.
  - destruct (Hbody s x (or_introl eq_refl)) as [s1 ->]. cbn [cbind].
    apply IH. intros s0 y Hy. apply Hbody. now right.
Qed.

Lemma indexed_In {A : Type} (l : list A) (i : Z) (x : A) :
  In (i, x) (indexed l) -> 0 <= i < Z.of_nat (length l) /\ In x l.
Proof.
  intros Hin. unfold indexed in Hin. split.
  - apply in_combine_l in Hin. apply in_map_iff in Hin as [n [<- Hn]].
    apply in_seq in Hn. lia.
  - now apply in_combine_r in Hin.
Qed.

Lemma upto8_In (i : Z) : In i upto8 -> 0 <= i <= 7.
Proof. unfold upto8. cbn. intros H. repeat (destruct H as [<- | H]; [lia |]). tauto. Qed.

Lemma wf_indexed (b : Board) (r c : Z) (row : Row) (x : option Piece) :
  wf_board b -> In (r, row) (indexed b) -> In (c, x) (indexed row) ->
  on_board r c.
Proof.
  intros [Hlen Hrows] Hr Hc.
  apply indexed_In in Hr as [Hr Hrow]. apply indexed_In in Hc as [Hc _].
  rewrite Forall_forall in Hrows. rewrite (Hrows row Hrow) in Hc.
  unfold on_board. lia.
Qed.

(** Reads the next square of a well-formed board in the goal. *)
Ltac read_cell Hwf :=
  match goal with
  | |- context [cell ?b ?r ?c] =>
      let x := fresh "x" in
      let E := fresh "E" in
      destruct (cell_on_board b r c Hwf) as [x E];
      [unfold on_board; lia | rewrite E; cbn [cbind]]
  end.

Lemma evaluatePosition_returns (b : Board) :
  wf_board b -> exists p, evaluatePosition b = Normal p.
Proof.
  intros Hwf. unfold evaluatePosition, centerSquares. cbn [foldC].
  repeat read_cell Hwf. now eexists.
Qed.

Lemma countUndevelopedPieces_returns (b : Board) (color0 : Color) :
  wf_board b -> exists n, countUndevelopedPieces b color0 = Normal n.
Proof.
  intros Hwf. unfold countUndevelopedPieces. cbn [foldC].
  destruct color0; repeat read_cell Hwf; now eexists.
Qed.

Lemma evaluateCenterControl_returns (st : Session) (b : Board) :
  wf_board b -> exists n, evaluateCenterControl st b = Normal n.
Proof.
  intros Hwf. unfold evaluateCenterControl, centerSquares. cbn [foldC].
  repeat read_cell Hwf. now eexists.
Qed.

Lemma generateAllPossibleMoves_returns (st : Session) (b : Board) (color0 : Color) :
  wf_board (board st) -> wf_board b ->
  exists candidates, generateAllPossibleMoves st b color0 = Normal candidates.
Proof.
  intros Hst Hb. unfold generateAllPossibleMoves.
  apply collect_returns. intros [r row] Hr.
  apply collect_returns. intros [c x] Hc.
  destruct x as [piece |]; [| now eexists].
  destruct (color_eqb (color piece) color0); [| now eexists].
  apply collect_returns. intros tr _.
  apply collect_returns. intros tc _.
  destruct (isValidMove_returns st r c tr tc piece Hst
              (wf_indexed b r c row (Some piece) Hb Hr Hc)) as [ok ->].
  cbn [cbind]. now eexists.
Qed.

Lemma detectThreats_returns (st : Session) (b : Board) (color0 : Color) :
  wf_board (board st) -> wf_board b ->
  exists threats, detectThreats st b color0 = Normal threats.
Proof.
  intros Hst Hb. unfold detectThreats.
  apply collect_returns. intros [r row] Hr.
  apply collect_returns. intros [c x] Hc.
  destruct x as [piece |]; [| now eexists].
  destruct (color_eqb (color piece) color0); [| now eexists].
  apply collect_returns. intros ar Har. apply upto8_In in Har.
  apply collect_returns. intros ac Hac. apply upto8_In in Hac.
  assert (Hsq : on_board ar ac) by (unfold on_board; lia).
  destruct (cell_on_board b ar ac Hb Hsq) as [y ->]. cbn [cbind].
  destruct y as [attacker |]; [| now eexists].
  destruct (negb (color_eqb (color attacker) color0)); [| now eexists].
  destruct (isValidMove_returns st ar ac r c attacker Hst Hsq) as [ok ->].
  cbn [cbind]. now eexists.
Qed.

(** ** Handlers that return and leave the board alone *)

Lemma quiet_mret {A : Type} (a : A) : quiet (mret a).
Proof.
  intros [q0 d0]. exists a, [], d0. cbn. rewrite app_nil_r. now split.
Qed.

Lemma quiet_lift {A : Type} (c : completion A) :
  (exists a, c = Normal a) -> quiet (lift c).
Proof.
  intros [a ->] [q0 d0]. exists a, [], d0. cbn. rewrite app_nil_r. now split.
Qed.

Lemma quiet_emit (u : Update) : leaves_board u = true -> quiet (emit u).
Proof.
  intros Hu [q0 d0]. exists tt, [u], d0. cbn. now rewrite Hu.
Qed.

Lemma quiet_random (rand : nat -> float) : quiet (Math_random rand).
Proof.
  intros [q0 d0]. exists (rand d0), [], (S d0). cbn. rewrite app_nil_r. now split.
Qed.

Lemma quiet_bind {A B : Type} (m : M A) (k : A -> M B) :
  quiet m -> (forall a, quiet (k a)) -> quiet (mbind m k).
Proof.
  intros Hm Hk w. unfold mbind.
  destruct (Hm w) as [a [q1 [d1 [-> Hq1]]]].
  destruct (Hk a (mkWorld (queue w ++ q1) d1)) as [b [q2 [d2 [-> Hq2]]]].
  exists b, (q1 ++ q2), d2. cbn [queue]. rewrite app_assoc. split; [reflexivity |].
  rewrite forallb_app, Hq1, Hq2. reflexivity.
Qed.

(** Splits a handler into its steps. *)
Ltac quiet_steps :=
  repeat first
    [ apply quiet_mret
    | apply quiet_random
    | apply quiet_emit; reflexivity
    | apply quiet_bind; [| intros ?]
    | match goal with
      | |- quiet (if ?c then _ else _) => destruct c
      | |- quiet (match ?x with _ => _ end) => destruct x
      end ].

Lemma quiet_classifyMove (st : Session) (rand : nat -> float)
      (previousEval newEval : float) (moveData : MoveData) :
  quiet (classifyMove st rand previousEval newEval moveData).
Proof.
  unfold classifyMove, generateTacticalFeedback, generateBlunderFeedback.
  quiet_steps.
Qed.

Lemma quiet_simulateStockfishAnalysis (st : Session) (rand : nat -> float)
      (b : Board) (lastMove : MoveData) :
  wf_board (board st) -> wf_board b ->
  quiet (simulateStockfishAnalysis st rand b lastMove).
Proof.
  intros Hst Hb. unfold simulateStockfishAnalysis.
  apply quiet_bind; [apply quiet_lift, evaluatePosition_returns, Hb | intros p].
  apply quiet_bind; [apply quiet_emit; reflexivity | intros _].
  apply quiet_bind;
    [apply quiet_lift, generateAllPossibleMoves_returns; assumption | intros ms].
  quiet_steps.
Qed.

Lemma quiet_updateLiveHints (st : Session) (b : Board) (lastMove : MoveData)
      (classification0 : Classification) :
  wf_board (board st) -> wf_board b ->
  quiet (updateLiveHints st b lastMove classification0).
Proof.
  intros Hst Hb. unfold updateLiveHints.
  apply quiet_bind.
  { destruct (Z.of_nat (length (moves st)) <? 10); [| apply quiet_mret].
    apply quiet_bind;
      [apply quiet_lift, countUndevelopedPieces_returns, Hb | intros n].
    apply quiet_mret. }
  intros h1.
  apply quiet_bind;
    [apply quiet_lift, detectThreats_returns; assumption | intros threats].
  apply quiet_bind;
    [apply quiet_lift, evaluateCenterControl_returns, Hb | intros cc].
  apply quiet_emit. reflexivity.
Qed.

Lemma quiet_generatePostGameAnalysis (st : Session) (rand : nat -> float) :
  wf_board (board st) -> quiet (generatePostGameAnalysis st rand).
Proof.
  intros Hst. unfold generatePostGameAnalysis.
  apply quiet_bind.
  { destruct (Z.of_nat (length (moves st)) >? 10); [| apply quiet_mret].
    apply quiet_bind;
      [apply quiet_lift, countUndevelopedPieces_returns, Hst | intros n].
    apply quiet_mret. }
  intros opening.
  do 3 (apply quiet_bind; [apply quiet_emit; reflexivity | intros _]).
  apply quiet_bind; [apply quiet_random | intros x].
  apply quiet_bind.
  { destruct (Z.of_nat (length (moves st)) >? 40); quiet_steps. }
  intros e.
  apply quiet_bind;
    [apply quiet_lift, countUndevelopedPieces_returns, Hst | intros n].
  quiet_steps.
Qed.

Lemma commit_leaves_board (s : Session) (q : list Update) :
  forallb leaves_board q = true -> board (commit s q) = board s.
Proof.
  revert s. induction q as [| u q IH]; intros s Hq; cbn in *; [reflexivity |].
  apply andb_true_iff in Hq as [Hu Hq].
  unfold commit in IH. rewrite IH by exact Hq.
  destruct u; cbn in *; try reflexivity; discriminate.
Qed.

Lemma mbind_lift {A B : Type} (a : A) (k : A -> M B) (w : World) :
  mbind (lift (Normal a)) k w = k a w.
Proof. reflexivity. Qed.

Lemma mbind_emit {B : Type} (u : Update) (k : unit -> M B) (w : World) :
  mbind (emit u) k w = k tt (mkWorld (queue w ++ [u]) (draws w)).
Proof. reflexivity. Qed.

(** What a run of [makeMove] on a legal square pair amounts to: it returns,
    and its queue is one [SetBoard], of the board written by the two stores,
    followed by updates of other parts of the state. *)
Lemma makeMove_run (st : Session) (rand : nat -> float)
      (fromRow fromCol toRow toCol : Z) (p : Piece) (w : World) :
  wf_board (board st) ->
  on_board fromRow fromCol ->
  on_board toRow toCol ->
  cell (board st) fromRow fromCol = Normal (Some p) ->
  exists b1 newBoard q d,
    store (board st) toRow toCol (Some (mkPiece (type p) (color p) true))
    = Normal b1
    /\ store b1 fromRow fromCol None = Normal newBoard
    /\ wf_board b1 /\ wf_board newBoard
    /\ makeMove st rand fromRow fromCol toRow toCol w
       = (Normal tt, mkWorld (queue w ++ SetBoard newBoard :: q) d)
    /\ forallb leaves_board q = true.
Proof.
  intros Hst Hfrom Hto Hp.
  destruct (cell_on_board (board st) toRow toCol Hst Hto) as [captured0 Hcap].
  destruct (store_spec (board st) toRow toCol
              (Some (mkPiece (type p) (color p) true)) Hst Hto)
    as [b1 [Hb1 [Hwf1 _]]].
  destruct (store_spec b1 fromRow fromCol None Hwf1 Hfrom)
    as [newBoard [Hnb [Hwf2 _]]].
  exists b1, newBoard.
  unfold makeMove. rewrite Hp, Hcap, !mbind_lift, Hb1, mbind_lift, Hnb, mbind_lift.
  rewrite mbind_emit.
  match goal with
  | |- context [?rest (mkWorld (queue w ++ [SetBoard newBoard]) (draws w)) = _] =>
      assert (Hquiet : quiet rest)
  end.
  {
    apply quiet_bind; [apply quiet_simulateStockfishAnalysis; assumption |].
    intros newEval.
    apply quiet_bind; [apply quiet_classifyMove | intros classification0].
    do 3 (apply quiet_bind; [apply quiet_emit; reflexivity | intros _]).
    apply quiet_bind; [apply quiet_updateLiveHints; assumption | intros _].
    match goal with |- quiet (if ?c then _ else _) => destruct c end.
    - do 2 (apply quiet_bind; [apply quiet_emit; reflexivity | intros _]).
      apply quiet_generatePostGameAnalysis. exact Hst.
    - apply quiet_bind; [apply quiet_emit; reflexivity | intros _].
      destruct (gameMode st), (currentPlayer st);
        first [apply quiet_mret | apply quiet_emit; reflexivity]. }
  destruct (Hquiet (mkWorld (queue w ++ [SetBoard newBoard]) (draws w)))
    as [[] [q [d [Hrun Hq]]]].
  exists q, d. rewrite Hrun. cbn [queue].
  rewrite <- app_assoc. cbn [app].
  split; [reflexivity |]. split; [reflexivity |].
  split; [exact Hwf1 |]. split; [exact Hwf2 |].
  split; [reflexivity | exact Hq].
Qed.

(** C9. Applying a move from one square of the board to a different one,
    the source holding a piece: [makeMove] returns, and on the board of the
    next render the source square is empty, the destination holds the moved
    piece with its [moved] flag set, and every other square reads as it did
    before the move. *)
Theorem makeMove_changes_two_squares
        (st : Session) (rand : nat -> float)
        (fromRow fromCol toRow toCol : Z) (p : Piece) :
  wf_board (board st) ->
  on_board fromRow fromCol ->
  on_board toRow toCol ->
  fromRow <> toRow \/ fromCol <> toCol ->
  cell (board st) fromRow fromCol = Normal (Some p) ->
  let newBoard := board (play st rand fromRow fromCol toRow toCol) in
  fst (makeMove st rand fromRow fromCol toRow toCol idle) = Normal tt
  /\ cell newBoard fromRow fromCol = Normal None
  /\ cell newBoard toRow toCol
     = Normal (Some (mkPiece (type p) (color p) true))
  /\ forall r c,
      r <> fromRow \/ c <> fromCol ->
      r <> toRow \/ c <> toCol ->
      cell newBoard r c = cell (board st) r c.
Proof.
  intros Hst Hfrom Hto Hne Hp newBoard.
  destruct (makeMove_run st rand fromRow fromCol toRow toCol p idle
              Hst Hfrom Hto Hp)
    as [b1 [nb [q [d [Hb1 [Hnb [Hwf1 [_ [Hrun Hq]]]]]]]]].
  assert (Hboard : newBoard = nb).
  { unfold newBoard, play. rewrite Hrun. cbn [snd queue idle app commit fold_left].
    change (fold_left apply_update q (apply_update st (SetBoard nb)))
      with (commit (apply_update st (SetBoard nb)) q).
    rewrite commit_leaves_board by exact Hq. reflexivity. }
  rewrite Hboard, Hrun. clear Hboard newBoard Hrun.
  destruct (store_spec (board st) toRow toCol
              (Some (mkPiece (type p) (color p) true)) Hst Hto)
    as [b1' [Hb1' [_ [Hto1 Hframe1]]]].
  rewrite Hb1 in Hb1'. injection Hb1' as <-.
  destruct (store_spec b1 fromRow fromCol None Hwf1 Hfrom)
    as [nb' [Hnb' [_ [Hfrom2 Hframe2]]]].
  rewrite Hnb in Hnb'. injection Hnb' as <-.
  split; [reflexivity |]. split; [exact Hfrom2 |]. split.
  - rewrite Hframe2; [exact Hto1 |].
    destruct Hne; [left | right]; congruence.
  - intros r c Hr1 Hr2. rewrite Hframe2 by exact Hr1. now apply Hframe1.
Qed.

Lemma makeMove_changes_two_squares_witness :
  cell (board (play initialSession zeros 6 4 4 4)) 6 4 = Normal None
  /\ cell (board (play initialSession zeros 6 4 4 4)) 4 4
     = Normal (Some (mkPiece pawn white true)).
Proof.
  destruct (makeMove_changes_two_squares initialSession zeros 6 4 4 4
              (mkPiece pawn white false))
    as [_ [Hsource [Hdest _]]].
  - exact initializeBoard_wf.
  - unfold on_board. lia.
  - unfold on_board. lia.
  - left. lia.
  - reflexivity.
  - split; [exact Hsource | exact Hdest].
Defined.

(** ** Blocked paths *)

Section Blocked.

Variable st : Session.
Hypothesis Hwf : wf_board (board st).
Variables toRow toCol rowStep colStep : Z.

(** An occupied square [j] steps ahead, with the destination not among the
    squares up to it, makes the loop return [false]. *)
Lemma scan_blocked (j : nat) :
  forall (budget : nat) (r c : Z) (q : Piece),
    (j < budget)%nat ->
    (forall i, 0 <= i <= Z.of_nat j ->
               on_board (r + i * rowStep) (c + i * colStep)
               /\ (r + i * rowStep <> toRow \/ c + i * colStep <> toCol)) ->
    cell (board st) (r + Z.of_nat j * rowStep) (c + Z.of_nat j * colStep)
    = Normal (Some q) ->
    isPathClear_scan st budget toRow toCol rowStep colStep r c = Normal false.
Proof.
  induction j as [| j IH]; intros budget r c q Hbudget Hpath Hq;
    (destruct budget as [| budget]; [lia |]); cbn [isPathClear_scan].
  - destruct (Hpath 0 ltac:(lia)) as [_ Hne].
    change (Z.of_nat 0) with 0 in Hq.
    rewrite !Z.mul_0_l, !Z.add_0_r in Hne, Hq.
    replace (negb (r =? toRow) || negb (c =? toCol)) with true.
    + rewrite Hq. reflexivity.
    + symmetry. apply orb_true_iff.
      destruct Hne as [Hne | Hne]; [left | right];
        apply negb_true_iff, Z.eqb_neq; exact Hne.
  - destruct (Hpath 0 ltac:(lia)) as [Hon Hne].
    rewrite !Z.mul_0_l, !Z.add_0_r in Hon, Hne.
    replace (negb (r =? toRow) || negb (c =? toCol)) with true.
    + destruct (cell_on_board (board st) r c Hwf Hon) as [x ->]. cbn [cbind].
      destruct (truthy x); [reflexivity |].
      apply (IH budget (r + rowStep) (c + colStep) q); [lia | |].
      * intros i Hi. specialize (Hpath (i + 1) ltac:(lia)).
        replace (r + rowStep + i * rowStep) with (r + (i + 1) * rowStep) by lia.
        replace (c + colStep + i * colStep) with (c + (i + 1) * colStep) by lia.
        exact Hpath.
      * replace (r + rowStep + Z.of_nat j * rowStep)
          with (r + Z.of_nat (S j) * rowStep) by lia.
        replace (c + colStep + Z.of_nat j * colStep)
          with (c + Z.of_nat (S j) * colStep) by lia.
        exact Hq.
    + symmetry. apply orb_true_iff.
      destruct Hne as [Hne | Hne]; [left | right];
        apply negb_true_iff, Z.eqb_neq; exact Hne.
Qed.

End Blocked.

Lemma isPathClear_blocked
      (st : Session) (fromRow fromCol toRow toCol k : Z) (q : Piece) :
  wf_board (board st) ->
  on_board fromRow fromCol ->
  on_board toRow toCol ->
  aligned fromRow fromCol toRow toCol ->
  0 < k < distance fromRow fromCol toRow toCol ->
  cell (board st) (fromRow + k * step_toward fromRow toRow)
       (fromCol + k * step_toward fromCol toCol) = Normal (Some q) ->
  isPathClear st fromRow fromCol toRow toCol = Normal false.
Proof.
  intros Hwf Hfrom Hto Hal Hk Hq.
  assert (Hne : fromRow <> toRow \/ fromCol <> toCol).
  { unfold distance in Hk. lia. }
  destruct (aligned_steps fromRow fromCol toRow toCol Hne Hal) as [Hd [Hrow Hcol]].
  pose proof (step_toward_range fromRow toRow) as Hrs.
  pose proof (step_toward_range fromCol toCol) as Hcs.
  set (rs := step_toward fromRow toRow) in *.
  set (cs := step_toward fromCol toCol) in *.
  set (d := distance fromRow fromCol toRow toCol) in *.
  assert (Hd7 : d <= 7).
  { unfold d, distance. destruct Hfrom as [? ?], Hto as [? ?]. lia. }
  assert (Hmoving : rs <> 0 \/ cs <> 0) by (destruct Hne; [left | right]; nia).
  unfold isPathClear. fold rs cs.
  apply (scan_blocked st Hwf toRow toCol rs cs (Z.to_nat (k - 1)) scan_budget
           (fromRow + rs) (fromCol + cs) q).
  - unfold scan_budget. lia.
  - intros i Hi. rewrite Z2Nat.id in Hi by lia.
    destruct Hfrom as [? ?], Hto as [? ?]. unfold on_board.
    split; [split; nia |]. destruct Hmoving; [left | right]; nia.
  - rewrite Z2Nat.id by lia.
    replace (fromRow + rs + (k - 1) * rs) with (fromRow + k * rs) by lia.
    replace (fromCol + cs + (k - 1) * cs) with (fromCol + k * cs) by lia.
    exact Hq.
Qed.

(** X5. A bishop, rook or queen is refused every destination of the board
    that has an occupied square strictly between it and the source, whatever
    stands on the destination. *)
Theorem sliding_piece_cannot_jump
        (st : Session) (fromRow fromCol toRow toCol k : Z) (piece q : Piece) :
  wf_board (board st) ->
  on_board fromRow fromCol ->
  on_board toRow toCol ->
  sliding (type piece) ->
  0 < k < distance fromRow fromCol toRow toCol ->
  cell (board st) (fromRow + k * step_toward fromRow toRow)
       (fromCol + k * step_toward fromCol toCol) = Normal (Some q) ->
  isValidMove st fromRow fromCol toRow toCol piece = Normal false.
Proof.
  intros Hwf Hfrom Hto Hsliding Hk Hq.
  assert (Hblocked : aligned fromRow fromCol toRow toCol ->
                     isPathClear st fromRow fromCol toRow toCol = Normal false).
  { intros Hal.
    exact (isPathClear_blocked st fromRow fromCol toRow toCol k q
             Hwf Hfrom Hto Hal Hk Hq). }
  unfold isValidMove.
  destruct Hto as [Hr Hc].
  destruct (Z.ltb_spec toRow 0); [lia |].
  destruct (Z.gtb_spec toRow 7); [lia |].
  destruct (Z.ltb_spec toCol 0); [lia |].
  destruct (Z.gtb_spec toCol 7); [lia |]. cbn [orb].
  destruct ((fromRow =? toRow) && (fromCol =? toCol)); [reflexivity |].
  destruct (cell_on_board (board st) toRow toCol Hwf (conj Hr Hc)) as [target ->].
  cbn [cbind].
  match goal with |- (if ?c then _ else _) = _ => destruct c; [reflexivity |] end.
  destruct Hsliding as [-> | [-> | ->]].
  - destruct (Z.eqb_spec (Z.abs (toRow - fromRow)) (Z.abs (toCol - fromCol)));
      cbn [negb]; [| reflexivity].
    apply Hblocked. unfold aligned. tauto.
  - destruct (Z.eqb_spec fromRow toRow); cbn [negb andb].
    + apply Hblocked. unfold aligned. tauto.
    + destruct (Z.eqb_spec fromCol toCol); cbn [negb]; [| reflexivity].
      apply Hblocked. unfold aligned. tauto.
  - destruct (Z.eqb_spec fromRow toRow); cbn [negb andb].
    + apply Hblocked. unfold aligned. tauto.
    + destruct (Z.eqb_spec fromCol toCol); cbn [negb andb].
      * apply Hblocked. unfold aligned. tauto.
      * destruct (Z.eqb_spec (Z.abs (toRow - fromRow)) (Z.abs (toCol - fromCol)));
          cbn [negb]; [| reflexivity].
        apply Hblocked. unfold aligned. tauto.
Qed.

Lemma sliding_piece_cannot_jump_witness :
  isValidMove initialSession 7 0 4 0 (mkPiece rook white false) = Normal false.
Proof.
  apply (sliding_piece_cannot_jump initialSession 7 0 4 0 1
           (mkPiece rook white false) (mkPiece pawn white false)).
  - exact initializeBoard_wf.
  - unfold on_board. lia.
  - unfold on_board. lia.
  - right. left. reflexivity.
  - unfold distance. lia.
  - reflexivity.
Defined.

(** ** What the generator returns *)

Lemma collect_In {A B : Type} (body : A -> completion (list B)) (l : list A) :
  forall zs z,
    collect body l = Normal zs -> In z zs ->
    exists x ys, In x l /\ body x = Normal ys /\ In z ys.
Proof.
  induction l as [| x xs IH]; intros zs z Hrun Hz; cbn [collect] in Hrun.
  - injection Hrun as <-. destruct Hz.
  - destruct (body x) as [ys | |] eqn:Ex; cbn [cbind] in Hrun; try discriminate.
    destruct (collect body xs) as [zs' | |] eqn:Exs; cbn [cbind] in Hrun;
      try discriminate.
    injection Hrun as <-. apply in_app_or in Hz as [Hz | Hz].
    + exists x, ys. repeat split; [now left | assumption | assumption].
    + destruct (IH zs' z eq_refl Hz) as [y [ys' [Hy [Hby Hzy]]]].
      exists y, ys'. repeat split; [now right | assumption | assumption].
Qed.

Lemma indexed_from {A : Type} (l : list A) :
  forall (k : nat) (i : Z) (x : A),
    In (i, x) (combine (map Z.of_nat (seq k (length l))) l) ->
    Z.of_nat k <= i /\ nth_error l (Z.to_nat i - k) = Some x.
Proof.
  induction l as [| y ys IH]; intros k i x Hin; cbn in Hin; [destruct Hin |].
  destruct Hin as [Heq | Hin].
  - injection Heq as <- <-. split; [lia |].
    replace (Z.to_nat (Z.of_nat k) - k)%nat with 0%nat by lia. reflexivity.
  - apply IH in Hin as [Hk Hnth]. split; [lia |].
    replace (Z.to_nat i - k)%nat with (S (Z.to_nat i - S k)) by lia.
    exact Hnth.
Qed.

Lemma indexed_index {A : Type} (l : list A) (i : Z) (x : A) :
  In (i, x) (indexed l) -> index l i = Some x.
Proof.
  intros Hin. destruct (indexed_from l 0%nat i x Hin) as [Hi Hnth].
  unfold index. destruct (Z.ltb_spec i 0); [lia |].
  now rewrite Nat.sub_0_r in Hnth.
Qed.

Lemma isValidMove_accepts (st : Session) (fromRow fromCol toRow toCol : Z) (piece : Piece) :
  isValidMove st fromRow fromCol toRow toCol piece = Normal true ->
  on_board toRow toCol
  /\ (fromRow <> toRow \/ fromCol <> toCol)
  /\ exists target,
      cell (board st) toRow toCol = Normal target
      /\ forall t, target = Some t -> color_eqb (color t) (color piece) = false.
Proof.
  unfold isValidMove. intros H.
  destruct (Z.ltb_spec toRow 0); cbn [orb] in H; [discriminate |].
  destruct (Z.gtb_spec toRow 7); cbn [orb] in H; [discriminate |].
  destruct (Z.ltb_spec toCol 0); cbn [orb] in H; [discriminate |].
  destruct (Z.gtb_spec toCol 7); cbn [orb] in H; [discriminate |].
  destruct ((fromRow =? toRow) && (fromCol =? toCol)) eqn:Esame; [discriminate |].
  split; [unfold on_board; lia |]. split.
  { apply andb_false_iff in Esame as [E | E]; apply Z.eqb_neq in E; tauto. }
  destruct (cell (board st) toRow toCol) as [target | |]; cbn [cbind] in H;
    try discriminate.
  exists target. split; [reflexivity |].
  intros t ->. destruct (color_eqb (color t) (color piece)); [discriminate | reflexivity].
Qed.

Lemma color_eqb_spec (a b : Color) : reflect (a = b) (color_eqb a b).
Proof. destruct a, b; constructor; congruence. Qed.

Lemma indexed_cell (b : Board) (r c : Z) (row : Row) (x : option Piece) :
  In (r, row) (indexed b) -> In (c, x) (indexed row) -> cell b r c = Normal x.
Proof.
  intros Hr Hc. unfold cell.
  rewrite (indexed_index b r row Hr), (indexed_index row c x Hc). reflexivity.
Qed.

Lemma generated_move_inv
      (st : Session) (b : Board) (color0 : Color)
      (candidates : list Candidate) (m : Candidate) :
  generateAllPossibleMoves st b color0 = Normal candidates ->
  In m candidates ->
  exists r row c piece tr tc,
    m = mkCandidate (mkSquare r c) (mkSquare tr tc) (toAlgebraic r c tr tc piece)
    /\ In (r, row) (indexed b)
    /\ In (c, Some piece) (indexed row)
    /\ In tr upto8 /\ In tc upto8
    /\ color piece = color0
    /\ isValidMove st r c tr tc piece = Normal true.
Proof.
  intros Hrun Hm. unfold generateAllPossibleMoves in Hrun.
  destruct (collect_In _ _ _ _ Hrun Hm) as [[r row] [ms1 [Hr [Hrun1 Hm1]]]].
  destruct (collect_In _ _ _ _ Hrun1 Hm1) as [[c x] [ms2 [Hc [Hrun2 Hm2]]]].
  destruct x as [piece |]; [| injection Hrun2 as <-; destruct Hm2].
  destruct (color_eqb_spec (color piece) color0) as [Hcolor |];
    [| injection Hrun2 as <-; destruct Hm2].
  destruct (collect_In _ _ _ _ Hrun2 Hm2) as [tr [ms3 [Htr [Hrun3 Hm3]]]].
  destruct (collect_In _ _ _ _ Hrun3 Hm3) as [tc [ms4 [Htc [Hrun4 Hm4]]]].
  destruct (isValidMove st r c tr tc piece) as [ok | |] eqn:Eok;
    cbn [cbind] in Hrun4; try discriminate.
  injection Hrun4 as <-.
  destruct ok; [| destruct Hm4].
  destruct Hm4 as [<- | []].
  exists r, row, c, piece, tr, tc. repeat split; assumption.
Qed.

(** X2. Every candidate the generator returns moves a piece of the requested
    color standing on the source square of the board passed in, is accepted
    by the legality checker, carries the notation of that move, and has a
    destination on the 8x8 board that holds no piece of that color on the
    board of the render. *)
Theorem generated_moves_are_accepted
        (st : Session) (b : Board) (color0 : Color)
        (candidates : list Candidate) (m : Candidate) :
  generateAllPossibleMoves st b color0 = Normal candidates ->
  In m candidates ->
  let fromRow := sq_row (from m) in
  let fromCol := sq_col (from m) in
  let toRow := sq_row (to m) in
  let toCol := sq_col (to m) in
  exists piece,
    cell b fromRow fromCol = Normal (Some piece)
    /\ color piece = color0
    /\ isValidMove st fromRow fromCol toRow toCol piece = Normal true
    /\ notation m = toAlgebraic fromRow fromCol toRow toCol piece
    /\ on_board toRow toCol
    /\ exists target,
        cell (board st) toRow toCol = Normal target
        /\ forall t, target = Some t -> color t <> color0.
Proof.
  intros Hrun Hm.
  destruct (generated_move_inv st b color0 candidates m Hrun Hm)
    as [r [row [c [piece [tr [tc [-> [Hr [Hc [_ [_ [Hcolor Hok]]]]]]]]]]]].
  cbn [from to sq_row sq_col notation].
  exists piece.
  destruct (isValidMove_accepts st r c tr tc piece Hok)
    as [Hto [_ [target [Htarget Hforeign]]]].
  split; [exact (indexed_cell b r c row (Some piece) Hr Hc) |].
  split; [exact Hcolor |]. split; [exact Hok |]. split; [reflexivity |].
  split; [exact Hto |].
  exists target. split; [exact Htarget |].
  intros t Ht Hsame. specialize (Hforeign t Ht).
  rewrite Hcolor, <- Hsame in Hforeign.
  destruct (color t); discriminate.
Qed.

Lemma generated_moves_are_accepted_witness :
  exists piece,
    cell initializeBoard 6 0 = Normal (Some piece) /\ color piece = white.
Proof.
  destruct (generated_moves_are_accepted
              initialSession initializeBoard white openingMoves
              (mkCandidate (mkSquare 6 0) (mkSquare 4 0) "a2-a4"))
    as [piece [Hcell [Hcolor _]]].
  - vm_compute. reflexivity.
  - vm_compute. left. reflexivity.
  - exists piece. split; [exact Hcell | exact Hcolor].
Defined.

Lemma StronglySorted_app {A : Type} (R : A -> A -> Prop) (l1 l2 : list A) :
  StronglySorted R l1 -> StronglySorted R l2 ->
  (forall a b, In a l1 -> In b l2 -> R a b) ->
  StronglySorted R (l1 ++ l2).
Proof.
  induction l1 as [| x xs IH]; intros H1 H2 Hcross; cbn [app]; [exact H2 |].
  apply StronglySorted_inv in H1 as [Hxs Hx].
  constructor.
  - apply IH; [exact Hxs | exact H2 |].
    intros a b Ha Hb. apply Hcross; [now right | exact Hb].
  - apply Forall_app. split; [exact Hx |].
    apply Forall_forall. intros b Hb. apply Hcross; [now left | exact Hb].
Qed.

Section Ranked.

Context {A B : Type}.
Variable rank0 : B -> Z.
Variable pos : A -> Z.
Variables base w : Z.
Variable body : A -> completion (list B).
Hypothesis Hw : 0 <= w.

Lemma collect_ranked (l : list A) :
  StronglySorted (fun x y => pos x < pos y) l ->
  (forall x ys, In x l -> body x = Normal ys ->
     StronglySorted (fun a b => rank0 a < rank0 b) ys
     /\ Forall (fun y => base + pos x * w <= rank0 y < base + pos x * w + w)
               ys) ->
  forall lo hi zs,
    (forall x, In x l -> lo <= pos x < hi) ->
    collect body l = Normal zs ->
    StronglySorted (fun a b => rank0 a < rank0 b) zs
    /\ Forall (fun z => base + lo * w <= rank0 z < base + hi * w) zs.
Proof.
  induction l as [| x xs IH]; intros Hsorted Hbody lo hi zs Hpos Hrun;
    cbn [collect] in Hrun.
  - injection Hrun as <-. split; constructor.
  - destruct (body x) as [ys | |] eqn:Ex; cbn [cbind] in Hrun; try discriminate.
    destruct (collect body xs) as [zs' | |] eqn:Exs; cbn [cbind] in Hrun;
      try discriminate.
    injection Hrun as <-.
    apply StronglySorted_inv in Hsorted as [Hxs Hx].
    destruct (Hbody x ys (or_introl eq_refl) Ex) as [Hys Hbounds].
    assert (Hx' : lo <= pos x < hi) by (apply Hpos; now left).
    destruct (IH Hxs (fun y ys' Hy => Hbody y ys' (or_intror Hy))
                 (pos x + 1) hi zs') as [Hzs' Hbounds'].
    { intros y Hy. rewrite Forall_forall in Hx. specialize (Hx y Hy).
      specialize (Hpos y (or_intror Hy)). lia. }
    { reflexivity. }
    rewrite Forall_forall in Hbounds, Hbounds'.
    split.
    + apply StronglySorted_app; [exact Hys | exact Hzs' |].
      intros a b Ha Hb. specialize (Hbounds a Ha). specialize (Hbounds' b Hb).
      cbv beta in Hbounds, Hbounds'. nia.
    + apply Forall_app. split; apply Forall_forall; intros z Hz.
      * specialize (Hbounds z Hz). cbv beta in Hbounds. nia.
      * specialize (Hbounds' z Hz). cbv beta in Hbounds'. nia.
Qed.

End Ranked.

Lemma indexed_sorted {A : Type} (l : list A) :
  StronglySorted (fun x y : Z * A => fst x < fst y) (indexed l).
Proof.
  unfold indexed. generalize 0%nat as k.
  induction l as [| x xs IH]; intros k; cbn; constructor.
  - apply IH.
  - apply Forall_forall. intros [i y] Hin.
    apply indexed_from in Hin as [Hi _]. cbn. lia.
Qed.

Lemma upto8_In' (i : Z) : In i upto8 -> 0 <= i < 8.
Proof. intros H. apply upto8_In in H. lia. Qed.

Lemma upto8_sorted : StronglySorted Z.lt upto8.
Proof. unfold upto8. repeat constructor. Qed.

Lemma Forall_weaken {A : Type} (P Q : A -> Prop) (l : list A) :
  (forall x, P x -> Q x) -> Forall P l -> Forall Q l.
Proof. intros HPQ H. eapply Forall_impl; [exact HPQ | exact H]. Qed.

Lemma generated_moves_ranked
      (st : Session) (b : Board) (color0 : Color) (candidates : list Candidate) :
  wf_board b ->
  generateAllPossibleMoves st b color0 = Normal candidates ->
  StronglySorted (fun m1 m2 => rank m1 < rank m2) candidates.
Proof.
  intros Hwf Hrun. unfold generateAllPossibleMoves in Hrun.
  eapply (collect_ranked rank fst 0 512) with (lo := 0) (hi := 8) in Hrun
    as [Hsorted _]; [exact Hsorted | lia | apply indexed_sorted | |].
  2: { intros [r row] Hr. apply indexed_In in Hr as [Hr _].
       destruct Hwf as [Hlen _]. unfold Row in Hlen. cbn [fst]. lia. }
  intros [r row] ms1 Hr Hrun1. cbn [fst].
  eapply (collect_ranked rank fst (512 * r) 64) with (lo := 0) (hi := 8) in Hrun1
    as [Hsorted1 Hbounds1]; [| lia | apply indexed_sorted | |].
  { split; [exact Hsorted1 |].
    eapply Forall_weaken; [| exact Hbounds1]. cbv beta. intros z Hz. lia. }
  2: { intros [c x] Hc. cbn [fst].
       pose proof (wf_indexed b r c row x Hwf Hr Hc) as [_ Hc']. lia. }
  intros [c x] ms2 Hc Hrun2. cbn [fst].
  destruct x as [piece |]; [| injection Hrun2 as <-; split; constructor].
  destruct (color_eqb (color piece) color0);
    [| injection Hrun2 as <-; split; constructor].
  eapply (collect_ranked rank (fun tr => tr) (512 * r + 64 * c) 8)
    with (lo := 0) (hi := 8) in Hrun2
    as [Hsorted2 Hbounds2]; [| lia | apply upto8_sorted | | apply upto8_In'].
  { split; [exact Hsorted2 |].
    eapply Forall_weaken; [| exact Hbounds2]. cbv beta. intros z Hz. lia. }
  intros tr ms3 Htr Hrun3.
  eapply (collect_ranked rank (fun tc => tc) (512 * r + 64 * c + 8 * tr) 1)
    with (lo := 0) (hi := 8) in Hrun3
    as [Hsorted3 Hbounds3]; [| lia | apply upto8_sorted | | apply upto8_In'].
  { split; [exact Hsorted3 |].
    eapply Forall_weaken; [| exact Hbounds3]. cbv beta. intros z Hz. lia. }
  intros tc ms4 Htc Hrun4.
  destruct (isValidMove st r c tr tc piece) as [ok | |];
    cbn [cbind] in Hrun4; try discriminate.
  injection Hrun4 as <-.
  destruct ok; [| split; constructor].
  split; repeat constructor;
    unfold rank, square_index; cbn [from to sq_row sq_col]; lia.
Qed.

(** X1. On a well-formed board the candidates come out in row-major order of
    their source squares and, for one source, in row-major order of their
    destination squares; no pair of squares is listed twice. *)
Theorem generated_moves_in_row_major_order
        (st : Session) (b : Board) (color0 : Color) (candidates : list Candidate) :
  wf_board b ->
  generateAllPossibleMoves st b color0 = Normal candidates ->
  StronglySorted row_major_before candidates.
Proof.
  intros Hwf Hrun.
  pose proof (generated_moves_ranked st b color0 candidates Hwf Hrun) as Hranked.
  assert (Hdest : Forall (fun m => 0 <= square_index (to m) < 64) candidates).
  { apply Forall_forall. intros m Hm.
    destruct (generated_move_inv st b color0 candidates m Hrun Hm)
      as [r [row [c [piece [tr [tc [-> [_ [_ [Htr [Htc _]]]]]]]]]]].
    apply upto8_In in Htr, Htc.
    unfold square_index. cbn [to sq_row sq_col]. lia. }
  clear Hrun. induction Hranked as [| m ms Hms IH Hm]; [constructor |].
  apply Forall_cons_iff in Hdest as [Hm0 Hdest].
  constructor; [apply IH; exact Hdest |].
  rewrite Forall_forall in Hm, Hdest |- *.
  intros m' Hin. specialize (Hm m' Hin). specialize (Hdest m' Hin).
  unfold row_major_before, rank in *. cbv beta in Hdest. lia.
Qed.

Lemma generated_moves_in_row_major_order_witness :
  StronglySorted row_major_before openingMoves.
Proof.
  apply (generated_moves_in_row_major_order initialSession initializeBoard white).
  - exact initializeBoard_wf.
  - vm_compute. reflexivity.
Defined.

(** ** The blunder threshold *)

(** Replaces the specification of a float constant by its value. *)
Ltac spec_of c :=
  let v := eval vm_compute in (Prim2SF c) in
  change (Prim2SF c) with v in *.

(** [<] on two positive finite floats: by exponent, then by mantissa. *)
Lemma SFltb_positive (m1 : positive) (e1 : Z) (m2 : positive) (e2 : Z) :
  SFltb (S754_finite false m1 e1) (S754_finite false m2 e2) = true
  <-> e1 < e2 \/ (e1 = e2 /\ (m1 < m2)%positive).
Proof.
  unfold SFltb, SFcompare.
  change (Pos.compare_cont Eq m1 m2) with (m1 ?= m2)%positive.
  destruct (Z.compare_spec e1 e2) as [He | He | He].
  - destruct (Pos.compare_spec m1 m2) as [Hm | Hm | Hm];
      split; intros H; try discriminate; try reflexivity; lia.
  - split; intros H; [lia | reflexivity].
  - split; intros H; [discriminate | lia].
Qed.

Lemma SFltb_positive_asym (m1 : positive) (e1 : Z) (m2 : positive) (e2 : Z) :
  SFltb (S754_finite false m1 e1) (S754_finite false m2 e2) = true ->
  SFltb (S754_finite false m2 e2) (S754_finite false m1 e1) = false.
Proof.
  intros H. apply SFltb_positive in H.
  destruct (SFltb _ _) eqn:E; [| reflexivity].
  apply SFltb_positive in E. lia.
Qed.

Lemma SFltb_positive_trans (m1 : positive) (e1 : Z) (m2 : positive) (e2 : Z)
      (m3 : positive) (e3 : Z) :
  SFltb (S754_finite false m1 e1) (S754_finite false m2 e2) = true ->
  SFltb (S754_finite false m2 e2) (S754_finite false m3 e3) = true ->
  SFltb (S754_finite false m1 e1) (S754_finite false m3 e3) = true.
Proof.
  intros H12 H23. apply SFltb_positive in H12, H23. apply SFltb_positive. lia.
Qed.

(** A float above a positive finite one is positive: finite or infinite. *)
Lemma SFltb_above (m1 : positive) (e1 : Z) (s : spec_float) :
  SFltb (S754_finite false m1 e1) s = true ->
  s = S754_infinity false \/ exists m e, s = S754_finite false m e.
Proof.
  unfold SFltb, SFcompare.
  destruct s as [z | [|] | | [|] m e]; intros H; try discriminate.
  - now left.
  - right. now exists m, e.
Qed.

Lemma above_three (d : float) :
  (3 <? d)%float = true ->
  (d <? -2)%float = false
  /\ (d <? -0.5)%float = false
  /\ (d <? 1.5)%float = false
  /\ (d <? 3)%float = false.
Proof.
  rewrite !ltb_spec.
  spec_of 3%float. spec_of (-2)%float. spec_of (-0.5)%float. spec_of 1.5%float.
  intros Habove.
  destruct (SFltb_above _ _ _ Habove) as [Hd | [m [e Hd]]]; rewrite Hd in *.
  - repeat split.
  - split; [reflexivity |]. split; [reflexivity |].
    pose proof (SFltb_positive_asym _ _ _ _ Habove) as Hasym.
    split; [| exact Hasym].
    match goal with |- ?below = false => destruct below eqn:E end;
      [| reflexivity].
    assert (Hconst : SFltb (Prim2SF 1.5) (Prim2SF 3) = true)
      by (vm_compute; reflexivity).
    spec_of 3%float. spec_of 1.5%float.
    rewrite (SFltb_positive_trans _ _ _ _ _ _ E Hconst) in Hasym.
    discriminate Hasym.
Qed.


(** X3. Whenever the delta computed by the classifier is above 3, the tier
    returned is blunder with symbol "???". *)
Theorem classifyMove_above_three
        (st : Session) (rand : nat -> float) (previousEval newEval : float)
        (moveData : MoveData) (w : World) :
  (3 <? diff_of st previousEval newEval)%float = true ->
  exists fb w',
    classifyMove st rand previousEval newEval moveData w
    = (Normal (mkClassification blunder "???" "Blunder!"
                 [ Some "Critical error! This move loses material or position."%string;
                   fb ]),
       w').
Proof.
  intros Habove. unfold classifyMove.
  destruct (above_three _ Habove) as [H1 [H2 [H3 H4]]].
  rewrite H1, H2, H3, H4, Habove, !andb_false_r.
  unfold generateBlunderFeedback, mbind, Math_random, mret.
  eexists. eexists. reflexivity.
Qed.

Lemma classifyMove_above_three_witness :
  exists fb w',
    classifyMove initialSession zeros 3.5 0 e2e4 idle
    = (Normal (mkClassification blunder "???" "Blunder!"
                 [ Some "Critical error! This move loses material or position."%string;
                   fb ]),
       w').
Proof.
  apply (classifyMove_above_three initialSession zeros 3.5 0 e2e4 idle).
  reflexivity.
Defined.

(** ** The aggregator on a rated history *)

(** X4. A history of 20 moves with 3 blunders and 1 mistake has accuracy
    80.0; the aggregator reports the weakness Tactical Awareness and does not
    report the strength Consistency. *)
Theorem aggregate_twenty_moves (st : Session) (rand : nat -> float) :
  wf_board (board st) ->
  totalMoves st = 20 -> blunderCount st = 3 -> mistakeCount st = 1 ->
  accuracy st = NumTenths false 800
  /\ exists ws ss,
      queued_weaknesses (queue (snd (generatePostGameAnalysis st rand idle))) = Some ws
      /\ queued_strengths (queue (snd (generatePostGameAnalysis st rand idle))) = Some ss
      /\ In "Tactical Awareness"%string (map w_area ws)
      /\ ~ In "Consistency"%string (map s_area ss).
Proof.
  intros Hwf Htotal Hblunder Hmistake.
  assert (Hacc : accuracy st = NumTenths false 800).
  { unfold accuracy, accuracy_ratio. rewrite Htotal, Hblunder, Hmistake.
    vm_compute. reflexivity. }
  split; [exact Hacc |].
  unfold generatePostGameAnalysis.
  rewrite Hacc, Hblunder. unfold totalMoves in Htotal. rewrite Htotal.
  destruct (countUndevelopedPieces_returns (board st) white Hwf) as [n Hn].
  rewrite Hn.
  change (20 >? 10) with true. change (20 >? 40) with false.
  change (3 >? 2) with true. cbv iota.
  unfold mbind, lift, emit, mret, Math_random, idle. cbn [queue draws snd fst app].
  eexists. eexists. split; [reflexivity |]. split; [reflexivity |].
  split.
  - cbn. left. reflexivity.
  - cbn [numeral_gt negb andb]. change (800 >? 10 * 80) with false.
    rewrite app_nil_r.
    destruct (brilliantCount st >? 1); cbn [map s_area In];
      [intros [H | []]; discriminate H | intros []].
Qed.

Lemma aggregate_twenty_moves_witness : accuracy ratedSession = NumTenths false 800.
Proof.
  apply (aggregate_twenty_moves ratedSession zeros).
  - exact initializeBoard_wf.
  - reflexivity.
  - reflexivity.
  - reflexivity.
Defined.

(** * Properties of the handlers *)

(** ** Footprints of the handlers *)

Lemma emits_mret {A : Type} (P : Update -> bool) (a : A) : emits P (mret a).
Proof.
  intros [q0 d0]. exists a, [], d0. cbn. rewrite app_nil_r. now split.
Qed.

Lemma emits_lift {A : Type} (P : Update -> bool) (c : completion A) :
  (exists a, c = Normal a) -> emits P (lift c).
Proof.
  intros [a ->] [q0 d0]. exists a, [], d0. cbn. rewrite app_nil_r. now split.
Qed.

Lemma emits_emit (P : Update -> bool) (u : Update) :
  P u = true -> emits P (emit u).
Proof.
  intros Hu [q0 d0]. exists tt, [u], d0. cbn. now rewrite Hu.
Qed.

Lemma emits_random (P : Update -> bool) (rand : nat -> float) :
  emits P (Math_random rand).
Proof.
  intros [q0 d0]. exists (rand d0), [], (S d0). cbn. rewrite app_nil_r. now split.
Qed.

Lemma emits_bind {A B : Type} (P : Update -> bool) (m : M A) (k : A -> M B) :
  emits P m -> (forall a, emits P (k a)) -> emits P (mbind m k).
Proof.
  intros Hm Hk w. unfold mbind.
  destruct (Hm w) as [a [q1 [d1 [-> Hq1]]]].
  destruct (Hk a (mkWorld (queue w ++ q1) d1)) as [b [q2 [d2 [-> Hq2]]]].
  exists b, (q1 ++ q2), d2. cbn [queue]. rewrite app_assoc. split; [reflexivity |].
  rewrite forallb_app, Hq1, Hq2. reflexivity.
Qed.

(** Splits a handler into its steps. *)
Ltac emits_steps :=
  repeat first
    [ apply emits_mret
    | apply emits_random
    | apply emits_emit; reflexivity
    | apply emits_bind; [| intros ?]
    | match goal with
      | |- emits _ (if ?c then _ else _) => destruct c
      | |- emits _ (match ?x with _ => _ end) => destruct x
      end ].

Lemma emits_nothing {A : Type} (m : M A) (w : World) :
  emits (fun _ => false) m ->
  exists a d, m w = (Normal a, mkWorld (queue w) d).
Proof.
  intros Hm. destruct (Hm w) as [a [q [d [Hrun Hq]]]].
  destruct q as [| u q]; [| discriminate Hq].
  rewrite app_nil_r in Hrun. now exists a, d.
Qed.

Lemma classifyMove_emits (st : Session) (rand : nat -> float)
      (previousEval newEval : float) (moveData : MoveData) :
  emits (fun _ => false) (classifyMove st rand previousEval newEval moveData).
Proof.
  unfold classifyMove, generateTacticalFeedback, generateBlunderFeedback.
  emits_steps.
Qed.

Lemma simulateStockfishAnalysis_emits (st : Session) (rand : nat -> float)
      (b : Board) (lastMove : MoveData) :
  wf_board (board st) -> wf_board b ->
  emits engine_update (simulateStockfishAnalysis st rand b lastMove).
Proof.
  intros Hst Hb. unfold simulateStockfishAnalysis.
  apply emits_bind; [apply emits_lift, evaluatePosition_returns, Hb | intros p].
  apply emits_bind; [apply emits_emit; reflexivity | intros _].
  apply emits_bind;
    [apply emits_lift, generateAllPossibleMoves_returns; assumption | intros ms].
  emits_steps.
Qed.

Lemma generatePostGameAnalysis_emits (st : Session) (rand : nat -> float) :
  wf_board (board st) ->
  emits analysis_update (generatePostGameAnalysis st rand).
Proof.
  intros Hst. unfold generatePostGameAnalysis.
  apply emits_bind.
  { destruct (Z.of_nat (length (moves st)) >? 10); [| apply emits_mret].
    apply emits_bind;
      [apply emits_lift, countUndevelopedPieces_returns, Hst | intros n].
    apply emits_mret. }
  intros opening.
  do 3 (apply emits_bind; [apply emits_emit; reflexivity | intros _]).
  apply emits_bind; [apply emits_random | intros x].
  apply emits_bind.
  { destruct (Z.of_nat (length (moves st)) >? 40); emits_steps. }
  intros e.
  apply emits_bind;
    [apply emits_lift, countUndevelopedPieces_returns, Hst | intros n].
  emits_steps.
Qed.

(** [updateLiveHints] queues one update, the hints, at most three of them. *)
Lemma updateLiveHints_run (st : Session) (b : Board) (lastMove : MoveData)
      (classification0 : Classification) (w : World) :
  wf_board (board st) -> wf_board b ->
  exists hints,
    updateLiveHints st b lastMove classification0 w
    = (Normal tt, mkWorld (queue w ++ [SetLiveHints hints]) (draws w))
    /\ (length hints <= 3)%nat.
Proof.
  intros Hst Hb. unfold updateLiveHints.
  destruct (countUndevelopedPieces_returns b (currentPlayer st) Hb) as [n Hn].
  destruct (detectThreats_returns st b (currentPlayer st) Hst Hb) as [ts Hts].
  destruct (evaluateCenterControl_returns st b Hb) as [cc Hcc].
  rewrite Hn, Hts, Hcc.
  destruct (Z.of_nat (length (moves st)) <? 10);
    unfold mbind, lift, mret, emit; cbn [queue draws];
    eexists; (split; [reflexivity | apply firstn_le_length]).
Qed.

Lemma mbind_run {A B : Type} (m : M A) (k : A -> M B) (w w' : World) (a : A) :
  m w = (Normal a, w') -> mbind m k w = k a w'.
Proof. intros H. unfold mbind. now rewrite H. Qed.

(** The whole queue of a run of [makeMove] on a square pair of the board
    whose source holds a piece, with the runs of the functions it calls. *)
Lemma makeMove_trace (st : Session) (rand : nat -> float)
      (fromRow fromCol toRow toCol : Z) (p : Piece) (w : World) :
  wf_board (board st) ->
  on_board fromRow fromCol ->
  on_board toRow toCol ->
  cell (board st) fromRow fromCol = Normal (Some p) ->
  let piece := mkPiece (type p) (color p) true in
  let note := toAlgebraic fromRow fromCol toRow toCol piece in
  exists captured0 b1 newBoard newEval classification0 q1 hints rest d,
    cell (board st) toRow toCol = Normal captured0
    /\ store (board st) toRow toCol (Some piece) = Normal b1
    /\ store b1 fromRow fromCol None = Normal newBoard
    /\ wf_board b1 /\ wf_board newBoard
    /\ makeMove st rand fromRow fromCol toRow toCol w
       = (Normal tt,
          mkWorld
            (queue w
             ++ SetBoard newBoard :: q1
             ++ SetMoves
                  (moves st
                   ++ [mkMoveData (type p) (mkSquare fromRow fromCol)
                         (mkSquare toRow toCol)
                         (if (fromRow =? toRow) && (fromCol =? toCol)
                          then Some piece else captured0)
                         note
                         (currentPlayer st) (Some classification0)
                         (Some newEval)])
                :: SetMoveClassification classification0
                :: AppendNotation (" " ++ note ++ symbol classification0)%string
                :: SetLiveHints hints :: rest)
            d)
    /\ (exists lastMove w0 d0,
          simulateStockfishAnalysis st rand newBoard lastMove w0
          = (Normal newEval, mkWorld (queue w0 ++ q1) d0))
    /\ (exists lastMove w0,
          updateLiveHints st newBoard lastMove classification0 w0
          = (Normal tt, mkWorld (queue w0 ++ [SetLiveHints hints]) (draws w0)))
    /\ (hasKing st newBoard = true ->
        rest = SetCurrentPlayer (opposite (currentPlayer st))
               :: match gameMode st, currentPlayer st with
                  | ai, white => [ScheduleAIMove newBoard]
                  | _, _ => []
                  end)
    /\ (hasKing st newBoard = false ->
        exists qa w0 d0,
          rest = SetGameOver true :: SetIsTimerActive false :: qa
          /\ generatePostGameAnalysis st rand w0
             = (Normal tt, mkWorld (queue w0 ++ qa) d0)).
Proof.
  intros Hst Hfrom Hto Hp piece note.
  destruct (cell_on_board (board st) toRow toCol Hst Hto) as [captured0 Hcap].
  destruct (store_spec (board st) toRow toCol (Some piece) Hst Hto)
    as [b1 [Hb1 [Hwf1 _]]].
  destruct (store_spec b1 fromRow fromCol None Hwf1 Hfrom)
    as [newBoard [Hnb [Hwf2 _]]].
  subst note piece. exists captured0, b1, newBoard.
  unfold makeMove.
  rewrite Hp, Hcap, !mbind_lift, Hb1, mbind_lift, Hnb, mbind_lift, mbind_emit.
  cbn [md_piece md_from md_to captured md_notation player type].
  match goal with
  | |- context [simulateStockfishAnalysis st rand newBoard ?md] =>
      destruct (simulateStockfishAnalysis_emits st rand newBoard md Hst Hwf2
                  (mkWorld (queue w ++ [SetBoard newBoard]) (draws w)))
        as [newEval [q1 [d1 [Hsim _]]]]
  end.
  rewrite (mbind_run _ _ _ _ _ Hsim). cbv beta.
  match goal with
  | |- context [classifyMove st rand ?pe newEval ?md] =>
      pose proof (emits_nothing _ (mkWorld (queue (mkWorld (queue w ++ [SetBoard newBoard]) (draws w)) ++ q1) d1)
                    (classifyMove_emits st rand pe newEval md)) as Hcls
  end.
  destruct Hcls as [classification0 [d2 Hcls]].
  rewrite (mbind_run _ _ _ _ _ Hcls). cbv beta.
  rewrite !mbind_emit. cbn [queue draws].
  match goal with
  | |- context [mbind (updateLiveHints st newBoard ?md ?c) _ ?w0] =>
      destruct (updateLiveHints_run st newBoard md c w0 Hst Hwf2)
        as [hints [Hhints _]]
  end.
  rewrite (mbind_run _ _ _ _ _ Hhints). cbv beta. cbn [queue draws].
  change (existsb _ (concat newBoard)) with (hasKing st newBoard).
  exists newEval, classification0, q1, hints.
  destruct (hasKing st newBoard) eqn:Eking; cbn [negb].
  - rewrite mbind_emit. cbn [queue draws].
    eexists. eexists.
    split; [reflexivity |]. split; [reflexivity |]. split; [reflexivity |].
    split; [exact Hwf1 |]. split; [exact Hwf2 |].
    split; [| split; [eauto | split; [eauto |
              split; [intros _; reflexivity | discriminate]]]].
    destruct (gameMode st), (currentPlayer st);
      unfold emit, mret; cbn [queue draws];
      rewrite <- ?app_assoc; cbn [app]; rewrite <- ?app_assoc; cbn [app];
      rewrite ?app_nil_r; reflexivity.
  - rewrite !mbind_emit. cbn [queue draws].
    match goal with
    | |- context [generatePostGameAnalysis st rand ?w0 = _] =>
        destruct (generatePostGameAnalysis_emits st rand Hst w0)
          as [[] [qa [d3 [Hana _]]]]
    end.
    rewrite Hana. cbn [queue].
    exists (SetGameOver true :: SetIsTimerActive false :: qa), d3.
    split; [reflexivity |]. split; [reflexivity |]. split; [reflexivity |].
    split; [exact Hwf1 |]. split; [exact Hwf2 |].
    split; [| split; [eauto | split; [eauto |
              split; [discriminate | intros _; eauto 6]]]].
    rewrite <- ?app_assoc. cbn [app]. rewrite <- ?app_assoc. cbn [app].
    reflexivity.
Qed.

(** ** Committing a queue *)

Lemma commit_app (s : Session) (q1 q2 : list Update) :
  commit s (q1 ++ q2) = commit (commit s q1) q2.
Proof. apply fold_left_app. Qed.

Lemma commit_cons (s : Session) (u : Update) (q : list Update) :
  commit s (u :: q) = commit (apply_update s u) q.
Proof. reflexivity. Qed.

Lemma commit_engine (s : Session) (q : list Update) :
  forallb engine_update q = true ->
  board (commit s q) = board s
  /\ currentPlayer (commit s q) = currentPlayer s
  /\ moves (commit s q) = moves s
  /\ gameMode (commit s q) = gameMode s.
Proof.
  revert s. induction q as [| u q IH]; intros s Hq; [now cbn |].
  cbn [forallb] in Hq. apply andb_prop in Hq. destruct Hq as [Hu Hq].
  rewrite commit_cons. destruct (IH (apply_update s u) Hq) as [-> [-> [-> ->]]].
  destruct u; try discriminate Hu; now cbn.
Qed.

Lemma commit_analysis (s : Session) (q : list Update) :
  forallb analysis_update q = true -> commit s q = s.
Proof.
  revert s. induction q as [| u q IH]; intros s Hq; [reflexivity |].
  cbn [forallb] in Hq. apply andb_prop in Hq. destruct Hq as [Hu Hq].
  rewrite commit_cons, IH by assumption.
  destruct u; try discriminate Hu; reflexivity.
Qed.

Lemma engine_not_In (q : list Update) (u : Update) :
  forallb engine_update q = true -> engine_update u = false -> ~ In u q.
Proof.
  intros Hq Hu Hin. rewrite forallb_forall in Hq. specialize (Hq u Hin).
  congruence.
Qed.

Lemma analysis_not_In (q : list Update) (u : Update) :
  forallb analysis_update q = true -> analysis_update u = false -> ~ In u q.
Proof.
  intros Hq Hu Hin. rewrite forallb_forall in Hq. specialize (Hq u Hin).
  congruence.
Qed.

(** ** The undeveloped-piece counter *)

Lemma countUndevelopedPieces_range (b : Board) (color0 : Color) :
  wf_board b ->
  exists n, countUndevelopedPieces b color0 = Normal n /\ 0 <= n <= 4.
Proof.
  intros Hwf. unfold countUndevelopedPieces. destruct color0; cbn [foldC];
  repeat read_cell Hwf;
  (eexists; split; [reflexivity |]);
  repeat match goal with
         | |- context [match ?x with Some _ => _ | None => _ end] => destruct x
         | |- context [if negb (moved ?p) then _ else _] => destruct (moved p); cbn [negb]
         end; lia.
Qed.

(** ** The queue of the aggregator *)

Lemma generatePostGameAnalysis_run (st : Session) (rand : nat -> float) (w : World) :
  wf_board (board st) ->
  exists ws ss rs ps d undeveloped,
    generatePostGameAnalysis st rand w
    = (Normal tt,
       mkWorld (queue w ++ [SetWeaknesses ws; SetStrengths ss;
                            SetRecommendations rs; SetPerformanceStats ps;
                            SetShowPostGameAnalysis true]) d)
    /\ map severity ws = map priority rs
    /\ countUndevelopedPieces (board st) white = Normal undeveloped
    /\ tacticalAccuracy ps = num (Z.max 0 (100 - blunderCount st * 20))
    /\ openingKnowledge ps = num (100 - undeveloped * 15)
    /\ (Z.of_nat (length (moves st)) <= 40 -> endgameSkill ps = 0%float).
Proof.
  intros Hst. unfold generatePostGameAnalysis.
  destruct (countUndevelopedPieces_returns (board st) white Hst) as [n Hn].
  rewrite Hn.
  set (tactical := if blunderCount st >? 2 then _ else _).
  assert (Ht : map severity (fst tactical) = map priority (snd tactical))
    by (subst tactical; destruct (blunderCount st >? 2); reflexivity).
  clearbody tactical.
  destruct (Z.of_nat (length (moves st)) >? 10) eqn:E10;
    destruct (Z.of_nat (length (moves st)) >? 40) eqn:E40;
    unfold mbind, lift, mret, emit, Math_random; cbn [queue draws];
    rewrite <- ?app_assoc; cbn [app];
    do 6 eexists;
    (split; [reflexivity |]);
    (split; [rewrite !map_app, Ht; destruct (n >? 1); reflexivity |]);
    (split; [reflexivity |]); (split; [reflexivity |]);
    (split; [reflexivity |]); intros Hle; try reflexivity; lia.
Qed.

Lemma emits_run {A : Type} (P : Update -> bool) (m : M A) (w : World)
      (a : A) (q : list Update) (d : nat) :
  emits P m -> m w = (Normal a, mkWorld (queue w ++ q) d) ->
  forallb P q = true.
Proof.
  intros Hm Hrun. destruct (Hm w) as [a' [q' [d' [Hrun' Hq']]]].
  rewrite Hrun in Hrun'. injection Hrun' as _ Hq _.
  apply app_inv_head in Hq. now subst q'.
Qed.

(** ** Outcome of a move *)

(** What the queue of a run of [makeMove] does to the session it is
    committed to. *)
Lemma makeMove_next (st : Session) (rand : nat -> float)
      (fromRow fromCol toRow toCol : Z) (p : Piece) (w : World) :
  wf_board (board st) ->
  on_board fromRow fromCol ->
  on_board toRow toCol ->
  cell (board st) fromRow fromCol = Normal (Some p) ->
  exists b1 newBoard md q d,
    makeMove st rand fromRow fromCol toRow toCol w
    = (Normal tt, mkWorld (queue w ++ q) d)
    /\ store (board st) toRow toCol (Some (mkPiece (type p) (color p) true))
       = Normal b1
    /\ store b1 fromRow fromCol None = Normal newBoard
    /\ (md_piece md = type p
        /\ md_from md = mkSquare fromRow fromCol
        /\ md_to md = mkSquare toRow toCol
        /\ (fromRow <> toRow \/ fromCol <> toCol ->
            cell (board st) toRow toCol = Normal (captured md))
        /\ player md = currentPlayer st)
    /\ (forall s0,
          board (commit s0 q) = newBoard
          /\ moves (commit s0 q) = moves st ++ [md]
          /\ currentPlayer (commit s0 q)
             = if hasKing st newBoard then opposite (currentPlayer st)
               else currentPlayer s0)
    /\ if hasKing st newBoard
       then (forall g, ~ In (SetGameOver g) q)
            /\ (forall b, In (ScheduleAIMove b) q <->
                          b = newBoard /\ gameMode st = ai
                          /\ currentPlayer st = white)
       else In (SetGameOver true) q
            /\ In (SetIsTimerActive false) q
            /\ In (SetShowPostGameAnalysis true) q
            /\ (forall b, ~ In (ScheduleAIMove b) q)
            /\ exists pre ws ss rs ps,
                q = pre ++ [SetWeaknesses ws; SetStrengths ss;
                            SetRecommendations rs; SetPerformanceStats ps;
                            SetShowPostGameAnalysis true]
                /\ tacticalAccuracy ps
                   = num (Z.max 0 (100 - blunderCount st * 20)).
Proof.
  intros Hst Hfrom Hto Hp.
  destruct (makeMove_trace st rand fromRow fromCol toRow toCol p w
              Hst Hfrom Hto Hp)
    as (captured0 & b1 & newBoard & newEval & classification0 & q1 & hints
        & rest & d & Hcap & Hb1 & Hnb & _ & Hwf & Hrun & (lm & w0 & d0 & Hsim)
        & _ & Hking & Hover).
  assert (Hq1 : forallb engine_update q1 = true).
  { eapply emits_run; [| exact Hsim].
    apply simulateStockfishAnalysis_emits; assumption. }
  exists b1, newBoard.
  exists (mkMoveData (type p) (mkSquare fromRow fromCol) (mkSquare toRow toCol)
            (if (fromRow =? toRow) && (fromCol =? toCol)
             then Some (mkPiece (type p) (color p) true) else captured0)
            (toAlgebraic fromRow fromCol toRow toCol
               (mkPiece (type p) (color p) true))
            (currentPlayer st) (Some classification0) (Some newEval)).
  eexists. exists d.
  split; [exact Hrun |]. split; [exact Hb1 |]. split; [exact Hnb |].
  cbn [md_piece md_from md_to captured player].
  split.
  { do 3 (split; [reflexivity |]). split; [| reflexivity].
    intros Hne.
    replace ((fromRow =? toRow) && (fromCol =? toCol)) with false;
      [exact Hcap |].
    symmetry. apply andb_false_iff.
    destruct Hne; [left | right]; now apply Z.eqb_neq. }
  assert (Hcommit : forall s0 : Session,
             let s1 := commit (apply_update s0 (SetBoard newBoard)) q1 in
             board s1 = newBoard /\ currentPlayer s1 = currentPlayer s0
             /\ moves s1 = moves s0).
  { intros s0 s1.
    destruct (commit_engine (apply_update s0 (SetBoard newBoard)) q1 Hq1)
      as (Hb & Hc & Hm & _).
    subst s1. rewrite Hb, Hc, Hm. now cbn. }
  destruct (hasKing st newBoard) eqn:Eking.
  - rewrite (Hking eq_refl).
    assert (Hshape :
              forall s tail,
                tail = [] \/ tail = [ScheduleAIMove newBoard] ->
                commit s tail = s).
    { intros s tail [-> | ->]; reflexivity. }
    split.
    + intros s0. destruct (Hcommit s0) as (Hb & Hc & Hm).
      rewrite commit_cons, commit_app, !commit_cons. cbn [apply_update].
      rewrite Hshape by (destruct (gameMode st), (currentPlayer st); auto).
      cbn [moves board currentPlayer]. rewrite ?Hb. now repeat split.
    + split.
      * intros g [Hin | Hin]; [discriminate |].
        apply in_app_or in Hin. destruct Hin as [Hin | Hin].
        -- now apply (engine_not_In q1 (SetGameOver g) Hq1).
        -- cbn in Hin.
           destruct (gameMode st), (currentPlayer st); cbn in Hin;
             repeat (destruct Hin as [Hin | Hin]; [discriminate |]);
             exact Hin.
      * intros b. split.
        -- intros [Hin | Hin]; [discriminate |].
           apply in_app_or in Hin. destruct Hin as [Hin | Hin].
           { now apply (engine_not_In q1 (ScheduleAIMove b) Hq1) in Hin. }
           cbn in Hin.
           destruct (gameMode st), (currentPlayer st); cbn in Hin;
             repeat (destruct Hin as [Hin | Hin]; [try discriminate |]);
             try contradiction.
           injection Hin as <-. now repeat split.
        -- intros [-> [Hg Hc]]. rewrite Hg, Hc. right. apply in_or_app.
           right. cbn. tauto.
  - destruct (Hover eq_refl) as (qa & w1 & d1 & -> & Hana).
    destruct (generatePostGameAnalysis_run st rand w1 Hst)
      as (ws & ss & rs & ps & d2 & u & Hana' & _ & _ & Htactical & _).
    rewrite Hana in Hana'. injection Hana' as Hqa _.
    apply app_inv_head in Hqa. subst qa.
    split.
    + intros s0. destruct (Hcommit s0) as (Hb & Hc & Hm).
      rewrite commit_cons, commit_app.
      cbn [commit fold_left apply_update moves board currentPlayer].
      rewrite ?Hb, ?Hc. now repeat split.
    + split; [right; apply in_or_app; right; cbn; tauto |].
      split; [right; apply in_or_app; right; cbn; tauto |].
      split; [right; apply in_or_app; right; cbn; tauto |].
      split.
      * intros b [Hin | Hin]; [discriminate |].
        apply in_app_or in Hin. destruct Hin as [Hin | Hin].
        -- now apply (engine_not_In q1 (ScheduleAIMove b) Hq1) in Hin.
        -- cbn in Hin.
           repeat (destruct Hin as [Hin | Hin]; [discriminate |]). exact Hin.
      * eexists (SetBoard newBoard :: q1 ++ [_; _; _; _; _; _]).
        exists ws, ss, rs, ps. split; [| exact Htactical].
        cbn [app]. f_equal. rewrite <- app_assoc. reflexivity.
Qed.

(** X6. A run of [makeMove] on two different squares of the board, the
    source holding a piece, returns and appends one record to the move list:
    the kind of the piece, the two squares, what stood on the destination,
    and the player of the render.  If a king of the other color is left on
    the new board, the turn passes to the other color, the game is not
    declared over, and a reply of the engine is scheduled, on the new board,
    exactly in the mode [ai] with white the player of the render.  If none
    is left, the game is declared over, the clock is stopped, the post-game
    analysis is shown, the turn stays, and no reply is scheduled. *)
Theorem makeMove_passes_turn_or_ends_game
        (st : Session) (rand : nat -> float)
        (fromRow fromCol toRow toCol : Z) (p : Piece) :
  wf_board (board st) ->
  on_board fromRow fromCol ->
  on_board toRow toCol ->
  fromRow <> toRow \/ fromCol <> toCol ->
  cell (board st) fromRow fromCol = Normal (Some p) ->
  let q := queue (snd (makeMove st rand fromRow fromCol toRow toCol idle)) in
  let next := commit st q in
  fst (makeMove st rand fromRow fromCol toRow toCol idle) = Normal tt
  /\ exists md,
      moves next = moves st ++ [md]
      /\ md_piece md = type p
      /\ md_from md = mkSquare fromRow fromCol
      /\ md_to md = mkSquare toRow toCol
      /\ cell (board st) toRow toCol = Normal (captured md)
      /\ player md = currentPlayer st
      /\ if hasKing st (board next)
         then currentPlayer next = opposite (currentPlayer st)
              /\ (forall g, ~ In (SetGameOver g) q)
              /\ (forall b, In (ScheduleAIMove b) q <->
                            b = board next /\ gameMode st = ai
                            /\ currentPlayer st = white)
         else currentPlayer next = currentPlayer st
              /\ In (SetGameOver true) q
              /\ In (SetIsTimerActive false) q
              /\ In (SetShowPostGameAnalysis true) q
              /\ (forall b, ~ In (ScheduleAIMove b) q).
Proof.
  intros Hst Hfrom Hto Hne Hp q next.
  destruct (makeMove_next st rand fromRow fromCol toRow toCol p idle
              Hst Hfrom Hto Hp)
    as (b1 & newBoard & md & q' & d & Hrun & _ & _
        & (Hpiece & Hmfrom & Hmto & Hcap & Hplayer) & Hnext & Hqueue).
  assert (Hq : q = q') by (subst q; now rewrite Hrun).
  destruct (Hnext st) as (Hb & Hm & Hc).
  split; [now rewrite Hrun |].
  subst next. rewrite Hq, Hb, Hm, Hc. exists md.
  split; [reflexivity |]. do 3 (split; [assumption |]).
  split; [exact (Hcap Hne) |]. split; [exact Hplayer |].
  destruct (hasKing st newBoard); (split; [reflexivity |]);
    [exact Hqueue |].
  destruct Hqueue as (Hover & Htimer & Hshow & Hnone & _). now repeat split.
Qed.

Lemma makeMove_passes_turn_or_ends_game_witness :
  exists md,
    moves (play initialSession zeros 6 4 4 4) = [md] /\ md_piece md = pawn.
Proof.
  destruct (makeMove_passes_turn_or_ends_game initialSession zeros 6 4 4 4
              (mkPiece pawn white false))
    as (_ & md & Hmoves & Hpiece & _).
  - exact initializeBoard_wf.
  - unfold on_board. lia.
  - unfold on_board. lia.
  - left. lia.
  - reflexivity.
  - exists md. split; [exact Hmoves | exact Hpiece].
Defined.

(** ** Squares of a board and its list of pieces *)

Lemma index_In {A : Type} (l : list A) (i : Z) (x : A) :
  index l i = Some x -> In x l.
Proof.
  unfold index. destruct (i <? 0); [discriminate |]. apply nth_error_In.
Qed.

Lemma In_index {A : Type} (l : list A) (x : A) :
  In x l -> exists i, 0 <= i < Z.of_nat (length l) /\ index l i = Some x.
Proof.
  intros Hin. apply In_nth_error in Hin. destruct Hin as [n Hn].
  exists (Z.of_nat n). split.
  - split; [lia |]. apply Nat2Z.inj_lt. apply nth_error_Some. congruence.
  - unfold index. destruct (Z.ltb_spec (Z.of_nat n) 0); [lia |].
    now rewrite Nat2Z.id.
Qed.

Lemma index_range {A : Type} (l : list A) (i : Z) (x : A) :
  index l i = Some x -> 0 <= i < Z.of_nat (length l).
Proof.
  unfold index. destruct (Z.ltb_spec i 0) as [Hneg | Hpos]; [discriminate |].
  intros Hnth. split; [assumption |].
  assert (Hn : (Z.to_nat i < length l)%nat) by (apply nth_error_Some; congruence).
  lia.
Qed.

Lemma cell_Some_on_board (b : Board) (r c : Z) (q : Piece) :
  wf_board b -> cell b r c = Normal (Some q) -> on_board r c.
Proof.
  intros [Hlen Hrows] Hcell. unfold cell in Hcell.
  destruct (index b r) as [row |] eqn:Er; [| discriminate].
  destruct (index row c) as [x |] eqn:Ec; [| discriminate].
  pose proof (index_range _ _ _ Er) as Hr.
  pose proof (index_range _ _ _ Ec) as Hc.
  rewrite Forall_forall in Hrows.
  rewrite (Hrows row (index_In _ _ _ Er)) in Hc.
  unfold Row in *. rewrite Hlen in Hr. unfold on_board. lia.
Qed.

Lemma In_concat_cell (b : Board) (x : option Piece) :
  wf_board b ->
  In x (concat b) <-> exists r c, on_board r c /\ cell b r c = Normal x.
Proof.
  intros Hwf. pose proof Hwf as [Hlen Hrows]. rewrite Forall_forall in Hrows.
  rewrite in_concat. split.
  - intros [row [Hrow Hx]].
    destruct (In_index _ _ Hrow) as [r [Hr Er]].
    destruct (In_index _ _ Hx) as [c [Hc Ec]].
    rewrite (Hrows row Hrow) in Hc. unfold Row in *. rewrite Hlen in Hr.
    exists r, c. split; [unfold on_board; lia |].
    unfold cell, Row. now rewrite Er, Ec.
  - intros [r [c [[Hr Hc] Hcell]]].
    destruct (wf_board_row b r Hwf Hr) as [row [Er Hrowlen]].
    exists row. split; [exact (index_In _ _ _ Er) |].
    unfold cell in Hcell. rewrite Er in Hcell.
    destruct (index_in_range row c) as [y Ey]; [rewrite Hrowlen; lia |].
    rewrite Ey in Hcell. injection Hcell as <-. exact (index_In _ _ _ Ey).
Qed.

Lemma hasKing_spec (st : Session) (b : Board) :
  wf_board b ->
  hasKing st b = true <->
  exists r c q, on_board r c /\ cell b r c = Normal (Some q)
                /\ type q = king /\ color q <> currentPlayer st.
Proof.
  intros Hwf. unfold hasKing. rewrite existsb_exists. split.
  - intros [[q |] [Hin Hq]]; [| discriminate].
    apply (In_concat_cell b (Some q) Hwf) in Hin.
    destruct Hin as [r [c [Hon Hcell]]].
    apply andb_prop in Hq. destruct Hq as [Hk Hc].
    exists r, c, q. repeat split; try assumption; try apply Hon.
    + destruct (type q); try discriminate Hk; reflexivity.
    + intros Heq. rewrite Heq in Hc. destruct (currentPlayer st); discriminate.
  - intros [r [c [q [Hon [Hcell [Hk Hc]]]]]].
    exists (Some q). split.
    + apply (In_concat_cell b (Some q) Hwf). now exists r, c.
    + rewrite Hk. cbn. destruct (color q), (currentPlayer st);
        try reflexivity; now contradiction Hc.
Qed.

(** ** The engine's reply *)

Lemma selectedMove_In (rand : nat -> float) (aiDifficulty : Difficulty)
      (allMoves : list Candidate) (m : Candidate) (w w1 : World) :
  selectedMove rand aiDifficulty allMoves w = (Normal (Some m), w1) ->
  In m allMoves.
Proof.
  unfold selectedMove, mbind, Math_random, mret, pick.
  destruct aiDifficulty; intros H; injection H as H _;
    repeat match type of H with
           | match ?x with Some _ => _ | None => _ end = _ =>
               destruct x; [| discriminate H]
           end;
    exact (index_In _ _ _ H).
Qed.

(** The squares of a board after a piece was put on one square and another
    square was emptied. *)
Lemma move_cells (b b1 nb : Board) (fromRow fromCol toRow toCol : Z)
      (piece : Piece) :
  wf_board b -> on_board fromRow fromCol -> on_board toRow toCol ->
  store b toRow toCol (Some piece) = Normal b1 ->
  store b1 fromRow fromCol None = Normal nb ->
  wf_board nb
  /\ cell nb fromRow fromCol = Normal None
  /\ (fromRow <> toRow \/ fromCol <> toCol ->
      cell nb toRow toCol = Normal (Some piece))
  /\ forall r c, r <> fromRow \/ c <> fromCol -> r <> toRow \/ c <> toCol ->
                 cell nb r c = cell b r c.
Proof.
  intros Hwf Hfrom Hto Hb1 Hnb.
  destruct (store_spec b toRow toCol (Some piece) Hwf Hto)
    as (b1' & Hb1' & Hwf1 & Hat1 & Hframe1).
  rewrite Hb1 in Hb1'. injection Hb1' as <-.
  destruct (store_spec b1 fromRow fromCol None Hwf1 Hfrom)
    as (nb' & Hnb' & Hwf2 & Hat2 & Hframe2).
  rewrite Hnb in Hnb'. injection Hnb' as <-.
  split; [exact Hwf2 |]. split; [exact Hat2 |]. split.
  - intros Hne. rewrite Hframe2; [exact Hat1 |].
    destruct Hne; [left | right]; congruence.
  - intros r c H1 H2. rewrite Hframe2 by exact H1. now apply Hframe1.
Qed.

(** A reply of the engine is scheduled only in the mode [ai], by a move of
    white that leaves a black king on the board, and on the board of that
    move. *)
Lemma makeMove_schedule_inv (st : Session) (rand : nat -> float)
      (fromRow fromCol toRow toCol : Z) (p : Piece) (b : Board) :
  wf_board (board st) ->
  on_board fromRow fromCol ->
  on_board toRow toCol ->
  cell (board st) fromRow fromCol = Normal (Some p) ->
  In (ScheduleAIMove b)
     (queue (snd (makeMove st rand fromRow fromCol toRow toCol idle))) ->
  exists b1,
    store (board st) toRow toCol (Some (mkPiece (type p) (color p) true))
    = Normal b1
    /\ store b1 fromRow fromCol None = Normal b
    /\ gameMode st = ai /\ currentPlayer st = white
    /\ hasKing st b = true.
Proof.
  intros Hst Hfrom Hto Hp Hin.
  destruct (makeMove_trace st rand fromRow fromCol toRow toCol p idle
              Hst Hfrom Hto Hp)
    as (captured0 & b1 & newBoard & newEval & classification0 & q1 & hints
        & rest & d & Hcap & Hb1 & Hnb & _ & Hwf & Hrun & (lm & w0 & d0 & Hsim)
        & _ & Hking & Hover).
  assert (Hq1 : forallb engine_update q1 = true).
  { eapply emits_run; [| exact Hsim].
    apply simulateStockfishAnalysis_emits; assumption. }
  rewrite Hrun in Hin. cbn [snd queue idle app] in Hin.
  destruct Hin as [Hin | Hin]; [discriminate |].
  apply in_app_or in Hin. destruct Hin as [Hin | Hin];
    [now apply (engine_not_In q1 (ScheduleAIMove b) Hq1) in Hin |].
  do 4 (destruct Hin as [Hin | Hin]; [discriminate |]).
  destruct (hasKing st newBoard) eqn:Eking.
  - rewrite (Hking eq_refl) in Hin.
    destruct Hin as [Hin | Hin]; [discriminate |].
    destruct (gameMode st), (currentPlayer st); cbn in Hin;
      try contradiction.
    destruct Hin as [Hin | []]. injection Hin as <-.
    exists b1. now repeat split.
  - destruct (Hover eq_refl) as (qa & w1 & d1 & -> & Hana).
    destruct (generatePostGameAnalysis_run st rand w1 Hst)
      as (ws & ss & rs & ps & d2 & u & Hana' & _).
    rewrite Hana in Hana'. injection Hana' as Hqa _.
    apply app_inv_head in Hqa. subst qa. cbn in Hin.
    repeat (destruct Hin as [Hin | Hin]; [discriminate |]). contradiction.
Qed.

(** With a selection in hand, [makeAIMove] is the [makeMove] of the
    selected squares. *)
Lemma makeAIMove_run (st : Session) (rand : nat -> float)
      (aiDifficulty : Difficulty) (currentBoard : Board)
      (allMoves : list Candidate) (m : Candidate) (w w1 : World) :
  generateAllPossibleMoves st currentBoard black = Normal allMoves ->
  selectedMove rand aiDifficulty allMoves w = (Normal (Some m), w1) ->
  makeAIMove st rand aiDifficulty currentBoard w
  = makeMove st rand (sq_row (from m)) (sq_col (from m))
             (sq_row (to m)) (sq_col (to m)) w1.
Proof.
  intros Hgen Hsel. pose proof (selectedMove_In _ _ _ _ _ _ Hsel) as Hin.
  unfold makeAIMove. rewrite Hgen, mbind_lift.
  destruct allMoves as [| m0 l]; [contradiction Hin |].
  cbn [length]. destruct (Z.eqb_spec (Z.of_nat (S (length l))) 0); [lia |].
  now rewrite (mbind_run _ _ _ _ _ Hsel).
Qed.

(** The draws of a selection leave the queue alone. *)
Lemma selectedMove_queue (rand : nat -> float) (aiDifficulty : Difficulty)
      (allMoves : list Candidate) (w : World) :
  queue (snd (selectedMove rand aiDifficulty allMoves w)) = queue w.
Proof.
  unfold selectedMove, mbind, Math_random, mret.
  destruct aiDifficulty; reflexivity.
Qed.

(** The reply to a move of white, run in the render of that move. *)
Lemma reply_run (st : Session) (rand : nat -> float)
      (aiDifficulty : Difficulty) (fromRow fromCol toRow toCol : Z)
      (p : Piece) (newBoard : Board) (allMoves : list Candidate)
      (m : Candidate) (w w1 : World) :
  wf_board (board st) ->
  on_board fromRow fromCol ->
  on_board toRow toCol ->
  cell (board st) fromRow fromCol = Normal (Some p) ->
  color p = white ->
  In (ScheduleAIMove newBoard)
     (queue (snd (makeMove st rand fromRow fromCol toRow toCol idle))) ->
  generateAllPossibleMoves st newBoard black = Normal allMoves ->
  selectedMove rand aiDifficulty allMoves w = (Normal (Some m), w1) ->
  exists piece,
    cell (board st) (sq_row (from m)) (sq_col (from m)) = Normal (Some piece)
    /\ color piece = black
    /\ on_board (sq_row (from m)) (sq_col (from m))
    /\ on_board (sq_row (to m)) (sq_col (to m))
    /\ (sq_row (from m) <> sq_row (to m) \/ sq_col (from m) <> sq_col (to m))
    /\ isValidMove st (sq_row (from m)) (sq_col (from m))
                   (sq_row (to m)) (sq_col (to m)) piece = Normal true
    /\ makeAIMove st rand aiDifficulty newBoard w
       = makeMove st rand (sq_row (from m)) (sq_col (from m))
                  (sq_row (to m)) (sq_col (to m)) w1
    /\ queue w1 = queue w
    /\ gameMode st = ai /\ currentPlayer st = white
    /\ exists kr kc k,
         cell (board st) kr kc = Normal (Some k)
         /\ type k = king /\ color k = black.
Proof.
  intros Hst Hfrom Hto Hp Hwhite Hsched Hgen Hsel.
  destruct (makeMove_schedule_inv st rand fromRow fromCol toRow toCol p
              newBoard Hst Hfrom Hto Hp Hsched)
    as (b1 & Hb1 & Hnb & Hmode & Hturn & Hking).
  destruct (move_cells _ _ _ _ _ _ _ _ Hst Hfrom Hto Hb1 Hnb)
    as (Hwf & Hempty & Hput & Hframe).
  assert (Hblack : forall r c q,
             cell newBoard r c = Normal (Some q) -> color q = black ->
             cell (board st) r c = Normal (Some q)).
  { intros r c q Hq Hc.
    destruct (Z.eq_dec r fromRow) as [-> | Hr].
    - destruct (Z.eq_dec c fromCol) as [-> | Hc'].
      + rewrite Hempty in Hq. discriminate.
      + destruct (Z.eq_dec fromRow toRow) as [-> | Hr'].
        * destruct (Z.eq_dec c toCol) as [-> | Hc''].
          -- rewrite Hput in Hq by (right; congruence).
             injection Hq as <-. cbn in Hc. congruence.
          -- rewrite Hframe in Hq by (right; assumption). exact Hq.
        * rewrite Hframe in Hq; [exact Hq | right; assumption | left; assumption].
    - destruct (Z.eq_dec r toRow) as [-> | Hr'].
      + destruct (Z.eq_dec c toCol) as [-> | Hc''].
        * rewrite Hput in Hq by (left; congruence).
          injection Hq as <-. cbn in Hc. congruence.
        * rewrite Hframe in Hq; [exact Hq | left; assumption | right; assumption].
      + rewrite Hframe in Hq; [exact Hq | left; assumption | left; assumption]. }
  pose proof (selectedMove_In _ _ _ _ _ _ Hsel) as Hin.
  destruct (generated_move_inv st newBoard black allMoves m Hgen Hin)
    as (r & row & c & piece & tr & tc & -> & Hrow & Hcol & _ & _ & Hcolor & Hok).
  cbn [from to sq_row sq_col].
  pose proof (indexed_cell _ _ _ _ _ Hrow Hcol) as Hcell.
  pose proof (wf_indexed _ _ _ _ _ Hwf Hrow Hcol) as Hon.
  destruct (isValidMove_accepts _ _ _ _ _ _ Hok) as (Hdest & Hne & _).
  exists piece.
  split; [now apply Hblack |]. split; [exact Hcolor |].
  split; [exact Hon |]. split; [exact Hdest |]. split; [exact Hne |].
  split; [exact Hok |].
  split; [exact (makeAIMove_run _ _ _ _ _ _ _ _ Hgen Hsel) |].
  split.
  { pose proof (selectedMove_queue rand aiDifficulty allMoves w) as Hq.
    now rewrite Hsel in Hq. }
  split; [exact Hmode |]. split; [exact Hturn |].
  apply (hasKing_spec st newBoard Hwf) in Hking.
  destruct Hking as (kr & kc & k & _ & Hk & Hkind & Hkc).
  assert (Hkb : color k = black).
  { rewrite Hturn in Hkc. destruct (color k); [contradiction | reflexivity]. }
  exists kr, kc, k. split; [now apply Hblack |]. now split.
Qed.

(** X7. The reply of the engine is computed on the board of the render that
    scheduled it, not on the board it is handed.  After a move of white in
    the mode [ai], whatever the difficulty and whichever candidate the
    engine selects, [makeAIMove] returns; the candidate's source holds a
    black piece on the board before white's move; and the board of the
    render that follows the reply is that earlier board with the black piece
    moved: every other square, the two squares of white's move included when
    the reply does not touch them, is as it was before white moved. *)
Theorem reply_is_built_on_the_board_before_the_move
        (st : Session) (rand : nat -> float) (aiDifficulty : Difficulty)
        (fromRow fromCol toRow toCol : Z) (p : Piece) (newBoard : Board)
        (allMoves : list Candidate) (m : Candidate) (w w1 : World) :
  wf_board (board st) ->
  on_board fromRow fromCol ->
  on_board toRow toCol ->
  cell (board st) fromRow fromCol = Normal (Some p) ->
  color p = white ->
  In (ScheduleAIMove newBoard)
     (queue (snd (makeMove st rand fromRow fromCol toRow toCol idle))) ->
  generateAllPossibleMoves st newBoard black = Normal allMoves ->
  selectedMove rand aiDifficulty allMoves w = (Normal (Some m), w1) ->
  exists piece q d,
    makeAIMove st rand aiDifficulty newBoard w
    = (Normal tt, mkWorld (queue w ++ q) d)
    /\ cell (board st) (sq_row (from m)) (sq_col (from m))
       = Normal (Some piece)
    /\ color piece = black
    /\ let next := commit (play st rand fromRow fromCol toRow toCol) q in
       cell (board next) (sq_row (to m)) (sq_col (to m))
       = Normal (Some (mkPiece (type piece) black true))
       /\ cell (board next) (sq_row (from m)) (sq_col (from m)) = Normal None
       /\ forall r c,
           r <> sq_row (from m) \/ c <> sq_col (from m) ->
           r <> sq_row (to m) \/ c <> sq_col (to m) ->
           cell (board next) r c = cell (board st) r c.
Proof.
  intros Hst Hfrom Hto Hp Hwhite Hsched Hgen Hsel.
  destruct (reply_run st rand aiDifficulty fromRow fromCol toRow toCol p
              newBoard allMoves m w w1 Hst Hfrom Hto Hp Hwhite Hsched Hgen Hsel)
    as (piece & Hpiece & Hblack & Hsrc & Hdst & Hne & _ & Hrun & Hq & _).
  destruct (makeMove_run st rand _ _ _ _ piece w1 Hst Hsrc Hdst Hpiece)
    as (b1 & nb & q & d & Hb1 & Hnb & _ & _ & Hmove & Hquiet).
  destruct (move_cells _ _ _ _ _ _ _ _ Hst Hsrc Hdst Hb1 Hnb)
    as (_ & Hempty & Hput & Hframe).
  exists piece, (SetBoard nb :: q), d.
  split; [rewrite Hrun, Hmove, Hq; reflexivity |].
  split; [exact Hpiece |]. split; [exact Hblack |].
  cbv zeta. rewrite commit_cons, commit_leaves_board by exact Hquiet.
  cbn [apply_update board]. rewrite <- Hblack at 1.
  split; [exact (Hput Hne) |]. split; [exact Hempty |]. exact Hframe.
Qed.

Lemma reply_is_built_on_the_board_before_the_move_witness :
  let reply :=
    queue (snd (makeAIMove initialSession zeros advanced
                           (board (play initialSession zeros 6 4 4 4)) idle)) in
  let next := commit (play initialSession zeros 6 4 4 4) reply in
  cell (board next) 6 4 = Normal (Some (mkPiece pawn white false))
  /\ cell (board next) 4 4 = Normal None.
Proof.
  destruct (reply_is_built_on_the_board_before_the_move
              initialSession zeros advanced 6 4 4 4 (mkPiece pawn white false)
              (board (play initialSession zeros 6 4 4 4))
              (match generateAllPossibleMoves initialSession
                       (board (play initialSession zeros 6 4 4 4)) black with
               | Normal l => l
               | _ => []
               end)
              (mkCandidate (mkSquare 0 1) (mkSquare 2 0) "Kb8-a6") idle idle)
    as (piece & q & d & Hrun & _ & _ & _ & _ & Hframe).
  - exact initializeBoard_wf.
  - unfold on_board. lia.
  - unfold on_board. lia.
  - reflexivity.
  - reflexivity.
  - vm_compute. tauto.
  - vm_compute. reflexivity.
  - vm_compute. reflexivity.
  - cbv zeta. rewrite Hrun. cbn [snd queue idle app].
    split; (rewrite Hframe; [reflexivity | cbn; lia | cbn; lia]).
Defined.

(** X8. The reply of the engine does not hand the turn back.  Under the
    conditions of X7 the reply is recorded in the move list as a move of
    white, in the place of white's own move (the list of the next render is
    the list before white moved plus the reply); the player to move of the
    next render is black; and another reply is scheduled, on the board of
    the next render. *)
Theorem reply_keeps_the_turn_and_is_rescheduled
        (st : Session) (rand : nat -> float) (aiDifficulty : Difficulty)
        (fromRow fromCol toRow toCol : Z) (p : Piece) (newBoard : Board)
        (allMoves : list Candidate) (m : Candidate) (w w1 : World) :
  wf_board (board st) ->
  on_board fromRow fromCol ->
  on_board toRow toCol ->
  cell (board st) fromRow fromCol = Normal (Some p) ->
  color p = white ->
  In (ScheduleAIMove newBoard)
     (queue (snd (makeMove st rand fromRow fromCol toRow toCol idle))) ->
  generateAllPossibleMoves st newBoard black = Normal allMoves ->
  selectedMove rand aiDifficulty allMoves w = (Normal (Some m), w1) ->
  exists md q d,
    makeAIMove st rand aiDifficulty newBoard w
    = (Normal tt, mkWorld (queue w ++ q) d)
    /\ let next := commit (play st rand fromRow fromCol toRow toCol) q in
       moves next = moves st ++ [md]
       /\ player md = white
       /\ md_from md = from m /\ md_to md = to m
       /\ currentPlayer next = black
       /\ In (ScheduleAIMove (board next)) q.
Proof.
  intros Hst Hfrom Hto Hp Hwhite Hsched Hgen Hsel.
  destruct (reply_run st rand aiDifficulty fromRow fromCol toRow toCol p
              newBoard allMoves m w w1 Hst Hfrom Hto Hp Hwhite Hsched Hgen Hsel)
    as (piece & Hpiece & Hblack & Hsrc & Hdst & Hne & Hok & Hrun & Hq
        & Hmode & Hturn & kr & kc & k & Hk & Hkind & Hkcolor).
  destruct (makeMove_next st rand _ _ _ _ piece w1 Hst Hsrc Hdst Hpiece)
    as (b1 & nb & md & q & d & Hmove & Hb1 & Hnb
        & (_ & Hmfrom & Hmto & _ & Hplayer) & Hnext & Hqueue).
  destruct (move_cells _ _ _ _ _ _ _ _ Hst Hsrc Hdst Hb1 Hnb)
    as (Hwf & Hempty & Hput & Hframe).
  assert (Hking : hasKing st nb = true).
  { apply (hasKing_spec st nb Hwf). rewrite Hturn.
    destruct (isValidMove_accepts _ _ _ _ _ _ Hok) as (_ & _ & target & Ht & Hforeign).
    destruct (Z.eq_dec kr (sq_row (from m))) as [Hr | Hr];
      [destruct (Z.eq_dec kc (sq_col (from m))) as [Hc | Hc] |].
    - (* the king itself moves *)
      subst kr kc. rewrite Hk in Hpiece. injection Hpiece as <-.
      exists (sq_row (to m)), (sq_col (to m)),
        (mkPiece (type k) (color k) true).
      split; [exact Hdst |]. split; [exact (Hput Hne) |].
      cbn [type color]. split; [exact Hkind |]. rewrite Hkcolor. discriminate.
    - exists kr, kc, k. split; [exact (cell_Some_on_board _ _ _ _ Hst Hk) |].
      split; [| split; [exact Hkind | rewrite Hkcolor; discriminate]].
      rewrite Hframe; [exact Hk | right; exact Hc |].
      destruct (Z.eq_dec kr (sq_row (to m))) as [Hr' | Hr']; [| left; exact Hr'].
      destruct (Z.eq_dec kc (sq_col (to m))) as [Hc' | Hc']; [| right; exact Hc'].
      subst kr kc. rewrite <- Hr', Hk in Ht. injection Ht as <-.
      specialize (Hforeign k eq_refl). rewrite Hkcolor, Hblack in Hforeign.
      discriminate.
    - exists kr, kc, k. split; [exact (cell_Some_on_board _ _ _ _ Hst Hk) |].
      split; [| split; [exact Hkind | rewrite Hkcolor; discriminate]].
      rewrite Hframe; [exact Hk | left; exact Hr |].
      destruct (Z.eq_dec kr (sq_row (to m))) as [Hr' | Hr']; [| left; exact Hr'].
      destruct (Z.eq_dec kc (sq_col (to m))) as [Hc' | Hc']; [| right; exact Hc'].
      subst kr kc. rewrite Hk in Ht. injection Ht as <-.
      specialize (Hforeign k eq_refl). rewrite Hkcolor, Hblack in Hforeign.
      discriminate. }
  rewrite Hking in Hnext, Hqueue. destruct Hqueue as [_ Hschedule].
  exists md, q, d.
  split; [rewrite Hrun, Hmove, Hq; reflexivity |].
  cbv zeta.
  destruct (Hnext (play st rand fromRow fromCol toRow toCol))
    as (Hb & Hm & Hc).
  rewrite Hb, Hm, Hc, Hturn.
  split; [reflexivity |]. split; [congruence |].
  split; [rewrite Hmfrom; destruct (from m); reflexivity |].
  split; [rewrite Hmto; destruct (to m); reflexivity |].
  split; [reflexivity |].
  apply Hschedule. now repeat split.
Qed.

Lemma reply_keeps_the_turn_and_is_rescheduled_witness :
  let reply :=
    queue (snd (makeAIMove initialSession zeros advanced
                           (board (play initialSession zeros 6 4 4 4)) idle)) in
  currentPlayer (commit (play initialSession zeros 6 4 4 4) reply) = black.
Proof.
  destruct (reply_keeps_the_turn_and_is_rescheduled
              initialSession zeros advanced 6 4 4 4 (mkPiece pawn white false)
              (board (play initialSession zeros 6 4 4 4))
              (match generateAllPossibleMoves initialSession
                       (board (play initialSession zeros 6 4 4 4)) black with
               | Normal l => l
               | _ => []
               end)
              (mkCandidate (mkSquare 0 1) (mkSquare 2 0) "Kb8-a6") idle idle)
    as (md & q & d & Hrun & _ & _ & _ & _ & Hturn & _).
  - exact initializeBoard_wf.
  - unfold on_board. lia.
  - unfold on_board. lia.
  - reflexivity.
  - reflexivity.
  - vm_compute. tauto.
  - vm_compute. reflexivity.
  - vm_compute. reflexivity.
  - cbv zeta. rewrite Hrun. exact Hturn.
Defined.

(** ** Clicks *)

Lemma leaves_board_not_In (q : list Update) (b : Board) :
  forallb leaves_board q = true -> ~ In (SetBoard b) q.
Proof.
  intros Hq Hin. rewrite forallb_forall in Hq. now specialize (Hq _ Hin).
Qed.

(** The handler past its two guards: the clock may be started, nothing
    else is queued before the squares are looked at. *)
Lemma timer_start (ui : Controls) (st : Session) {B : Type} (k : M B) :
  exists pre,
    (pre = [] \/ pre = [SetIsTimerActive true])
    /\ (pre = [] <->
        negb (isTimerActive ui) && (Z.of_nat (length (moves st)) =? 0) = false)
    /\ forall w,
        mbind (if negb (isTimerActive ui) && (Z.of_nat (length (moves st)) =? 0)
               then emit (SetIsTimerActive true)
               else mret tt) (fun _ => k) w
        = k (mkWorld (queue w ++ pre) (draws w)).
Proof.
  destruct (negb (isTimerActive ui) && (Z.of_nat (length (moves st)) =? 0)).
  - exists [SetIsTimerActive true]. split; [now right |].
    split; [split; discriminate | reflexivity].
  - exists []. split; [now left |]. split; [tauto |].
    intros [q d]. unfold mbind, mret. cbn. now rewrite app_nil_r.
Qed.

(** X9. A click changes the board only by a move that [isValidMove] accepts,
    of the piece on the selected square, to the clicked square.  If a click
    queues a board, then the game is not over, it is not black's turn in the
    mode [ai], a square is selected and holds a piece, [isValidMove] accepts
    the move of that piece to the clicked square, the handler returns and
    clears the selection, and the queued board is the board of the render
    with that piece, marked as moved, on the clicked square, the selected
    square empty and every other square unchanged. *)
Theorem click_moves_only_the_selected_piece_legally
        (st : Session) (ui : Controls) (rand : nat -> float) (row col : Z)
        (b' : Board) :
  wf_board (board st) ->
  In (SetBoard b')
     (queue (snd (handleSquareClick st ui rand row col idle))) ->
  gameOver ui = false
  /\ (gameMode st = local \/ currentPlayer st = white)
  /\ exists selectedRow selectedCol piece,
      selected ui = Some (selectedRow, selectedCol)
      /\ cell (board st) selectedRow selectedCol = Normal (Some piece)
      /\ isValidMove st selectedRow selectedCol row col piece = Normal true
      /\ fst (handleSquareClick st ui rand row col idle) = Normal None
      /\ cell b' row col
         = Normal (Some (mkPiece (type piece) (color piece) true))
      /\ cell b' selectedRow selectedCol = Normal None
      /\ forall r c,
          r <> selectedRow \/ c <> selectedCol ->
          r <> row \/ c <> col ->
          cell b' r c = cell (board st) r c.
Proof.
  intros Hst. unfold handleSquareClick.
  destruct (gameOver ui); [intros [] |].
  intros Hin. split; [reflexivity |]. revert Hin.
  match goal with
  | |- context [if ?g then mret (selected ui) else _] => destruct g eqn:Eguard
  end; [intros [] |].
  intros Hin.
  split; [destruct (gameMode st), (currentPlayer st); auto; discriminate |].
  revert Hin.
  match goal with
  | |- context [mbind _ (fun _ => ?k)] =>
      destruct (timer_start ui st k) as (pre & Hpre & _ & Hstart)
  end.
  rewrite Hstart. cbn [queue draws idle app].
  assert (Hno : forall b, ~ In (SetBoard b) pre).
  { intros b Hin. destruct Hpre as [-> | ->]; cbn in Hin; intuition discriminate. }
  destruct (selected ui) as [[selectedRow selectedCol] |].
  2:{ destruct (cell (board st) row col); unfold mbind, lift, mret;
      cbn [snd queue]; intros Hin; now apply Hno in Hin. }
  destruct (cell (board st) selectedRow selectedCol) as [[piece |] | |] eqn:Ecell.
  2:{ rewrite mbind_lift.
      destruct ((row <? 0) || (row >? 7) || (col <? 0) || (col >? 7));
        [| destruct ((selectedRow =? row) && (selectedCol =? col))];
        unfold mbind, lift, mret; cbn [snd queue];
        intros Hin; now apply Hno in Hin. }
  2,3: unfold mbind, lift; cbn [snd queue]; intros Hin; now apply Hno in Hin.
  rewrite mbind_lift.
  destruct (isValidMove st selectedRow selectedCol row col piece)
    as [[|] | |] eqn:Eok.
  2,3,4: unfold mbind, lift, mret; cbn [snd queue]; intros Hin;
    now apply Hno in Hin.
  rewrite mbind_lift.
  pose proof (cell_Some_on_board _ _ _ _ Hst Ecell) as Hsrc.
  destruct (isValidMove_accepts _ _ _ _ _ _ Eok) as (Hdst & Hne & _).
  destruct (makeMove_run st rand selectedRow selectedCol row col piece
              (mkWorld pre 0) Hst Hsrc Hdst Ecell)
    as (b1 & nb & q & d & Hb1 & Hnb & _ & _ & Hmove & Hquiet).
  destruct (move_cells _ _ _ _ _ _ _ _ Hst Hsrc Hdst Hb1 Hnb)
    as (_ & Hempty & Hput & Hframe).
  rewrite (mbind_run _ _ _ _ _ Hmove). unfold mret. cbn [snd fst queue].
  intros Hin. apply in_app_or in Hin.
  destruct Hin as [Hin | [Hin | Hin]];
    [now apply Hno in Hin | injection Hin as <-
     | now apply leaves_board_not_In in Hin].
  exists selectedRow, selectedCol, piece.
  split; [reflexivity |]. split; [exact Ecell |]. split; [exact Eok |].
  split; [reflexivity |].
  split; [exact (Hput Hne) |]. split; [exact Hempty |]. exact Hframe.
Qed.

Lemma click_moves_only_the_selected_piece_legally_witness :
  isValidMove initialSession 6 4 4 4 (mkPiece pawn white false) = Normal true.
Proof.
  destruct (click_moves_only_the_selected_piece_legally
              initialSession (mkControls (Some (6, 4)) false true) zeros 4 4
              (board (play initialSession zeros 6 4 4 4)))
    as (_ & _ & selectedRow & selectedCol & piece & Hsel & Hcell & Hok & _).
  - exact initializeBoard_wf.
  - vm_compute. tauto.
  - cbn in Hsel. injection Hsel as <- <-.
    vm_compute in Hcell. injection Hcell as <-. exact Hok.
Defined.

Lemma next_controls_selected (ui : Controls) (sel : option (Z * Z))
      (q : list Update) :
  selected (next_controls ui sel q) = sel.
Proof.
  unfold next_controls.
  match goal with
  | |- selected (fold_left ?f q ?c0) = _ =>
      assert (H : forall c, selected (fold_left f q c) = selected c)
  end.
  { induction q as [| u q IH]; intros c; [reflexivity |].
    cbn [fold_left]. rewrite IH. now destruct u. }
  now rewrite H.
Qed.

Lemma commit_timer (s : Session) (pre : list Update) :
  pre = [] \/ pre = [SetIsTimerActive true] -> commit s pre = s.
Proof. intros [-> | ->]; reflexivity. Qed.

(** The handler in a running game on a human's turn. *)
Lemma handleSquareClick_active (st : Session) (ui : Controls)
      (rand : nat -> float) (row col : Z) :
  gameOver ui = false ->
  gameMode st = local \/ currentPlayer st = white ->
  exists pre,
    (pre = [] \/ pre = [SetIsTimerActive true])
    /\ (pre = [] <->
        negb (isTimerActive ui) && (Z.of_nat (length (moves st)) =? 0) = false)
    /\ handleSquareClick st ui rand row col idle
       = match selected ui with
         | Some (selectedRow, selectedCol) =>
             piece <~ lift (cell (board st) selectedRow selectedCol) ;;
             ok <~ lift (match piece with
                         | Some piece =>
                             isValidMove st selectedRow selectedCol row col piece
                         | None =>
                             if (row <? 0) || (row >? 7) || (col <? 0) || (col >? 7)
                             then Normal false
                             else if (selectedRow =? row) && (selectedCol =? col)
                             then Normal false
                             else TypeError
                         end) ;;
             (if ok : bool
              then makeMove st rand selectedRow selectedCol row col
              else mret tt) ;;;
             mret None
         | None =>
             piece <~ lift (cell (board st) row col) ;;
             mret (match piece with
                   | Some p =>
                       if color_eqb (color p) (currentPlayer st)
                       then Some (row, col)
                       else selected ui
                   | None => selected ui
                   end)
         end (mkWorld pre 0).
Proof.
  intros Hover Hturn. unfold handleSquareClick. rewrite Hover.
  match goal with
  | |- context [if ?g then mret (selected ui) else _] =>
      assert (Hguard : g = false)
        by (destruct Hturn as [-> | ->]; [| destruct (gameMode st)];
            reflexivity)
  end.
  rewrite Hguard.
  match goal with
  | |- context [mbind _ (fun _ => ?k)] =>
      destruct (timer_start ui st k) as (pre & Hpre & Hiff & Hstart)
  end.
  exists pre. split; [exact Hpre |]. split; [exact Hiff |].
  rewrite Hstart. reflexivity.
Qed.

(** X10. In a running game on a human's turn, with the selection (if any)
    on a square that holds a piece of the player to move, a click on a
    square of the board returns (no read of a missing piece), and the same
    holds in the render that follows: its board is 8x8 and its selection, if
    any, is on a square that holds a piece of its player to move. *)
Theorem click_keeps_selection_on_own_piece
        (st : Session) (ui : Controls) (rand : nat -> float) (row col : Z) :
  click_inv st ui ->
  on_board row col ->
  exists sel w,
    handleSquareClick st ui rand row col idle = (Normal sel, w)
    /\ click_inv (commit st (queue w)) (next_controls ui sel (queue w)).
Proof.
  intros [Hst Hsel] Hclick. unfold handleSquareClick.
  destruct (gameOver ui) eqn:Hover.
  { exists (selected ui), idle. split; [reflexivity |].
    split; [exact Hst |]. now rewrite next_controls_selected. }
  match goal with
  | |- context [if ?g then mret (selected ui) else _] => destruct g eqn:Eguard
  end.
  { exists (selected ui), idle. split; [reflexivity |].
    split; [exact Hst |]. now rewrite next_controls_selected. }
  match goal with
  | |- context [mbind _ (fun _ => ?k)] =>
      destruct (timer_start ui st k) as (pre & Hpre & _ & Hstart)
  end.
  rewrite Hstart. cbn [queue draws idle app].
  destruct (selected ui) as [[selectedRow selectedCol] |] eqn:Eselected.
  - destruct (Hsel _ _ eq_refl) as (piece & Ecell & Hcolor).
    rewrite Ecell, mbind_lift.
    pose proof (cell_Some_on_board _ _ _ _ Hst Ecell) as Hsrc.
    destruct (isValidMove_returns st selectedRow selectedCol row col piece
                Hst Hsrc) as [ok Eok].
    rewrite Eok, mbind_lift. destruct ok.
    + destruct (isValidMove_accepts _ _ _ _ _ _ Eok) as (Hdst & _).
      destruct (makeMove_run st rand selectedRow selectedCol row col piece
                  (mkWorld pre 0) Hst Hsrc Hdst Ecell)
        as (b1 & nb & q & d & _ & _ & _ & Hwf & Hmove & Hquiet).
      rewrite (mbind_run _ _ _ _ _ Hmove). unfold mret.
      eexists. eexists. split; [reflexivity |].
      cbn [queue]. split.
      * rewrite commit_app, (commit_timer _ _ Hpre), commit_cons.
        rewrite commit_leaves_board by exact Hquiet. exact Hwf.
      * intros r c. rewrite next_controls_selected. discriminate.
    + unfold mbind, mret. eexists. eexists. split; [reflexivity |].
      cbn [queue]. rewrite (commit_timer _ _ Hpre).
      split; [exact Hst |].
      intros r c. rewrite next_controls_selected. discriminate.
  - destruct (cell_on_board (board st) row col Hst Hclick) as [x Ex].
    rewrite Ex, mbind_lift. unfold mret.
    eexists. eexists. split; [reflexivity |].
    cbn [queue]. rewrite (commit_timer _ _ Hpre).
    split; [exact Hst |].
    intros r c. rewrite next_controls_selected.
    destruct x as [p |]; [| discriminate].
    destruct (color_eqb_spec (color p) (currentPlayer st)) as [Hc | Hc];
      [| discriminate].
    intros Heq. injection Heq as <- <-. now exists p.
Qed.

Lemma click_keeps_selection_on_own_piece_witness :
  exists sel w,
    handleSquareClick initialSession (mkControls None false false) zeros 6 4
                      idle = (Normal sel, w).
Proof.
  destruct (click_keeps_selection_on_own_piece
              initialSession (mkControls None false false) zeros 6 4)
    as (sel & w & Hrun & _).
  - split; [exact initializeBoard_wf | discriminate].
  - unfold on_board. lia.
  - now exists sel, w.
Defined.

(** X11. Two clicks make the move [click_move] describes.  In a running
    game on a human's turn with nothing selected, a click on a square of the
    board returns; and after a second click, handled in the render that
    follows the first: if [click_move] gives a session for the two squares,
    the second click returns, clears the selection, and the render that
    follows it is that session; if [click_move] gives none, the board is the
    board before the two clicks. *)
Theorem two_clicks_make_click_move
        (st : Session) (ui : Controls) (rand : nat -> float)
        (fromRow fromCol toRow toCol : Z) :
  wf_board (board st) ->
  gameOver ui = false ->
  gameMode st = local \/ currentPlayer st = white ->
  selected ui = None ->
  on_board fromRow fromCol ->
  let first := handleSquareClick st ui rand fromRow fromCol idle in
  exists sel,
    fst first = Normal sel
    /\ let st1 := commit st (queue (snd first)) in
       let ui1 := next_controls ui sel (queue (snd first)) in
       let second := handleSquareClick st1 ui1 rand toRow toCol idle in
       match click_move st rand fromRow fromCol toRow toCol with
       | Some s' =>
           fst second = Normal None
           /\ commit st1 (queue (snd second)) = s'
       | None => board (commit st1 (queue (snd second))) = board st
       end.
Proof.
  intros Hst Hover Hturn Hnone Hfrom first.
  destruct (handleSquareClick_active st ui rand fromRow fromCol Hover Hturn)
    as (pre & Hpre & Hiff & Hfirst).
  rewrite Hnone in Hfirst.
  destruct (cell_on_board (board st) fromRow fromCol Hst Hfrom) as [x Ex].
  rewrite Ex, mbind_lift in Hfirst. unfold mret in Hfirst.
  subst first. rewrite Hfirst. cbn [fst snd queue].
  eexists. split; [reflexivity |].
  cbv zeta. rewrite (commit_timer _ _ Hpre).
  set (sel := match x with
              | Some p => if color_eqb (color p) (currentPlayer st)
                          then Some (fromRow, fromCol) else None
              | None => None
              end).
  set (ui1 := next_controls ui sel pre).
  assert (Hover1 : gameOver ui1 = false).
  { subst ui1. destruct Hpre as [-> | ->]; exact Hover. }
  assert (Htimer1 :
            negb (isTimerActive ui1) && (Z.of_nat (length (moves st)) =? 0)
            = false).
  { subst ui1. destruct Hpre as [-> | ->].
    - now apply Hiff.
    - reflexivity. }
  destruct (handleSquareClick_active st ui1 rand toRow toCol Hover1 Hturn)
    as (pre' & _ & Hiff' & Hsecond).
  apply Hiff' in Htimer1. subst pre'.
  assert (Hsel1 : selected ui1 = sel) by apply next_controls_selected.
  rewrite Hsel1 in Hsecond. rewrite Hsecond. clear Hsecond.
  unfold click_move. rewrite Ex.
  assert (Hquietsel :
            forall y : option Piece,
              board (commit st
                       (queue (snd ((piece <~ lift (cell (board st) toRow toCol) ;;
                                     mret (match piece with
                                           | Some p =>
                                               if color_eqb (color p) (currentPlayer st)
                                               then Some (toRow, toCol)
                                               else None
                                           | None => None
                                           end)) (mkWorld [] 0)))))
              = board st).
  { intros _. unfold mbind, lift, mret.
    destruct (cell (board st) toRow toCol); reflexivity. }
  destruct x as [piece |]; [| exact (Hquietsel None)].
  subst sel. destruct (color_eqb (color piece) (currentPlayer st));
    [| exact (Hquietsel None)].
  rewrite Ex, mbind_lift.
  pose proof (cell_Some_on_board _ _ _ _ Hst Ex) as Hsrc.
  destruct (isValidMove_returns st fromRow fromCol toRow toCol piece Hst Hsrc)
    as [ok Eok].
  rewrite Eok, mbind_lift. destruct ok.
  - destruct (isValidMove_accepts _ _ _ _ _ _ Eok) as (Hdst & _).
    destruct (makeMove_run st rand fromRow fromCol toRow toCol piece
                (mkWorld [] 0) Hst Hsrc Hdst Ex)
      as (b1 & nb & q & d & _ & _ & _ & _ & Hmove & _).
    rewrite (mbind_run _ _ _ _ _ Hmove). unfold mret. cbn [fst snd queue].
    split; [reflexivity |].
    unfold play, idle. now rewrite Hmove.
  - reflexivity.
Qed.

Lemma two_clicks_make_click_move_witness :
  let first :=
    handleSquareClick initialSession (mkControls None false false) zeros 6 4
                      idle in
  exists sel, fst first = Normal sel.
Proof.
  destruct (two_clicks_make_click_move
              initialSession (mkControls None false false) zeros 6 4 4 4)
    as (sel & Hfirst & _).
  - exact initializeBoard_wf.
  - reflexivity.
  - right. reflexivity.
  - reflexivity.
  - unfold on_board. lia.
  - now exists sel.
Defined.

(** ** What the loops collect *)

Lemma collect_incl {A B : Type} (body : A -> completion (list B)) (l : list A) :
  forall zs x,
    collect body l = Normal zs -> In x l ->
    exists ys, body x = Normal ys /\ incl ys zs.
Proof.
  induction l as [| y l IH]; intros zs x Hrun Hx; [destruct Hx |].
  cbn [collect] in Hrun.
  destruct (body y) as [ys | |] eqn:Ey; cbn [cbind] in Hrun; try discriminate.
  destruct (collect body l) as [zs' | |] eqn:El; cbn [cbind] in Hrun;
    try discriminate.
  injection Hrun as <-. destruct Hx as [<- | Hx].
  - exists ys. split; [exact Ey | now apply incl_appl].
  - destruct (IH zs' x eq_refl Hx) as (ys' & Hys' & Hincl).
    exists ys'. split; [exact Hys' | now apply incl_appr].
Qed.

Lemma nth_error_indexed {A : Type} (l : list A) :
  forall (k n : nat) (x : A),
    nth_error l n = Some x ->
    In (Z.of_nat (k + n), x) (combine (map Z.of_nat (seq k (length l))) l).
Proof.
  induction l as [| y l IH]; intros k n x Hn; [now destruct n |].
  cbn [length seq map combine]. destruct n as [| n].
  - injection Hn as <-. left. now rewrite Nat.add_0_r.
  - right. replace (k + S n)%nat with (S k + n)%nat by lia. now apply IH.
Qed.

Lemma index_indexed {A : Type} (l : list A) (i : Z) (x : A) :
  index l i = Some x -> In (i, x) (indexed l).
Proof.
  unfold index. destruct (Z.ltb_spec i 0); [discriminate |]. intros Hn.
  pose proof (nth_error_indexed l 0 _ x Hn) as Hin.
  cbn [Nat.add] in Hin. now rewrite Z2Nat.id in Hin by assumption.
Qed.

Lemma cell_indexed (b : Board) (r c : Z) (q : Piece) :
  cell b r c = Normal (Some q) ->
  exists row, In (r, row) (indexed b) /\ In (c, Some q) (indexed row).
Proof.
  unfold cell. destruct (index b r) as [row |] eqn:Er; [| discriminate].
  destruct (index row c) as [x |] eqn:Ec; [| discriminate].
  intros H. injection H as ->. exists row.
  split; now apply index_indexed.
Qed.

Lemma In_upto8 (i : Z) : 0 <= i <= 7 -> In i upto8.
Proof.
  intros H. unfold upto8. cbn. lia.
Qed.

(** X12. The generator misses no move: every move that [isValidMove]
    accepts, of a piece of the requested color standing on a square of the
    board passed in, is among the candidates, with the notation of that
    move. *)
Theorem generated_moves_are_complete
        (st : Session) (b : Board) (color0 : Color)
        (candidates : list Candidate)
        (fromRow fromCol toRow toCol : Z) (piece : Piece) :
  generateAllPossibleMoves st b color0 = Normal candidates ->
  cell b fromRow fromCol = Normal (Some piece) ->
  color piece = color0 ->
  isValidMove st fromRow fromCol toRow toCol piece = Normal true ->
  In (mkCandidate (mkSquare fromRow fromCol) (mkSquare toRow toCol)
                  (toAlgebraic fromRow fromCol toRow toCol piece))
     candidates.
Proof.
  intros Hrun Hcell Hcolor Hok.
  destruct (cell_indexed _ _ _ _ Hcell) as (row & Hr & Hc).
  destruct (isValidMove_accepts _ _ _ _ _ _ Hok) as ([Htr Htc] & _).
  unfold generateAllPossibleMoves in Hrun.
  destruct (collect_incl _ _ _ _ Hrun Hr) as (ms1 & Hrun1 & Hincl1).
  apply Hincl1. cbv beta iota in Hrun1.
  destruct (collect_incl _ _ _ _ Hrun1 Hc) as (ms2 & Hrun2 & Hincl2).
  apply Hincl2. cbv beta iota in Hrun2.
  rewrite Hcolor in Hrun2.
  destruct (color_eqb_spec color0 color0) as [_ | Hne]; [| now contradiction Hne].
  destruct (collect_incl _ _ _ _ Hrun2 (In_upto8 toRow Htr))
    as (ms3 & Hrun3 & Hincl3).
  apply Hincl3.
  destruct (collect_incl _ _ _ _ Hrun3 (In_upto8 toCol Htc))
    as (ms4 & Hrun4 & Hincl4).
  apply Hincl4. rewrite Hok in Hrun4. cbn [cbind] in Hrun4.
  injection Hrun4 as <-. now left.
Qed.

Lemma generated_moves_are_complete_witness :
  In (mkCandidate (mkSquare 6 4) (mkSquare 4 4) "e2-e4") openingMoves.
Proof.
  apply (generated_moves_are_complete initialSession initializeBoard white
           openingMoves 6 4 4 4 (mkPiece pawn white false)).
  - vm_compute. reflexivity.
  - reflexivity.
  - reflexivity.
  - vm_compute. reflexivity.
Defined.

(** X13. The list of [detectThreats] has an entry for a piece and a square
    exactly when the square is on the board passed in and holds that piece,
    the piece has the color asked for, and some piece of the other color on
    that board has a move onto the square that [isValidMove] accepts (on the
    board of the render).  So the list is empty exactly when no piece of the
    color is attacked. *)
Theorem detectThreats_lists_the_attacked_pieces
        (st : Session) (b : Board) (color0 : Color) (threats : list Threat)
        (piece : Piece) (r c : Z) :
  detectThreats st b color0 = Normal threats ->
  In (mkThreat piece (mkSquare r c)) threats
  <-> (cell b r c = Normal (Some piece)
       /\ color piece = color0
       /\ exists ar ac attacker,
           on_board ar ac
           /\ cell b ar ac = Normal (Some attacker)
           /\ color attacker <> color0
           /\ isValidMove st ar ac r c attacker = Normal true).
Proof.
  intros Hrun. unfold detectThreats in Hrun. split.
  - intros Hin.
    destruct (collect_In _ _ _ _ Hrun Hin) as [[r0 row] [ts1 [Hr [Hrun1 Hin1]]]].
    destruct (collect_In _ _ _ _ Hrun1 Hin1) as [[c0 x] [ts2 [Hc [Hrun2 Hin2]]]].
    destruct x as [piece0 |]; [| injection Hrun2 as <-; destruct Hin2].
    destruct (color_eqb_spec (color piece0) color0) as [Hcolor |];
      [| injection Hrun2 as <-; destruct Hin2].
    destruct (collect_In _ _ _ _ Hrun2 Hin2) as [ar [ts3 [Har [Hrun3 Hin3]]]].
    destruct (collect_In _ _ _ _ Hrun3 Hin3) as [ac [ts4 [Hac [Hrun4 Hin4]]]].
    destruct (cell b ar ac) as [[attacker |] | |] eqn:Eatt;
      cbn [cbind] in Hrun4; try discriminate;
      [| injection Hrun4 as <-; destruct Hin4].
    destruct (color_eqb_spec (color attacker) color0) as [| Hforeign];
      cbn [negb] in Hrun4; [injection Hrun4 as <-; destruct Hin4 |].
    destruct (isValidMove st ar ac r0 c0 attacker) as [[|] | |] eqn:Eok;
      cbn [cbind] in Hrun4; try discriminate; injection Hrun4 as <-;
      [| destruct Hin4].
    destruct Hin4 as [Heq | []]. injection Heq as <- <- <-.
    split; [exact (indexed_cell _ _ _ _ _ Hr Hc) |]. split; [exact Hcolor |].
    exists ar, ac, attacker.
    split; [split; apply upto8_In; assumption |]. now repeat split.
  - intros (Hcell & Hcolor & ar & ac & attacker & [Har Hac] & Eatt & Hforeign & Hok).
    destruct (cell_indexed _ _ _ _ Hcell) as (row & Hr & Hc).
    destruct (collect_incl _ _ _ _ Hrun Hr) as (ts1 & Hrun1 & Hincl1).
    apply Hincl1. cbv beta iota in Hrun1.
    destruct (collect_incl _ _ _ _ Hrun1 Hc) as (ts2 & Hrun2 & Hincl2).
    apply Hincl2. cbv beta iota in Hrun2.
    rewrite Hcolor in Hrun2.
    destruct (color_eqb_spec color0 color0) as [_ | Hne];
      [| now contradiction Hne].
    destruct (collect_incl _ _ _ _ Hrun2 (In_upto8 ar Har))
      as (ts3 & Hrun3 & Hincl3).
    apply Hincl3.
    destruct (collect_incl _ _ _ _ Hrun3 (In_upto8 ac Hac))
      as (ts4 & Hrun4 & Hincl4).
    apply Hincl4. rewrite Eatt in Hrun4. cbn [cbind] in Hrun4.
    destruct (color_eqb_spec (color attacker) color0) as [Hsame | _];
      [now contradiction Hforeign |].
    cbn [negb] in Hrun4. rewrite Hok in Hrun4. cbn [cbind] in Hrun4.
    injection Hrun4 as <-. now left.
Qed.

Lemma detectThreats_lists_the_attacked_pieces_witness :
  let st := match replay (twoPlayers 600) zeros twoPawnsOnE4 with
            | Some st => st
            | None => initialSession
            end in
  In (mkThreat (mkPiece pawn white true) (mkSquare 4 4))
     (match detectThreats st (board st) white with
      | Normal threats => threats
      | _ => []
      end).
Proof.
  intros st.
  apply (detectThreats_lists_the_attacked_pieces
           st (board st) white
           (match detectThreats st (board st) white with
            | Normal threats => threats
            | _ => []
            end)
           (mkPiece pawn white true) 4 4).
  - vm_compute. reflexivity.
  - split; [vm_compute; reflexivity |]. split; [reflexivity |].
    exists 3, 3, (mkPiece pawn black true).
    split; [unfold on_board; lia |].
    split; [vm_compute; reflexivity |].
    split; [discriminate | vm_compute; reflexivity].
Defined.

(** ** Clear paths *)

Section Clear.

Variable st : Session.
Variables toRow toCol rowStep colStep : Z.

(** With the destination [k] steps ahead and every square before it empty,
    the loop returns [true]. *)
Lemma scan_clear (k : nat) :
  forall (budget : nat) (r c : Z),
    (k < budget)%nat ->
    r + Z.of_nat k * rowStep = toRow ->
    c + Z.of_nat k * colStep = toCol ->
    (forall i, 0 <= i < Z.of_nat k ->
               cell (board st) (r + i * rowStep) (c + i * colStep)
               = Normal None) ->
    isPathClear_scan st budget toRow toCol rowStep colStep r c = Normal true.
Proof.
  induction k as [| k IH]; intros budget r c Hbudget Hr Hc Hclear;
    (destruct budget as [| budget]; [lia |]); cbn [isPathClear_scan].
  - replace (r =? toRow) with true by (symmetry; apply Z.eqb_eq; lia).
    replace (c =? toCol) with true by (symmetry; apply Z.eqb_eq; lia).
    reflexivity.
  - destruct (negb (r =? toRow) || negb (c =? toCol)); [| reflexivity].
    pose proof (Hclear 0 ltac:(lia)) as H0.
    rewrite !Z.mul_0_l, !Z.add_0_r in H0. rewrite H0. cbn [cbind truthy].
    apply IH; [lia | lia | lia |].
    intros i Hi. specialize (Hclear (i + 1) ltac:(lia)).
    replace (r + rowStep + i * rowStep) with (r + (i + 1) * rowStep) by lia.
    replace (c + colStep + i * colStep) with (c + (i + 1) * colStep) by lia.
    exact Hclear.
Qed.

End Clear.

Lemma isPathClear_clear (st : Session) (fromRow fromCol toRow toCol : Z) :
  on_board fromRow fromCol ->
  on_board toRow toCol ->
  fromRow <> toRow \/ fromCol <> toCol ->
  aligned fromRow fromCol toRow toCol ->
  (forall k, 0 < k < distance fromRow fromCol toRow toCol ->
             cell (board st) (fromRow + k * step_toward fromRow toRow)
                  (fromCol + k * step_toward fromCol toCol) = Normal None) ->
  isPathClear st fromRow fromCol toRow toCol = Normal true.
Proof.
  intros Hfrom Hto Hne Hal Hclear.
  destruct (aligned_steps fromRow fromCol toRow toCol Hne Hal) as [Hd [Hrow Hcol]].
  set (rs := step_toward fromRow toRow) in *.
  set (cs := step_toward fromCol toCol) in *.
  set (d := distance fromRow fromCol toRow toCol) in *.
  assert (Hd7 : d <= 7).
  { unfold d, distance. destruct Hfrom as [? ?], Hto as [? ?]. lia. }
  unfold isPathClear. fold rs cs.
  apply (scan_clear st toRow toCol rs cs (Z.to_nat (d - 1))).
  - unfold scan_budget. lia.
  - rewrite Z2Nat.id by lia. lia.
  - rewrite Z2Nat.id by lia. lia.
  - intros i Hi. rewrite Z2Nat.id in Hi by lia.
    specialize (Hclear (i + 1) ltac:(lia)).
    replace (fromRow + rs + i * rs) with (fromRow + (i + 1) * rs) by lia.
    replace (fromCol + cs + i * cs) with (fromCol + (i + 1) * cs) by lia.
    exact Hclear.
Qed.

(** Squares strictly between two aligned squares of the board are on the
    board. *)
Lemma between_on_board (fromRow fromCol toRow toCol k : Z) :
  on_board fromRow fromCol ->
  on_board toRow toCol ->
  aligned fromRow fromCol toRow toCol ->
  0 < k < distance fromRow fromCol toRow toCol ->
  on_board (fromRow + k * step_toward fromRow toRow)
           (fromCol + k * step_toward fromCol toCol).
Proof.
  intros [Hr Hc] [Hr' Hc'] Hal Hk. unfold distance, aligned, on_board in *.
  destruct (step_toward_spec fromRow toRow) as [[? ->] | [[? ->] | [? ->]]];
    destruct (step_toward_spec fromCol toCol) as [[? ->] | [[? ->] | [? ->]]];
    lia.
Qed.

Lemma free_for_spec (piece : Piece) (target : option Piece) :
  free_for piece target
  <-> match target with
      | Some t => color_eqb (color t) (color piece)
      | None => false
      end = false.
Proof.
  unfold free_for. destruct target as [t |].
  - destruct (color_eqb_spec (color t) (color piece)) as [Heq | Hne]; split.
    + intros H. now contradiction (H t eq_refl).
    + discriminate.
    + reflexivity.
    + intros _ t' Ht'. now injection Ht' as <-.
  - split; [reflexivity | discriminate].
Qed.

(** The checker past its three early returns. *)
Lemma isValidMove_open (st : Session) (fromRow fromCol toRow toCol : Z)
      (piece : Piece) (target : option Piece) :
  on_board toRow toCol ->
  fromRow <> toRow \/ fromCol <> toCol ->
  cell (board st) toRow toCol = Normal target ->
  free_for piece target ->
  isValidMove st fromRow fromCol toRow toCol piece
  = let rowDiff := Z.abs (toRow - fromRow) in
    let colDiff := Z.abs (toCol - fromCol) in
    match type piece with
    | pawn =>
        let direction := if color_eqb (color piece) white then -1 else 1 in
        let startRow := if color_eqb (color piece) white then 6 else 1 in
        let capture :=
          Normal ((Z.abs (toCol - fromCol) =? 1)
                  && (toRow =? fromRow + direction) && truthy target) in
        if (toCol =? fromCol) && negb (truthy target) then
          if toRow =? fromRow + direction then Normal true
          else if (fromRow =? startRow) && (toRow =? fromRow + 2 * direction)
          then
            mid <- cell (board st) (fromRow + direction) fromCol ;;
            if negb (truthy mid) then Normal true else capture
          else capture
        else capture
    | knight =>
        Normal (((rowDiff =? 2) && (colDiff =? 1))
                || ((rowDiff =? 1) && (colDiff =? 2)))
    | bishop =>
        if negb (rowDiff =? colDiff) then Normal false
        else isPathClear st fromRow fromCol toRow toCol
    | rook =>
        if negb (fromRow =? toRow) && negb (fromCol =? toCol) then Normal false
        else isPathClear st fromRow fromCol toRow toCol
    | queen =>
        if negb (fromRow =? toRow) && negb (fromCol =? toCol)
           && negb (rowDiff =? colDiff)
        then Normal false
        else isPathClear st fromRow fromCol toRow toCol
    | king => Normal ((rowDiff <=? 1) && (colDiff <=? 1))
    end.
Proof.
  intros [Hr Hc] Hne Htarget Hfree. unfold isValidMove.
  destruct (Z.ltb_spec toRow 0); [lia |].
  destruct (Z.gtb_spec toRow 7); [lia |].
  destruct (Z.ltb_spec toCol 0); [lia |].
  destruct (Z.gtb_spec toCol 7); [lia |]. cbn [orb].
  replace ((fromRow =? toRow) && (fromCol =? toCol)) with false.
  2:{ symmetry. apply andb_false_iff.
      destruct Hne; [left | right]; now apply Z.eqb_neq. }
  rewrite Htarget. cbn [cbind].
  apply free_for_spec in Hfree. rewrite Hfree. reflexivity.
Qed.

(** X14. Where a bishop, rook or queen may go.  On an 8x8 board, for a
    piece of one of these kinds on a square of the board, [isValidMove]
    returns [true] exactly when the destination is another square of the
    board, on a diagonal of the source for a bishop, on its row or column
    for a rook, on any of them for a queen, holds no piece of the mover's
    color, and every square strictly between the two is empty. *)
Theorem sliding_piece_moves_along_clear_lines
        (st : Session) (fromRow fromCol toRow toCol : Z) (piece : Piece) :
  wf_board (board st) ->
  on_board fromRow fromCol ->
  sliding (type piece) ->
  isValidMove st fromRow fromCol toRow toCol piece = Normal true
  <-> (on_board toRow toCol
       /\ (fromRow <> toRow \/ fromCol <> toCol)
       /\ line_of (type piece) fromRow fromCol toRow toCol
       /\ (exists target,
              cell (board st) toRow toCol = Normal target
              /\ free_for piece target)
       /\ forall k,
           0 < k < distance fromRow fromCol toRow toCol ->
           cell (board st) (fromRow + k * step_toward fromRow toRow)
                (fromCol + k * step_toward fromCol toCol) = Normal None).
Proof.
  intros Hwf Hfrom Hsliding.
  assert (Hline : forall (Hto : on_board toRow toCol),
             line_of (type piece) fromRow fromCol toRow toCol ->
             aligned fromRow fromCol toRow toCol).
  { intros _. unfold line_of, aligned.
    destruct Hsliding as [-> | [-> | ->]]; tauto. }
  split.
  - intros Hok.
    destruct (isValidMove_accepts _ _ _ _ _ _ Hok)
      as (Hto & Hne & target & Htarget & Hforeign).
    assert (Hfree : free_for piece target).
    { apply free_for_spec. destruct target as [t |]; [| reflexivity].
      now apply Hforeign. }
    rewrite (isValidMove_open st _ _ _ _ piece target Hto Hne Htarget Hfree)
      in Hok.
    cbv zeta in Hok.
    assert (Hgeo : line_of (type piece) fromRow fromCol toRow toCol
                   /\ isPathClear st fromRow fromCol toRow toCol = Normal true).
    { unfold line_of, aligned.
      destruct Hsliding as [E | [E | E]]; rewrite E in Hok |- *.
      - destruct (Z.eqb_spec (Z.abs (toRow - fromRow)) (Z.abs (toCol - fromCol)));
          cbn [negb] in Hok; [now split | discriminate].
      - destruct (Z.eqb_spec fromRow toRow); cbn [negb andb] in Hok;
          [split; [now left | exact Hok] |].
        destruct (Z.eqb_spec fromCol toCol); cbn [negb] in Hok;
          [split; [now right | exact Hok] | discriminate].
      - destruct (Z.eqb_spec fromRow toRow); cbn [negb andb] in Hok;
          [split; [now left | exact Hok] |].
        destruct (Z.eqb_spec fromCol toCol); cbn [negb andb] in Hok;
          [split; [right; now left | exact Hok] |].
        destruct (Z.eqb_spec (Z.abs (toRow - fromRow)) (Z.abs (toCol - fromCol)));
          cbn [negb] in Hok; [split; [right; now right | exact Hok] |].
        discriminate. }
    destruct Hgeo as [Hgeo Hclear].
    split; [exact Hto |]. split; [exact Hne |]. split; [exact Hgeo |].
    split; [now exists target |].
    intros k Hk. pose proof (Hline Hto Hgeo) as Hal.
    pose proof (between_on_board _ _ _ _ k Hfrom Hto Hal Hk) as Hon.
    destruct (cell_on_board (board st) _ _ Hwf Hon) as [[q |] Hx];
      [| exact Hx].
    rewrite (isPathClear_blocked st fromRow fromCol toRow toCol k q
               Hwf Hfrom Hto Hal Hk Hx) in Hclear.
    discriminate.
  - intros (Hto & Hne & Hgeo & (target & Htarget & Hfree) & Hclear).
    rewrite (isValidMove_open st _ _ _ _ piece target Hto Hne Htarget Hfree).
    cbv zeta.
    pose proof (isPathClear_clear st _ _ _ _ Hfrom Hto Hne (Hline Hto Hgeo) Hclear)
      as Hpath.
    unfold line_of, aligned in Hgeo.
    destruct Hsliding as [E | [E | E]]; rewrite E in Hgeo |- *.
    + destruct (Z.eqb_spec (Z.abs (toRow - fromRow)) (Z.abs (toCol - fromCol)));
        cbn [negb]; [exact Hpath | contradiction].
    + destruct (Z.eqb_spec fromRow toRow); cbn [negb andb]; [exact Hpath |].
      destruct (Z.eqb_spec fromCol toCol); cbn [negb]; [exact Hpath | tauto].
    + destruct (Z.eqb_spec fromRow toRow); cbn [negb andb]; [exact Hpath |].
      destruct (Z.eqb_spec fromCol toCol); cbn [negb andb]; [exact Hpath |].
      destruct (Z.eqb_spec (Z.abs (toRow - fromRow)) (Z.abs (toCol - fromCol)));
        cbn [negb]; [exact Hpath | tauto].
Qed.

Lemma wf_after_e4 : wf_board (board (play initialSession zeros 6 4 4 4)).
Proof. vm_compute. split; [reflexivity | repeat constructor]. Qed.

Lemma sliding_piece_moves_along_clear_lines_witness :
  isValidMove (play initialSession zeros 6 4 4 4) 7 5 4 2
              (mkPiece bishop white false) = Normal true.
Proof.
  apply (sliding_piece_moves_along_clear_lines
           (play initialSession zeros 6 4 4 4) 7 5 4 2
           (mkPiece bishop white false)).
  - exact wf_after_e4.
  - unfold on_board. lia.
  - left. reflexivity.
  - split; [unfold on_board; lia |]. split; [left; lia |].
    split; [reflexivity |]. split.
    + exists None. split; [vm_compute; reflexivity | discriminate].
    + intros k Hk.
      assert (Hcases : k = 1 \/ k = 2) by (unfold distance in Hk; lia).
      destruct Hcases as [-> | ->]; vm_compute; reflexivity.
Defined.

(** X15. Where a pawn may go.  For a pawn, with [direction] -1 for white
    and 1 for black, [isValidMove]
    returns [true] exactly in three cases: one row forward in its column
    onto an empty square; two rows forward in its column from its starting
    row (6 for white, 1 for black) onto an empty square over an empty
    square; one row forward and one column aside onto a piece of the other
    color.  A pawn never captures straight ahead and never moves diagonally
    onto an empty square. *)
Theorem pawn_moves_forward_and_captures_diagonally
        (st : Session) (fromRow fromCol toRow toCol : Z) (piece : Piece) :
  type piece = pawn ->
  let direction := if color_eqb (color piece) white then -1 else 1 in
  let startRow := if color_eqb (color piece) white then 6 else 1 in
  isValidMove st fromRow fromCol toRow toCol piece = Normal true
  <-> (on_board toRow toCol
       /\ exists target,
           cell (board st) toRow toCol = Normal target
           /\ ((toCol = fromCol /\ toRow = fromRow + direction
                /\ target = None)
               \/ (toCol = fromCol /\ fromRow = startRow
                   /\ toRow = fromRow + 2 * direction /\ target = None
                   /\ cell (board st) (fromRow + direction) fromCol
                      = Normal None)
               \/ (Z.abs (toCol - fromCol) = 1 /\ toRow = fromRow + direction
                   /\ exists t, target = Some t /\ color t <> color piece))).
Proof.
  intros Hpawn direction startRow.
  assert (Hdir : direction = -1 \/ direction = 1)
    by (subst direction; destruct (color_eqb (color piece) white); auto).
  split.
  - intros Hok.
    destruct (isValidMove_accepts _ _ _ _ _ _ Hok)
      as (Hto & Hne & target & Htarget & Hforeign).
    assert (Hfree : free_for piece target).
    { apply free_for_spec. destruct target as [t |]; [| reflexivity].
      now apply Hforeign. }
    rewrite (isValidMove_open st _ _ _ _ piece target Hto Hne Htarget Hfree)
      in Hok.
    rewrite Hpawn in Hok. cbv zeta in Hok. fold direction startRow in Hok.
    split; [exact Hto |]. exists target. split; [exact Htarget |].
    assert (Hcapture :
              Normal ((Z.abs (toCol - fromCol) =? 1)
                      && (toRow =? fromRow + direction) && truthy target)
              = Normal true ->
              Z.abs (toCol - fromCol) = 1 /\ toRow = fromRow + direction
              /\ exists t, target = Some t /\ color t <> color piece).
    { intros H. injection H as H.
      apply andb_prop in H. destruct H as [H Ht].
      apply andb_prop in H. destruct H as [Hc Hr].
      apply Z.eqb_eq in Hc, Hr. split; [exact Hc |]. split; [exact Hr |].
      destruct target as [t |]; [| discriminate Ht].
      exists t. split; [reflexivity | now apply Hfree]. }
    destruct (Z.eqb_spec toCol fromCol) as [Hcol | Hcol]; cbn [andb] in Hok;
      [| right; right; now apply Hcapture].
    destruct target as [t |]; cbn [truthy negb] in Hok.
    { right. right. now apply Hcapture. }
    destruct (Z.eqb_spec toRow (fromRow + direction)) as [Hrow | Hrow];
      [left; now repeat split |].
    destruct (Z.eqb_spec fromRow startRow) as [Hs | Hs]; cbn [andb] in Hok;
      [| right; right; now apply Hcapture].
    destruct (Z.eqb_spec toRow (fromRow + 2 * direction)) as [Hrow2 | Hrow2];
      [| right; right; now apply Hcapture].
    destruct (cell (board st) (fromRow + direction) fromCol)
      as [[mid |] | |] eqn:Emid; cbn [cbind truthy negb] in Hok;
      try discriminate.
    + right. right. now apply Hcapture.
    + right. left. now repeat split.
  - intros (Hto & target & Htarget & Hcases).
    assert (Hne : fromRow <> toRow \/ fromCol <> toCol)
      by (destruct Hcases as [H | [H | H]]; lia).
    assert (Hfree : free_for piece target).
    { destruct Hcases as [(_ & _ & ->) | [(_ & _ & _ & -> & _)
                                         | (_ & _ & t & -> & Ht)]];
        try discriminate.
      intros t' Ht'. now injection Ht' as <-. }
    rewrite (isValidMove_open st _ _ _ _ piece target Hto Hne Htarget Hfree).
    rewrite Hpawn. cbv zeta. fold direction startRow.
    destruct Hcases as [(Hc & Hr & ->) | [(Hc & Hs & Hr & -> & Hmid)
                                         | (Hc & Hr & t & -> & Ht)]].
    + rewrite (proj2 (Z.eqb_eq toCol fromCol) Hc). cbn [truthy negb andb].
      now rewrite (proj2 (Z.eqb_eq toRow (fromRow + direction)) Hr).
    + rewrite (proj2 (Z.eqb_eq toCol fromCol) Hc). cbn [truthy negb andb].
      destruct (Z.eqb_spec toRow (fromRow + direction)); [reflexivity |].
      rewrite (proj2 (Z.eqb_eq fromRow startRow) Hs).
      rewrite (proj2 (Z.eqb_eq toRow (fromRow + 2 * direction)) Hr).
      cbn [andb]. rewrite Hmid. reflexivity.
    + replace (toCol =? fromCol) with false by (symmetry; apply Z.eqb_neq; lia).
      cbn [andb truthy].
      rewrite (proj2 (Z.eqb_eq (Z.abs (toCol - fromCol)) 1) Hc).
      now rewrite (proj2 (Z.eqb_eq toRow (fromRow + direction)) Hr).
Qed.

Lemma pawn_moves_forward_and_captures_diagonally_witness :
  isValidMove initialSession 6 4 4 4 (mkPiece pawn white false) = Normal true.
Proof.
  apply (pawn_moves_forward_and_captures_diagonally
           initialSession 6 4 4 4 (mkPiece pawn white false)).
  - reflexivity.
  - split; [unfold on_board; lia |]. exists None.
    split; [reflexivity |]. right. left.
    cbn. repeat split; reflexivity.
Defined.

(** X23. Where a knight or a king may go.  For a knight or a king,
    [isValidMove] returns [true] exactly when the destination is a square of
    the board that holds no piece of the mover's color and is a knight's
    leap away (two rows and one column, or one row and two columns) for a
    knight, one step away in any direction for a king.  Nothing else is
    looked at: neither the squares in between nor whether the destination
    is attacked. *)
Theorem knight_and_king_move_by_geometry_alone
        (st : Session) (fromRow fromCol toRow toCol : Z) (piece : Piece) :
  type piece = knight \/ type piece = king ->
  isValidMove st fromRow fromCol toRow toCol piece = Normal true
  <-> (on_board toRow toCol
       /\ (exists target,
              cell (board st) toRow toCol = Normal target
              /\ free_for piece target)
       /\ leap_of (type piece) fromRow fromCol toRow toCol).
Proof.
  intros Hkind. split.
  - intros Hok.
    destruct (isValidMove_accepts _ _ _ _ _ _ Hok)
      as (Hto & Hne & target & Htarget & Hforeign).
    assert (Hfree : free_for piece target).
    { apply free_for_spec. destruct target as [t |]; [| reflexivity].
      now apply Hforeign. }
    rewrite (isValidMove_open st _ _ _ _ piece target Hto Hne Htarget Hfree)
      in Hok.
    split; [exact Hto |]. split; [now exists target |].
    unfold leap_of. cbv zeta in Hok |- *.
    destruct Hkind as [E | E]; rewrite E in Hok |- *; injection Hok as Hok.
    + apply orb_prop in Hok.
      destruct Hok as [Hok | Hok]; apply andb_prop in Hok;
        destruct Hok as [H1 H2]; apply Z.eqb_eq in H1, H2; auto.
    + apply andb_prop in Hok. destruct Hok as [H1 H2].
      apply Z.leb_le in H1, H2. split; [exact H1 |]. split; [exact H2 | lia].
  - intros (Hto & (target & Htarget & Hfree) & Hleap).
    assert (Hne : fromRow <> toRow \/ fromCol <> toCol).
    { unfold leap_of in Hleap. cbv zeta in Hleap.
      destruct Hkind as [E | E]; rewrite E in Hleap; lia. }
    rewrite (isValidMove_open st _ _ _ _ piece target Hto Hne Htarget Hfree).
    unfold leap_of in Hleap. cbv zeta in Hleap |- *.
    destruct Hkind as [E | E]; rewrite E in Hleap |- *; f_equal.
    + apply orb_true_iff.
      destruct Hleap as [[H1 H2] | [H1 H2]]; [left | right];
        apply andb_true_iff; split; now apply Z.eqb_eq.
    + destruct Hleap as (H1 & H2 & _).
      apply andb_true_iff. split; now apply Z.leb_le.
Qed.

Lemma knight_and_king_move_by_geometry_alone_witness :
  isValidMove initialSession 7 1 5 2 (mkPiece knight white false)
  = Normal true.
Proof.
  apply (knight_and_king_move_by_geometry_alone
           initialSession 7 1 5 2 (mkPiece knight white false)).
  - left. reflexivity.
  - split; [unfold on_board; lia |]. split.
    + exists None. split; [reflexivity | discriminate].
    + left. split; reflexivity.
Defined.

(** ** Material *)

Lemma calculateMaterialBalance_sum (b : Board) :
  calculateMaterialBalance b = board_value b.
Proof.
  unfold calculateMaterialBalance.
  assert (Hrow : forall (row : Row) balance,
             fold_left
               (fun balance x =>
                  match x with
                  | Some piece =>
                      let value := pieceValues (type piece) in
                      balance + (if color_eqb (color piece) white
                                 then value else - value)
                  | None => balance
                  end) row balance
             = balance + row_value row).
  { induction row as [| x row IH]; intros balance; cbn [fold_left row_value fold_right].
    - lia.
    - rewrite IH. fold (row_value row). destruct x as [piece |]; cbn [value_of]; lia. }
  assert (Hboard : forall (rows : Board) balance,
             fold_left
               (fun balance row =>
                  fold_left
                    (fun balance x =>
                       match x with
                       | Some piece =>
                           let value := pieceValues (type piece) in
                           balance + (if color_eqb (color piece) white
                                      then value else - value)
                       | None => balance
                       end) row balance) rows balance
             = balance + board_value rows).
  { induction rows as [| row rows IH]; intros balance;
      cbn [fold_left board_value fold_right].
    - lia.
    - rewrite IH, Hrow. fold (board_value rows). lia. }
  rewrite Hboard. lia.
Qed.

Lemma row_value_put (row : Row) :
  forall (c : nat) (old v : option Piece),
    nth_error row c = Some old ->
    row_value (put None row c v) = row_value row - value_of old + value_of v.
Proof.
  induction row as [| x row IH]; intros c old v Hnth; [now destruct c |].
  destruct c as [| c]; cbn [put row_value fold_right].
  - injection Hnth as ->. fold (row_value row). lia.
  - fold (row_value row) (row_value (put None row c v)).
    rewrite (IH c old v Hnth). lia.
Qed.

Lemma board_value_put (b : Board) :
  forall (r : nat) (row row' : Row),
    nth_error b r = Some row ->
    board_value (put [] b r row')
    = board_value b - row_value row + row_value row'.
Proof.
  induction b as [| x b IH]; intros r row row' Hnth; [now destruct r |].
  destruct r as [| r]; cbn [put board_value fold_right].
  - injection Hnth as ->. fold (board_value b). lia.
  - fold (board_value b) (board_value (put [] b r row')).
    rewrite (IH r row row' Hnth). lia.
Qed.

Lemma material_store (b b' : Board) (r c : Z) (old v : option Piece) :
  wf_board b -> on_board r c ->
  cell b r c = Normal old ->
  store b r c v = Normal b' ->
  calculateMaterialBalance b'
  = calculateMaterialBalance b - value_of old + value_of v.
Proof.
  intros Hwf [Hr Hc] Hcell Hstore. rewrite !calculateMaterialBalance_sum.
  unfold cell in Hcell. unfold store in Hstore.
  destruct (wf_board_row b r Hwf Hr) as (row & Er & Hlen).
  rewrite Er in Hcell, Hstore.
  destruct (index_in_range row c) as [x Ex]; [rewrite Hlen; lia |].
  rewrite Ex in Hcell. injection Hcell as ->.
  destruct (Z.ltb_spec c 0); [lia |]. injection Hstore as <-.
  unfold index in Er, Ex.
  destruct (Z.ltb_spec r 0); [lia |]. destruct (Z.ltb_spec c 0); [lia |].
  rewrite (board_value_put b _ row _ Er), (row_value_put row _ old v Ex). lia.
Qed.

(** X16. A move changes the material balance by what it captures, and by
    nothing else: for a move between two different squares of the board, the
    balance [calculateMaterialBalance] gives on the board of the next render
    is the balance of the board of the render minus the value of what stood
    on the destination (the piece value for a white piece, its opposite for
    a black piece, 0 for an empty square or a king). *)
Theorem move_changes_material_by_the_capture
        (st : Session) (rand : nat -> float)
        (fromRow fromCol toRow toCol : Z) (p : Piece)
        (captured0 : option Piece) :
  wf_board (board st) ->
  on_board fromRow fromCol ->
  on_board toRow toCol ->
  fromRow <> toRow \/ fromCol <> toCol ->
  cell (board st) fromRow fromCol = Normal (Some p) ->
  cell (board st) toRow toCol = Normal captured0 ->
  calculateMaterialBalance (board (play st rand fromRow fromCol toRow toCol))
  = calculateMaterialBalance (board st) - value_of captured0.
Proof.
  intros Hst Hfrom Hto Hne Hp Hcap.
  destruct (makeMove_run st rand fromRow fromCol toRow toCol p idle
              Hst Hfrom Hto Hp)
    as (b1 & nb & q & d & Hb1 & Hnb & Hwf1 & _ & Hmove & Hquiet).
  unfold play. rewrite Hmove. cbn [snd queue idle app].
  rewrite commit_cons, commit_leaves_board by exact Hquiet.
  cbn [apply_update board].
  destruct (store_spec (board st) toRow toCol
              (Some (mkPiece (type p) (color p) true)) Hst Hto)
    as (b1' & Hb1' & _ & _ & Hframe).
  rewrite Hb1 in Hb1'. injection Hb1' as <-.
  assert (Hp1 : cell b1 fromRow fromCol = Normal (Some p)).
  { rewrite Hframe; [exact Hp |]. destruct Hne; [left | right]; congruence. }
  rewrite (material_store b1 nb fromRow fromCol (Some p) None
             Hwf1 Hfrom Hp1 Hnb).
  rewrite (material_store (board st) b1 toRow toCol captured0 _
             Hst Hto Hcap Hb1).
  cbn [value_of type color]. lia.
Qed.

Lemma move_changes_material_by_the_capture_witness :
  calculateMaterialBalance (board (play initialSession zeros 6 4 4 4)) = 0.
Proof.
  rewrite (move_changes_material_by_the_capture
             initialSession zeros 6 4 4 4 (mkPiece pawn white false) None).
  - reflexivity.
  - exact initializeBoard_wf.
  - unfold on_board. lia.
  - unfold on_board. lia.
  - left. lia.
  - reflexivity.
  - reflexivity.
Defined.

(** ** Scores of the aggregator *)

Lemma count_tier_nonneg (t : Tier) (l : list MoveData) : 0 <= count_tier t l.
Proof. unfold count_tier. lia. Qed.

(** X17. The post-game aggregator returns on an 8x8 board and queues, in
    this order, the weaknesses, the strengths, the recommendations, the
    scores and the flag that shows the analysis.  Each weakness comes with a
    recommendation whose priority is the severity of the weakness.  The
    tactical score is an integer between 0 and 100 and the opening score an
    integer between 40 and 100; the endgame score is 0 for a game of at most
    40 moves. *)
Theorem post_game_scores_are_bounded
        (st : Session) (rand : nat -> float) (w : World) :
  wf_board (board st) ->
  exists ws ss rs ps d,
    generatePostGameAnalysis st rand w
    = (Normal tt,
       mkWorld (queue w ++ [SetWeaknesses ws; SetStrengths ss;
                            SetRecommendations rs; SetPerformanceStats ps;
                            SetShowPostGameAnalysis true]) d)
    /\ map severity ws = map priority rs
    /\ (exists t, tacticalAccuracy ps = num t /\ 0 <= t <= 100)
    /\ (exists k, openingKnowledge ps = num k /\ 40 <= k <= 100)
    /\ (Z.of_nat (length (moves st)) <= 40 -> endgameSkill ps = 0%float).
Proof.
  intros Hst.
  destruct (generatePostGameAnalysis_run st rand w Hst)
    as (ws & ss & rs & ps & d & undeveloped & Hrun & Hpairs & Hcount
        & Htactical & Hopening & Hendgame).
  destruct (countUndevelopedPieces_range (board st) white Hst)
    as (n & Hn & Hrange).
  rewrite Hcount in Hn. injection Hn as <-.
  exists ws, ss, rs, ps, d.
  split; [exact Hrun |]. split; [exact Hpairs |].
  split.
  { exists (Z.max 0 (100 - blunderCount st * 20)). split; [exact Htactical |].
    pose proof (count_tier_nonneg blunder (moves st)). unfold blunderCount. lia. }
  split; [| exact Hendgame].
  exists (100 - undeveloped * 15). split; [exact Hopening | lia].
Qed.

Lemma post_game_scores_are_bounded_witness :
  exists ps, queued_stats (queue (snd (generatePostGameAnalysis
                                         ratedSession zeros idle))) = Some ps.
Proof.
  destruct (post_game_scores_are_bounded ratedSession zeros idle)
    as (ws & ss & rs & ps & d & Hrun & _).
  - exact initializeBoard_wf.
  - exists ps. rewrite Hrun. reflexivity.
Defined.

(** ** The engine analysis of a move *)

Lemma simulateStockfishAnalysis_run (st : Session) (rand : nat -> float)
      (b : Board) (lastMove : MoveData) (w : World) :
  wf_board (board st) -> wf_board b ->
  exists positionScore allMoves tail d,
    evaluatePosition b = Normal positionScore
    /\ generateAllPossibleMoves st b (currentPlayer st) = Normal allMoves
    /\ simulateStockfishAnalysis st rand b lastMove w
       = (Normal ((num (calculateMaterialBalance b) + positionScore) / 10)%float,
          mkWorld
            (queue w
             ++ SetEngineEvaluation
                  ((num (calculateMaterialBalance b) + positionScore) / 10)%float
                :: tail) d)
    /\ (tail = [] \/ exists x, tail = [SetBestMove (pick allMoves x)]).
Proof.
  intros Hst Hb.
  destruct (evaluatePosition_returns b Hb) as [positionScore Hscore].
  destruct (generateAllPossibleMoves_returns st b (currentPlayer st) Hst Hb)
    as [allMoves Hgen].
  exists positionScore, allMoves.
  unfold simulateStockfishAnalysis. rewrite Hscore, Hgen. cbv zeta.
  rewrite mbind_lift, mbind_emit, mbind_lift.
  destruct (Z.of_nat (length allMoves) >? 0);
    unfold mbind, lift, emit, mret, Math_random; cbn [queue draws];
    rewrite <- ?app_assoc; cbn [app];
    eexists; eexists; (split; [reflexivity |]); (split; [reflexivity |]);
    (split; [reflexivity |]); [right; eexists; reflexivity | now left].
Qed.

(** X18. The engine analysis that follows a move looks at the new board for
    the player who has just moved.  After [makeMove] on two squares of the
    board, the evaluation of the next render is the tenth of the material
    balance plus the positional score of the new board; and a best move, if
    one is queued, starts from a square that holds, on the new board, a
    piece of the player of the render (the one who moved, not the one to
    move next), for which [isValidMove] accepts it on the board before the
    move. *)
Theorem engine_analysis_is_for_the_player_who_moved
        (st : Session) (rand : nat -> float)
        (fromRow fromCol toRow toCol : Z) (p : Piece) :
  wf_board (board st) ->
  on_board fromRow fromCol ->
  on_board toRow toCol ->
  cell (board st) fromRow fromCol = Normal (Some p) ->
  let q := queue (snd (makeMove st rand fromRow fromCol toRow toCol idle)) in
  let next := commit st q in
  (exists positionScore,
      evaluatePosition (board next) = Normal positionScore
      /\ engineEvaluation next
         = ((num (calculateMaterialBalance (board next)) + positionScore)
            / 10)%float)
  /\ forall m,
      In (SetBestMove (Some m)) q ->
      exists piece,
        cell (board next) (sq_row (from m)) (sq_col (from m))
        = Normal (Some piece)
        /\ color piece = currentPlayer st
        /\ isValidMove st (sq_row (from m)) (sq_col (from m))
                       (sq_row (to m)) (sq_col (to m)) piece = Normal true.
Proof.
  intros Hst Hfrom Hto Hp q next.
  destruct (makeMove_trace st rand fromRow fromCol toRow toCol p idle
              Hst Hfrom Hto Hp)
    as (captured0 & b1 & newBoard & newEval & classification0 & q1 & hints
        & rest & d & Hcap & Hb1 & Hnb & _ & Hwf & Hrun & (lm & w0 & d0 & Hsim)
        & _ & Hking & Hover).
  destruct (simulateStockfishAnalysis_run st rand newBoard lm w0 Hst Hwf)
    as (positionScore & allMoves & tail & d1 & Hscore & Hgen & Hsim' & Htail).
  rewrite Hsim in Hsim'. injection Hsim' as Heval Hq1 _.
  apply app_inv_head in Hq1. subst q1.
  assert (Hrest : exists tl,
             rest = tl
             /\ (forall s, board (commit s tl) = board s
                           /\ engineEvaluation (commit s tl) = engineEvaluation s)
             /\ forall m, ~ In (SetBestMove m) tl).
  { destruct (hasKing st newBoard).
    - rewrite (Hking eq_refl). eexists. split; [reflexivity |].
      destruct (gameMode st), (currentPlayer st);
        (split; [intros s; split; reflexivity |]);
        intros m Hin; cbn in Hin; intuition discriminate.
    - destruct (Hover eq_refl) as (qa & w1 & d2 & -> & Hana).
      destruct (generatePostGameAnalysis_run st rand w1 Hst)
        as (ws & ss & rs & ps & d3 & u & Hana' & _).
      rewrite Hana in Hana'. injection Hana' as Hqa _.
      apply app_inv_head in Hqa. subst qa.
      eexists. split; [reflexivity |].
      split; [intros s; split; reflexivity |].
      intros m Hin; cbn in Hin; intuition discriminate. }
  destruct Hrest as (tl & -> & Hkeep & Hnobest).
  subst next q newEval. rewrite Hrun. cbn [snd queue idle app].
  assert (Hboard :
            forall tl', tl' = tail ->
              forall rec c0 note,
                let s := commit st
                           (SetBoard newBoard
                            :: (SetEngineEvaluation
                                  ((num (calculateMaterialBalance newBoard)
                                    + positionScore) / 10)%float :: tl')
                            ++ SetMoves rec :: SetMoveClassification c0
                            :: AppendNotation note :: SetLiveHints hints :: tl) in
                board s = newBoard
                /\ engineEvaluation s
                   = ((num (calculateMaterialBalance newBoard) + positionScore)
                      / 10)%float).
  { intros tl' -> rec c0 note s. subst s.
    destruct Htail as [-> | [x ->]]; cbn [app];
      rewrite !commit_cons; cbn [apply_update];
      rewrite (proj1 (Hkeep _)), (proj2 (Hkeep _)); now split. }
  destruct (Hboard tail eq_refl
              (moves st
               ++ [mkMoveData (type p) (mkSquare fromRow fromCol)
                     (mkSquare toRow toCol)
                     (if (fromRow =? toRow) && (fromCol =? toCol)
                      then Some (mkPiece (type p) (color p) true)
                      else captured0)
                     (toAlgebraic fromRow fromCol toRow toCol
                        (mkPiece (type p) (color p) true))
                     (currentPlayer st) (Some classification0)
                     (Some ((num (calculateMaterialBalance newBoard)
                             + positionScore) / 10)%float)])
              classification0
              (" " ++ toAlgebraic fromRow fromCol toRow toCol
                        (mkPiece (type p) (color p) true)
                   ++ symbol classification0)%string)
    as [Hb He].
  cbv zeta in Hb, He. cbn [app] in Hb, He. rewrite Hb, He.
  split; [exists positionScore; now split |].
  intros m [Hin | [Hin | Hin]]; [discriminate | discriminate |].
  apply in_app_or in Hin. destruct Hin as [Hin | Hin];
    [| do 4 (destruct Hin as [Hin | Hin]; [discriminate |]);
       now apply Hnobest in Hin].
  destruct Htail as [-> | [x ->]]; [destruct Hin |].
  destruct Hin as [Hin | []]. injection Hin as Hpick.
  assert (Hm : In m allMoves).
  { unfold pick in Hpick. destruct (floorZ _); [| discriminate].
    exact (index_In _ _ _ Hpick). }
  destruct (generated_move_inv st newBoard (currentPlayer st) allMoves m
              Hgen Hm)
    as (r & row & c & piece & tr & tc & -> & Hr & Hc & _ & _ & Hcolor & Hok).
  cbn [from to sq_row sq_col]. exists piece.
  split; [exact (indexed_cell _ _ _ _ _ Hr Hc) |]. now split.
Qed.

Lemma engine_analysis_is_for_the_player_who_moved_witness :
  exists positionScore,
    evaluatePosition (board (play initialSession zeros 6 4 4 4))
    = Normal positionScore.
Proof.
  destruct (engine_analysis_is_for_the_player_who_moved
              initialSession zeros 6 4 4 4 (mkPiece pawn white false))
    as [(positionScore & Hscore & _) _].
  - exact initializeBoard_wf.
  - unfold on_board. lia.
  - unfold on_board. lia.
  - reflexivity.
  - exists positionScore. exact Hscore.
Defined.

(** ** Notation of a move *)

Ltac board_index i :=
  let H := fresh "H" in
  assert (H : i = 0 \/ i = 1 \/ i = 2 \/ i = 3 \/ i = 4 \/ i = 5 \/ i = 6
              \/ i = 7) by lia;
  destruct H as [-> | [-> | [-> | [-> | [-> | [-> | [-> | ->]]]]]]].

Lemma file_of_single (c : Z) :
  0 <= c <= 7 -> exists ch, file_of c = String ch "".
Proof. intros H. board_index c; eexists; reflexivity. Qed.

Lemma file_of_inj (c c' : Z) :
  0 <= c <= 7 -> 0 <= c' <= 7 -> file_of c = file_of c' -> c = c'.
Proof.
  intros H H'. board_index c; board_index c'; intros E;
    first [reflexivity | discriminate E].
Qed.

Lemma rank_single (r : Z) :
  0 <= r <= 7 -> exists ch, showZ (8 - r) = String ch "".
Proof. intros H. board_index r; eexists; vm_compute; reflexivity. Qed.

Lemma rank_inj (r r' : Z) :
  0 <= r <= 7 -> 0 <= r' <= 7 -> showZ (8 - r) = showZ (8 - r') -> r = r'.
Proof.
  intros H H'. board_index r; board_index r'; intros E;
    first [reflexivity | vm_compute in E; discriminate E].
Qed.

(** X19. The notation of a move names its squares, and its piece up to one
    clash.  For squares of the board, the strings [toAlgebraic] gives for
    two moves are equal exactly when the two source squares are equal, the
    two destination squares are equal, and the pieces are of the same kind
    or one is a king and the other a knight (both are written [K]). *)
Theorem toAlgebraic_names_squares_and_kind
        (fromRow fromCol toRow toCol fromRow' fromCol' toRow' toCol' : Z)
        (piece piece' : Piece) :
  on_board fromRow fromCol ->
  on_board toRow toCol ->
  on_board fromRow' fromCol' ->
  on_board toRow' toCol' ->
  toAlgebraic fromRow fromCol toRow toCol piece
  = toAlgebraic fromRow' fromCol' toRow' toCol' piece'
  <-> (fromRow = fromRow' /\ fromCol = fromCol'
       /\ toRow = toRow' /\ toCol = toCol'
       /\ (type piece = type piece'
           \/ (type piece = king /\ type piece' = knight)
           \/ (type piece = knight /\ type piece' = king))).
Proof.
  intros [Hr Hc] [Htr Htc] [Hr' Hc'] [Htr' Htc']. split.
  - destruct (file_of_single fromCol Hc) as [f Ef].
    destruct (file_of_single toCol Htc) as [g Eg].
    destruct (file_of_single fromCol' Hc') as [f' Ef'].
    destruct (file_of_single toCol' Htc') as [g' Eg'].
    destruct (rank_single fromRow Hr) as [d Ed].
    destruct (rank_single toRow Htr) as [e Ee].
    destruct (rank_single fromRow' Hr') as [d' Ed'].
    destruct (rank_single toRow' Htr') as [e' Ee'].
    unfold toAlgebraic. rewrite Ef, Eg, Ef', Eg', Ed, Ee, Ed', Ee'.
    assert (Hsquares : f = f' -> d = d' -> g = g' -> e = e' ->
                       fromRow = fromRow' /\ fromCol = fromCol'
                       /\ toRow = toRow' /\ toCol = toCol').
    { intros -> -> -> ->.
      split; [apply rank_inj; congruence |].
      split; [apply file_of_inj; congruence |].
      split; [apply rank_inj; congruence | apply file_of_inj; congruence]. }
    destruct (type piece), (type piece'); cbn [pieceNotation append];
      intros E; try discriminate E;
      injection E as -> -> -> ->;
      (destruct Hsquares as (? & ? & ? & ?); [reflexivity .. |]);
      repeat (split; [assumption |]); auto.
  - intros (-> & -> & -> & -> & Hkind). unfold toAlgebraic.
    destruct Hkind as [-> | [[-> ->] | [-> ->]]]; reflexivity.
Qed.

Lemma toAlgebraic_names_squares_and_kind_witness :
  toAlgebraic 0 4 1 4 (mkPiece king black false)
  = toAlgebraic 0 4 1 4 (mkPiece knight black false).
Proof.
  apply (toAlgebraic_names_squares_and_kind 0 4 1 4 0 4 1 4
           (mkPiece king black false) (mkPiece knight black false)).
  - unfold on_board. lia.
  - unfold on_board. lia.
  - unfold on_board. lia.
  - unfold on_board. lia.
  - repeat (split; [reflexivity |]). right. left. split; reflexivity.
Defined.

(** ** The strongest difficulty *)

(** X20. At the difficulty [advanced] the engine plays the first candidate
    of the generator, and selecting it makes no draw.  On an 8x8 board
    handed to [makeAIMove] on which black has a candidate, one candidate
    comes before every other in row-major order of its source square and
    then of its destination; the selection returns it and leaves the world
    as it was; and [makeAIMove] is, from that same world, the [makeMove] of
    the two squares of that candidate: the draws of the reply are those of
    [makeMove] alone. *)
Theorem advanced_reply_is_the_first_candidate
        (st : Session) (rand : nat -> float) (currentBoard : Board)
        (allMoves : list Candidate) (w : World) :
  wf_board currentBoard ->
  generateAllPossibleMoves st currentBoard black = Normal allMoves ->
  allMoves <> [] ->
  exists m,
    In m allMoves
    /\ (forall m', In m' allMoves -> m' = m \/ row_major_before m m')
    /\ selectedMove rand advanced allMoves w = (Normal (Some m), w)
    /\ makeAIMove st rand advanced currentBoard w
       = makeMove st rand (sq_row (from m)) (sq_col (from m))
                  (sq_row (to m)) (sq_col (to m)) w.
Proof.
  intros Hwf Hgen Hsome.
  pose proof (generated_moves_ranked st currentBoard black allMoves Hwf Hgen)
    as Hsorted.
  destruct allMoves as [| m l]; [now contradiction Hsome |].
  assert (Hsel : selectedMove rand advanced (m :: l) w = (Normal (Some m), w))
    by reflexivity.
  exists m. split; [now left |].
  split; [| split; [exact Hsel
                   | exact (makeAIMove_run _ _ _ _ _ _ _ _ Hgen Hsel)]].
  intros m' [<- | Hin]; [now left |]. right.
  apply StronglySorted_inv in Hsorted. destruct Hsorted as [_ Hall].
  rewrite Forall_forall in Hall. specialize (Hall m' Hin).
  destruct (generated_move_inv st currentBoard black (m :: l) m Hgen
              (or_introl eq_refl))
    as (r & row & c & piece & tr & tc & -> & Hr & Hc & Htr & Htc & _).
  destruct (generated_move_inv st currentBoard black _ m' Hgen
              (or_intror Hin))
    as (r' & row' & c' & piece' & tr' & tc' & -> & Hr' & Hc' & Htr' & Htc' & _).
  pose proof (wf_indexed _ _ _ _ _ Hwf Hr Hc) as [? ?].
  pose proof (wf_indexed _ _ _ _ _ Hwf Hr' Hc') as [? ?].
  apply upto8_In in Htr, Htc, Htr', Htc'.
  unfold rank, square_index in Hall. unfold row_major_before, square_index.
  cbn [from to sq_row sq_col] in *. lia.
Qed.

Lemma advanced_reply_is_the_first_candidate_witness :
  exists m,
    makeAIMove initialSession zeros advanced initializeBoard idle
    = makeMove initialSession zeros (sq_row (from m)) (sq_col (from m))
               (sq_row (to m)) (sq_col (to m)) idle.
Proof.
  destruct (advanced_reply_is_the_first_candidate
              initialSession zeros initializeBoard
              (match generateAllPossibleMoves initialSession initializeBoard
                       black with
               | Normal l => l
               | _ => []
               end)
              idle)
    as (m & _ & _ & _ & Hrun).
  - exact initializeBoard_wf.
  - vm_compute. reflexivity.
  - vm_compute. discriminate.
  - exists m. exact Hrun.
Defined.

(** ** The move that ends the game *)

Lemma queued_stats_last (q : list Update) (ps : PerformanceStats) (u : Update) :
  (match u with SetPerformanceStats _ => false | _ => true end) = true ->
  queued_stats (q ++ [SetPerformanceStats ps; u]) = Some ps.
Proof.
  intros Hu. unfold queued_stats. rewrite fold_left_app. cbn [fold_left].
  destruct u; try reflexivity; discriminate Hu.
Qed.

(** X21. The analysis of a game that ends with the capture of a king
    leaves out the capturing move.  When [makeMove] leaves no king of the
    other color on the new board, the move list of the next render has one
    move more than the list of the render, while the tactical score queued
    with the analysis is computed from the blunders of the list of the
    render alone. *)
Theorem final_move_is_left_out_of_the_analysis
        (st : Session) (rand : nat -> float)
        (fromRow fromCol toRow toCol : Z) (p : Piece) :
  wf_board (board st) ->
  on_board fromRow fromCol ->
  on_board toRow toCol ->
  cell (board st) fromRow fromCol = Normal (Some p) ->
  let q := queue (snd (makeMove st rand fromRow fromCol toRow toCol idle)) in
  let next := commit st q in
  hasKing st (board next) = false ->
  exists ps,
    queued_stats q = Some ps
    /\ tacticalAccuracy ps
       = num (Z.max 0 (100 - count_tier blunder (moves st) * 20))
    /\ length (moves next) = S (length (moves st)).
Proof.
  intros Hst Hfrom Hto Hp q next Hking.
  destruct (makeMove_next st rand fromRow fromCol toRow toCol p idle
              Hst Hfrom Hto Hp)
    as (b1 & newBoard & md & q' & d & Hrun & _ & _ & _ & Hnext & Hqueue).
  assert (Hq : q = q') by (subst q; now rewrite Hrun).
  destruct (Hnext st) as (Hb & Hm & _).
  subst next. rewrite Hq, Hb in Hking. rewrite Hq, Hm.
  rewrite Hking in Hqueue.
  destruct Hqueue as (_ & _ & _ & _ & pre & ws & ss & rs & ps & -> & Htactical).
  exists ps. split; [| split; [exact Htactical |]].
  - unfold queued_stats. rewrite fold_left_app. reflexivity.
  - rewrite length_app. cbn [length]. lia.
Qed.

Lemma final_move_is_left_out_of_the_analysis_witness :
  exists final,
    replay (twoPlayers 1800) zeros kingHunt = Some final
    /\ exists ps,
        queued_stats (queue (snd (makeMove final zeros 1 5 0 4 idle)))
        = Some ps
        /\ length (moves (commit final
                            (queue (snd (makeMove final zeros 1 5 0 4 idle)))))
           = 7%nat.
Proof.
  eexists. split; [vm_compute; reflexivity |].
  match goal with
  | |- context [makeMove ?final _ _ _ _ _ _] =>
      destruct (final_move_is_left_out_of_the_analysis
                  final zeros 1 5 0 4 (mkPiece queen white true))
        as (ps & Hps & _ & Hlen)
  end.
  - vm_compute. split; [reflexivity | repeat constructor].
  - unfold on_board. lia.
  - unfold on_board. lia.
  - vm_compute. reflexivity.
  - vm_compute. reflexivity.
  - exists ps. split; [exact Hps |]. rewrite Hlen. reflexivity.
Defined.

(** ** The clock *)

Lemma mbind_assoc {A B C : Type} (m : M A) (k1 : A -> M B) (k2 : B -> M C)
      (w : World) :
  mbind (mbind m k1) k2 w = mbind m (fun x => mbind (k1 x) k2) w.
Proof. unfold mbind. destruct (m w) as [[a | |] w']; reflexivity. Qed.

Lemma tick_run (st : Session) (rand : nat -> float) (prev : TimeControl)
      (w : World) :
  wf_board (board st) ->
  exists tc q d,
    tick st rand prev w = (Normal tc, mkWorld (queue w ++ q) d)
    /\ clock tc (currentPlayer st)
       = Z.max 0 (clock prev (currentPlayer st) - 1)
    /\ clock tc (opposite (currentPlayer st))
       = clock prev (opposite (currentPlayer st))
    /\ (In (SetGameOver true) q <-> clock prev (currentPlayer st) <= 1).
Proof.
  intros Hst. unfold tick.
  set (t := Z.max 0 (clock prev (currentPlayer st) - 1)).
  set (newTime := match currentPlayer st with
                  | white => mkTimeControl t (tc_black prev)
                  | black => mkTimeControl (tc_white prev) t
                  end).
  assert (Hmover : clock newTime (currentPlayer st) = t)
    by (subst newTime; destruct (currentPlayer st); reflexivity).
  assert (Hother : clock newTime (opposite (currentPlayer st))
                   = clock prev (opposite (currentPlayer st)))
    by (subst newTime; destruct (currentPlayer st); reflexivity).
  rewrite Hmover. destruct (Z.eqb_spec t 0) as [Hzero | Hpos].
  - repeat (rewrite mbind_assoc || rewrite mbind_emit). cbn [queue draws].
    destruct (generatePostGameAnalysis_emits st rand Hst
                (mkWorld ((queue w ++ [SetGameOver true])
                          ++ [SetIsTimerActive false]) (draws w)))
      as ([] & qa & d & Hana & Hqa).
    rewrite (mbind_run _ _ _ _ _ Hana). unfold mret. cbn [queue] in *.
    exists newTime, (SetGameOver true :: SetIsTimerActive false :: qa), d.
    split; [rewrite <- !app_assoc; reflexivity |].
    split; [exact Hmover |]. split; [exact Hother |].
    split; [intros _; subst t; lia | intros _; now left].
  - unfold mbind, mret. exists newTime, [], (draws w).
    split; [rewrite app_nil_r; now destruct w |].
    split; [exact Hmover |]. split; [exact Hother |].
    split; [intros [] | intros Hle; subst t; lia].
Qed.

(** X22. The clock of the player to move runs down to zero and stops
    there.  After [n] seconds of one render on an 8x8 board, starting from a
    clock that is not negative, the updater has returned each time; the
    clock of the player to move is its start value minus [n], or 0 if that
    is negative; the other clock is untouched; and the game has been
    declared over exactly when [n] is at least 1 and at least the start
    value. *)
Theorem clock_runs_down_to_zero
        (st : Session) (rand : nat -> float) (n : nat) (prev : TimeControl)
        (w : World) :
  wf_board (board st) ->
  0 <= clock prev (currentPlayer st) ->
  exists tc q d,
    ticks st rand n prev w = (Normal tc, mkWorld (queue w ++ q) d)
    /\ clock tc (currentPlayer st)
       = Z.max 0 (clock prev (currentPlayer st) - Z.of_nat n)
    /\ clock tc (opposite (currentPlayer st))
       = clock prev (opposite (currentPlayer st))
    /\ (In (SetGameOver true) q
        <-> 0 < Z.of_nat n /\ clock prev (currentPlayer st) <= Z.of_nat n).
Proof.
  intros Hst. revert prev w.
  induction n as [| n IH]; intros prev w Hprev.
  - exists prev, [], (draws w). cbn [ticks]. unfold mret.
    split; [rewrite app_nil_r; now destruct w |].
    split; [cbn; lia |]. split; [reflexivity |].
    split; [intros [] | cbn; lia].
  - destruct (tick_run st rand prev w Hst)
      as (tc1 & q1 & d1 & Hrun1 & Hmover1 & Hother1 & Hover1).
    destruct (IH tc1 (mkWorld (queue w ++ q1) d1) ltac:(lia))
      as (tc & q & d & Hrun & Hmover & Hother & Hover).
    exists tc, (q1 ++ q), d. cbn [ticks].
    rewrite (mbind_run _ _ _ _ _ Hrun1), Hrun. cbn [queue].
    split; [now rewrite app_assoc |].
    split; [rewrite Hmover, Hmover1; lia |].
    split; [now rewrite Hother, Hother1 |].
    rewrite in_app_iff, Hover1, Hover, Hmover1. lia.
Qed.

Lemma clock_runs_down_to_zero_witness :
  exists tc q d,
    ticks initialSession zeros 3 (mkTimeControl 2 600) idle
    = (Normal tc, mkWorld q d)
    /\ clock tc white = 0.
Proof.
  destruct (clock_runs_down_to_zero initialSession zeros 3
              (mkTimeControl 2 600) idle)
    as (tc & q & d & Hrun & Hmover & _).
  - exact initializeBoard_wf.
  - cbn. lia.
  - exists tc, q, d. split; [exact Hrun | exact Hmover].
Defined.
